(** * Model selectors for per-word Gaussian HMMs

    A shallow embedding of [my_model_selectors.py]: the selector base class
    and its four strategies (constant, BIC, DIC, cross-validation), with the
    properties of their [select()] methods.

    Python floats are IEEE binary64 values: they are modelled by Rocq's
    primitive floats, so NaN and the infinities behave as in the program.
    Python ints are [Z].  A method is a computation in a small monad that
    threads the selector instance (the attributes of [self], which
    [SelectorCV.cv_score] overwrites), may raise, and records the calls made
    to the trainer and scorer. *)

From Stdlib Require Import ZArith Bool String List Lia Floats.
Import ListNotations.
Open Scope Z_scope.

(** ** Exceptions *)

Inductive exn : Set :=
| AttributeError            (* a method looked up on [None] *)
| KeyError                  (* a missing dictionary key *)
| ValueError
| IndexError
| UnboundLocalError         (* a local variable read before assignment *)
| OverflowError
| LibraryError (code : Z).  (* anything else raised inside a library call *)

Inductive result (A : Type) : Type :=
| Ok (a : A)
| Raise (e : exn).
Arguments Ok {A} a.
Arguments Raise {A} e.

Definition is_Ok {A} (r : result A) : bool :=
  match r with Ok _ => true | Raise _ => false end.

(** ** The libraries the selectors call

    The trainer and scorer (hmmlearn), the fold splitter (scikit-learn), the
    numeric helpers (NumPy) and the sequence combiner ([asl_utils]) are not
    part of the file under study.  They are taken as an interface; each may
    raise.  Training is seeded by [random_state], hence a function of its
    arguments. *)

Class Externals : Type := {
  (** one feature vector; an observation sequence is a list of them *)
  Frame : Type;
  (** a fitted [GaussianHMM] *)
  Model : Type;
  (** [GaussianHMM(n_components, covariance_type="diag", n_iter=1000,
      random_state, verbose=False).fit(X, lengths)] *)
  GaussianHMM_fit : Z -> Z -> list Frame -> list Z -> result Model;
  (** [model.score(X, lengths)], a log-likelihood *)
  Model_score : Model -> list Frame -> list Z -> result float;
  (** [np.log] of a Python int *)
  np_log : Z -> result float;
  (** [np.mean] of a list of floats *)
  np_mean : list float -> result float;
  (** the float64 value of a Python int that meets a float in arithmetic *)
  float_of_int : Z -> result float;
  (** [KFold(n_splits).split(seqs)] for [n_samples = len(seqs)]: the
      (train indices, test indices) pairs, or the error raised when there
      are fewer samples than splits *)
  KFold_split : nat -> nat -> result (list (list nat * list nat));
  (** [combine_sequences(split_index_list, sequences)] *)
  combine_sequences :
    list nat -> list (list Frame) -> result (list Frame * list Z);
  (** the splitter yields [n_splits] folds *)
  KFold_n_splits :
    forall n_splits n_samples folds,
      KFold_split n_splits n_samples = Ok folds ->
      length folds = n_splits
}.

(** ** Python helpers *)

(** A [dict] with string keys, in insertion order. *)
Definition dict (V : Type) : Type := list (string * V).

Fixpoint dict_get {V} (d : dict V) (k : string) : result V :=
  match d with
  | [] => Raise KeyError
  | (k', v) :: d' => if String.eqb k' k then Ok v else dict_get d' k
  end.

(** [range(start, stop)] *)
Definition range (start stop : Z) : list Z :=
  map (fun i => start + Z.of_nat i) (seq 0 (Z.to_nat (stop - start))).

(** [sum] of a list of ints *)
Definition sum (l : list Z) : Z := fold_left Z.add l 0.

(** [min(iterable, key=...)]: the first item is kept until a later one has a
    strictly smaller key. *)
Fixpoint min_from {A} (key : A -> float) (best : A) (rest : list A) : A :=
  match rest with
  | [] => best
  | x :: rest' =>
      min_from key (if (key x <? key best)%float then x else best) rest'
  end.

Definition py_min {A} (key : A -> float) (l : list A) : result A :=
  match l with
  | [] => Raise ValueError
  | x :: rest => Ok (min_from key x rest)
  end.

(** ** The selector instance and the method monad *)

Section Selectors.
Context {E : Externals}.

Record Selector : Type := mkSelector {
  words : dict (list (list Frame));
  hwords : dict (list Frame * list Z);
  sequences : list (list Frame);
  X : list Frame;
  lengths : list Z;
  this_word : string;
  n_constant : Z;
  min_n_components : Z;
  max_n_components : Z;
  random_state : Z;
  verbose : bool
}.

(** What a method does besides returning: calls into the trainer and the
    scorer, the messages printed, the warning filter installed, and the
    stores to [self.X, self.lengths]. *)
Inductive Event : Type :=
| EFilterWarnings
| EFit (num_states seed : Z) (X : list Frame) (lengths : list Z)
| EScore (model : Model) (X : list Frame) (lengths : list Z)
| EPrintCreated (word : string) (num_states : Z)
| EPrintFailure (word : string) (num_states : Z)
| EStore (X : list Frame) (lengths : list Z).

(** A computation runs from a selector state to a result (a value or an
    exception), the selector state it leaves, which an exception does not
    roll back, and the events it produced. *)
Definition M (A : Type) : Type := Selector -> result A * Selector * list Event.

Definition ret {A} (a : A) : M A := fun s => (Ok a, s, []).

Definition bind {A B} (m : M A) (k : A -> M B) : M B :=
  fun s =>
    match m s with
    | (Ok a, s1, t1) =>
        match k a s1 with
        | (r, s2, t2) => (r, s2, t1 ++ t2)
        end
    | (Raise e, s1, t1) => (Raise e, s1, t1)
    end.

Definition raise {A} (e : exn) : M A := fun s => (Raise e, s, []).

(** [try: body  except: handler] with a bare [except]. *)
Definition try_except {A} (body handler : M A) : M A :=
  fun s =>
    match body s with
    | (Ok a, s1, t1) => (Ok a, s1, t1)
    | (Raise _, s1, t1) =>
        match handler s1 with
        | (r, s2, t2) => (r, s2, t1 ++ t2)
        end
    end.

Definition lift {A} (r : result A) : M A := fun s => (r, s, []).

Definition emit (e : Event) : M unit := fun s => (Ok tt, s, [e]).

(** reading an attribute of [self] *)
Definition attr {A} (f : Selector -> A) : M A := fun s => (Ok (f s), s, []).

(** the instance after [self.X, self.lengths = x, l] *)
Definition with_data (s : Selector) (x : list Frame) (l : list Z) : Selector :=
  mkSelector (words s) (hwords s) (sequences s) x l
    (this_word s) (n_constant s) (min_n_components s)
    (max_n_components s) (random_state s) (verbose s).

(** [self.X, self.lengths = xl] *)
Definition store_X_lengths (xl : list Frame * list Z) : M unit :=
  fun s => (Ok tt, with_data s (fst xl) (snd xl), [EStore (fst xl) (snd xl)]).

End Selectors.

Declare Scope py_scope.
Delimit Scope py_scope with py.
Notation "x <- m ;; k" := (bind m (fun x => k))
  (at level 61, m at next level, right associativity) : py_scope.
Notation "' p <- m ;; k" := (bind m (fun p => k))
  (at level 61, p pattern, m at next level, right associativity) : py_scope.
Notation "m ;; k" := (bind m (fun _ => k))
  (at level 61, right associativity) : py_scope.
Open Scope py_scope.

Section Loops.
Context {E : Externals}.

(** [for x in xs: body], with the local variables the body updates passed
    along. *)
Fixpoint for_loop {A L} (xs : list A) (body : A -> L -> M L) (locals : L) : M L :=
  match xs with
  | [] => ret locals
  | x :: xs' => locals' <- body x locals ;; for_loop xs' body locals'
  end.

(** [obj.score(X, lengths)] where [obj] may be [None]; the call is recorded
    when [obj] is a model. *)
Definition method_score (obj : option Model) (X : list Frame) (lengths : list Z)
  : M float :=
  match obj with
  | None => raise AttributeError
  | Some model => emit (EScore model X lengths) ;; lift (Model_score model X lengths)
  end.

End Loops.

(** ** [class ModelSelector] *)

Module ModelSelector.
Section Methods.
Context {E : Externals}.

(** [__init__]: the word's sequences and its (X, lengths) pair are looked up
    in the two dictionaries. *)
Definition init (all_word_sequences : dict (list (list Frame)))
    (all_word_Xlengths : dict (list Frame * list Z)) (this_word : string)
    (n_constant min_n_components max_n_components random_state : Z)
    (verbose : bool) : result Selector :=
  match dict_get all_word_sequences this_word with
  | Raise e => Raise e
  | Ok seqs =>
      match dict_get all_word_Xlengths this_word with
      | Raise e => Raise e
      | Ok (X, lengths) =>
          Ok (mkSelector all_word_sequences all_word_Xlengths seqs X lengths
                this_word n_constant min_n_components max_n_components
                random_state verbose)
      end
  end.

Definition base_model (num_states : Z) : M (option Model) :=
  emit EFilterWarnings ;;
  try_except
    (seed <- attr random_state ;;
     self_X <- attr X ;;
     self_lengths <- attr lengths ;;
     emit (EFit num_states seed self_X self_lengths) ;;
     hmm_model <- lift (GaussianHMM_fit num_states seed self_X self_lengths) ;;
     v <- attr verbose ;;
     (if v then w <- attr this_word ;; emit (EPrintCreated w num_states)
      else ret tt) ;;
     ret (Some hmm_model))
    (v <- attr verbose ;;
     (if v then w <- attr this_word ;; emit (EPrintFailure w num_states)
      else ret tt) ;;
     ret None).

End Methods.
End ModelSelector.

(** ** [class SelectorConstant] *)

Module SelectorConstant.
Section Methods.
Context {E : Externals}.

Definition select : M (option Model) :=
  best_num_components <- attr n_constant ;;
  ModelSelector.base_model best_num_components.

End Methods.
End SelectorConstant.

(** ** [class SelectorBIC] *)

Module SelectorBIC.
Section Methods.
Context {E : Externals}.

Definition calc_deg_lib (num_states num_data_points : Z) : Z :=
  num_states ^ 2 + 2 * num_states * num_data_points - 1.

Definition calc_score (log_likelihood : float)
    (num_free_params num_data_points : Z) : M float :=
  ln <- lift (np_log num_data_points) ;;
  p <- lift (float_of_int num_free_params) ;;
  ret ((-2) * log_likelihood + p * ln)%float.

Definition calc_best_score_bic (score_bics : list (float * option Model))
  : result (float * option Model) :=
  py_min fst score_bics.

(** the body of the [try] of one iteration, up to the value appended *)
Definition candidate (num_states : Z) : M (float * option Model) :=
  hmm_model <- ModelSelector.base_model num_states ;;
  self_X <- attr X ;;
  self_lengths <- attr lengths ;;
  log_likelihood <- method_score hmm_model self_X self_lengths ;;
  self_lengths <- attr lengths ;;
  let num_data_points := sum self_lengths in
  let num_free_params := calc_deg_lib num_states num_data_points in
  score_bic <- calc_score log_likelihood num_free_params num_data_points ;;
  ret (score_bic, hmm_model).

(** the body of the loop of [select]: a failed candidate is passed over *)
Definition step (num_states : Z) (score_bics : list (float * option Model))
  : M (list (float * option Model)) :=
  try_except
    (entry <- candidate num_states ;;
     ret (score_bics ++ [entry]))
    (ret score_bics).

Definition search : M (list (float * option Model)) :=
  lo <- attr min_n_components ;;
  hi <- attr max_n_components ;;
  for_loop (range lo (hi + 1)) step [].

Definition select : M (option Model) :=
  emit EFilterWarnings ;;
  score_bics <- search ;;
  match score_bics with
  | [] => ret None
  | _ :: _ =>
      best <- lift (calc_best_score_bic score_bics) ;;
      ret (snd best)
  end.

End Methods.
End SelectorBIC.

(** ** [class SelectorDIC] *)

Module SelectorDIC.
Section Methods.
Context {E : Externals}.

Definition dic_score (n : Z) : M (float * option Model) :=
  model <- ModelSelector.base_model n ;;
  hw <- attr hwords ;;
  scores <-
    for_loop hw
      (fun item scores =>
         let '(word, (X', lengths')) := item in
         this <- attr this_word ;;
         if negb (String.eqb word this)
         then sc <- method_score model X' lengths' ;; ret (scores ++ [sc])
         else ret scores)
      [] ;;
  self_X <- attr X ;;
  self_lengths <- attr lengths ;;
  own <- method_score model self_X self_lengths ;;
  mean <- lift (np_mean scores) ;;
  ret ((own - mean)%float, model).

(** the body of the loop of [select]: [score > best_score] replaces *)
Definition step (n : Z) (best : float * option Model)
  : M (float * option Model) :=
  let '(best_score, best_model) := best in
  '(score, model) <- dic_score n ;;
  if (best_score <? score)%float
  then ret (score, model)
  else ret (best_score, best_model).

Definition search : M (option Model) :=
  lo <- attr min_n_components ;;
  hi <- attr max_n_components ;;
  best <- for_loop (range lo (hi + 1)) step (neg_infinity, None) ;;
  ret (snd best).

Definition select : M (option Model) :=
  emit EFilterWarnings ;;
  try_except search
    (n <- attr n_constant ;; ModelSelector.base_model n).

End Methods.
End SelectorDIC.

(** ** [class SelectorCV] *)

Module SelectorCV.
Section Methods.
Context {E : Externals}.

(** The local [model] is bound by the loop body only: [None] here is the
    unbound variable, [Some None] the value [None]. *)
Definition cv_score (n : Z) : M (float * option Model) :=
  seqs <- attr sequences ;;
  folds <- lift (KFold_split 2 (length seqs)) ;;
  locals <-
    for_loop folds
      (fun fold locals =>
         let '(train_idx, test_idx) := fold in
         let '(scores, _) := locals in
         seqs <- attr sequences ;;
         train <- lift (combine_sequences train_idx seqs) ;;
         store_X_lengths train ;;
         model <- ModelSelector.base_model n ;;
         seqs <- attr sequences ;;
         '(X', l) <- lift (combine_sequences test_idx seqs) ;;
         sc <- method_score model X' l ;;
         ret (scores ++ [sc], Some model))
      ([], None) ;;
  let '(scores, model) := locals in
  mean <- lift (np_mean scores) ;;
  match model with
  | None => raise UnboundLocalError
  | Some model => ret (mean, model)
  end.

(** the body of the loop of [select]: [score < best_score] replaces *)
Definition step (n : Z) (best : float * option Model)
  : M (float * option Model) :=
  let '(best_score, best_model) := best in
  '(score, model) <- cv_score n ;;
  if (score <? best_score)%float
  then ret (score, model)
  else ret (best_score, best_model).

Definition search : M (option Model) :=
  lo <- attr min_n_components ;;
  hi <- attr max_n_components ;;
  best <- for_loop (range lo (hi + 1)) step (infinity, None) ;;
  ret (snd best).

Definition select : M (option Model) :=
  emit EFilterWarnings ;;
  try_except search
    (n <- attr n_constant ;; ModelSelector.base_model n).

End Methods.
End SelectorCV.

(** * Vocabulary of the properties

    What follows describes runs without the monad: what a trace says, what
    each method computes as a function of the instance, and what it is for a
    candidate to be scored.  The lemmas relating these descriptions to the
    methods come after. *)

(** the order of finite floats of one sign: by exponent, then by mantissa *)
Definition lex (e1 e2 : Z) (m1 m2 : positive) : comparison :=
  match e1 ?= e2 with
  | Lt => Lt
  | Gt => Gt
  | Eq => Pos.compare_cont Eq m1 m2
  end.

Definition lex_opp (e1 e2 : Z) (m1 m2 : positive) : comparison :=
  match e1 ?= e2 with
  | Lt => Gt
  | Gt => Lt
  | Eq => CompOpp (Pos.compare_cont Eq m1 m2)
  end.

Section Vocabulary.
Context {E : Externals}.

(** the training calls of a trace, in order *)
Fixpoint fits (t : list Event) : list (Z * Z * list Frame * list Z) :=
  match t with
  | [] => []
  | EFit n seed x l :: t' => (n, seed, x, l) :: fits t'
  | _ :: t' => fits t'
  end.

(** the scoring calls of a trace, in order *)
Fixpoint scorings (t : list Event) : list (Model * list Frame * list Z) :=
  match t with
  | [] => []
  | EScore m x l :: t' => (m, x, l) :: scorings t'
  | _ :: t' => scorings t'
  end.

(** the stores to [self.X, self.lengths] of a trace, in order *)
Fixpoint stores (t : list Event) : list (list Frame * list Z) :=
  match t with
  | [] => []
  | EStore x l :: t' => (x, l) :: stores t'
  | _ :: t' => stores t'
  end.

(** the instance after the stores of a trace *)
Definition replay (t : list Event) (s : Selector) : Selector :=
  fold_left (fun s' xl => with_data s' (fst xl) (snd xl)) (stores t) s.

(** two instances that differ at most in [X] and [lengths] *)
Definition same_config (s s' : Selector) : Prop :=
  s' = with_data s (X s') (lengths s').

(** the instance with another search range *)
Definition with_range (s : Selector) (lo hi : Z) : Selector :=
  mkSelector (words s) (hwords s) (sequences s) (X s) (lengths s)
    (this_word s) (n_constant s) lo hi (random_state s) (verbose s).

(** the value [base_model] returns: the fitted model, or [None] when the
    trainer raises *)
Definition trained (s : Selector) (n : Z) : option Model :=
  match GaussianHMM_fit n (random_state s) (X s) (lengths s) with
  | Ok m => Some m
  | Raise _ => None
  end.

(** the events of [base_model n] *)
Definition base_model_trace (s : Selector) (n : Z) : list Event :=
  EFilterWarnings :: EFit n (random_state s) (X s) (lengths s) ::
  (if verbose s
   then [match trained s n with
         | Some _ => EPrintCreated (this_word s) n
         | None => EPrintFailure (this_word s) n
         end]
   else []).

(** A loop whose body is a function [g] of the element and the locals, which
    returns new locals or raises, with its events: the loop stops at the
    first exception. *)
Fixpoint scan {A L} (g : A -> L -> result L * list Event) (xs : list A)
    (locals : L) : result L * list Event :=
  match xs with
  | [] => (Ok locals, [])
  | x :: xs' =>
      match g x locals with
      | (Ok locals', t) =>
          match scan g xs' locals' with
          | (r, t') => (r, t ++ t')
          end
      | (Raise e, t) => (Raise e, t)
      end
  end.

(** the value of a result, if it has one *)
Definition kept {A} (r : result A) : list A :=
  match r with Ok a => [a] | Raise _ => [] end.

(** what one iteration's [try] block yields *)
Definition bic_result (s : Selector) (n : Z) : result (float * option Model) :=
  match trained s n with
  | None => Raise AttributeError
  | Some m =>
      match Model_score m (X s) (lengths s) with
      | Raise e => Raise e
      | Ok ll =>
          match np_log (sum (lengths s)) with
          | Raise e => Raise e
          | Ok ln =>
              match float_of_int
                      (SelectorBIC.calc_deg_lib n (sum (lengths s))) with
              | Raise e => Raise e
              | Ok p => Ok (((-2) * ll + p * ln)%float, Some m)
              end
          end
      end
  end.

(** the events of that iteration *)
Definition bic_trace (s : Selector) (n : Z) : list Event :=
  base_model_trace s n ++
  match trained s n with
  | None => []
  | Some m => [EScore m (X s) (lengths s)]
  end.

(** the list [score_bics] at the end of the loop *)
Definition bic_entries (s : Selector) : list (float * option Model) :=
  flat_map (fun n => kept (bic_result s n))
    (range (min_n_components s) (max_n_components s + 1)).

(** the events of the loop *)
Definition bic_search_trace (s : Selector) : list Event :=
  flat_map (bic_trace s) (range (min_n_components s) (max_n_components s + 1)).

(** the value [select] returns, from the list of entries *)
Definition bic_pick (entries : list (float * option Model)) : option Model :=
  match entries with
  | [] => None
  | e :: rest => snd (min_from fst e rest)
  end.

(** what [dic_score] and [cv_score] return: a score and a model *)
Definition candidate_result : Type := result (float * option Model).

(** One iteration of the loop of [SelectorDIC.select] or
    [SelectorCV.select]: the pair (best_score, best_model) is replaced when
    the candidate's score is [better]; an exception goes through. *)
Definition track (better : float -> float -> bool) (r : candidate_result)
    (best : float * option Model) : candidate_result :=
  match r with
  | Ok (score, model) =>
      Ok (if better score (fst best) then (score, model) else best)
  | Raise e => Raise e
  end.

(** the whole loop, on the results of the candidates in order *)
Fixpoint track_all (better : float -> float -> bool)
    (rs : list candidate_result) (best : float * option Model)
  : candidate_result :=
  match rs with
  | [] => Ok best
  | r :: rs' =>
      match track better r best with
      | Ok best' => track_all better rs' best'
      | Raise e => Raise e
      end
  end.

(** the events of a loop that stops after the first exception *)
Fixpoint trace_until {A} (res : A -> candidate_result) (tr : A -> list Event)
    (xs : list A) : list Event :=
  match xs with
  | [] => []
  | x :: xs' =>
      match res x with
      | Ok _ => tr x ++ trace_until res tr xs'
      | Raise _ => tr x
      end
  end.

(** [>] and [<] as the loops write them: is [score] better than [best]? *)
Definition dic_better (score best_score : float) : bool := (best_score <? score)%float.
Definition cv_better (score best_score : float) : bool := (score <? best_score)%float.

(** one iteration of the loop over the other words *)
Definition dic_other_step (s : Selector) (model : option Model)
    (item : string * (list Frame * list Z)) (scores : list float)
  : result (list float) * list Event :=
  let '(word, (X', lengths')) := item in
  if negb (String.eqb word (this_word s))
  then match model with
       | None => (Raise AttributeError, [])
       | Some m =>
           (match Model_score m X' lengths' with
            | Ok sc => Ok (scores ++ [sc])
            | Raise e => Raise e
            end,
            [EScore m X' lengths'])
       end
  else (Ok scores, []).

(** what [dic_score n] returns or raises, and its events *)
Definition dic_run (s : Selector) (n : Z) : candidate_result * list Event :=
  let model := trained s n in
  match scan (dic_other_step s model) (hwords s) [] with
  | (Raise e, t) => (Raise e, base_model_trace s n ++ t)
  | (Ok scores, t) =>
      match model with
      | None => (Raise AttributeError, base_model_trace s n ++ t)
      | Some m =>
          (match Model_score m (X s) (lengths s) with
           | Raise e => Raise e
           | Ok own =>
               match np_mean scores with
               | Raise e => Raise e
               | Ok mean => Ok ((own - mean)%float, model)
               end
           end,
           base_model_trace s n ++ t ++ [EScore m (X s) (lengths s)])
      end
  end.

(** the pair the loop of [SelectorDIC.select] ends with, or what it raises *)
Definition dic_search_result (s : Selector) : candidate_result :=
  track_all dic_better
    (map (fun n => fst (dic_run s n))
       (range (min_n_components s) (max_n_components s + 1)))
    (neg_infinity, None).

Definition dic_search_trace (s : Selector) : list Event :=
  trace_until (fun n => fst (dic_run s n)) (fun n => snd (dic_run s n))
    (range (min_n_components s) (max_n_components s + 1)).

(** One iteration of the loop over the folds.  It reads [self.sequences] and
    the configuration only: [self.X] and [self.lengths] are overwritten
    before the trainer reads them. *)
Definition cv_fold_step (s : Selector) (n : Z) (fold : list nat * list nat)
    (locals : list float * option (option Model))
  : result (list float * option (option Model)) * list Event :=
  let '(train_idx, test_idx) := fold in
  match combine_sequences train_idx (sequences s) with
  | Raise e => (Raise e, [])
  | Ok (x, l) =>
      let s1 := with_data s x l in
      let t1 := EStore x l :: base_model_trace s1 n in
      match combine_sequences test_idx (sequences s) with
      | Raise e => (Raise e, t1)
      | Ok (x', l') =>
          match trained s1 n with
          | None => (Raise AttributeError, t1)
          | Some m =>
              (match Model_score m x' l' with
               | Ok sc => Ok (fst locals ++ [sc], Some (Some m))
               | Raise e => Raise e
               end,
               t1 ++ [EScore m x' l'])
          end
      end
  end.

(** what [cv_score n] returns or raises, and its events *)
Definition cv_run (s : Selector) (n : Z) : candidate_result * list Event :=
  match KFold_split 2 (length (sequences s)) with
  | Raise e => (Raise e, [])
  | Ok folds =>
      match scan (cv_fold_step s n) folds ([], None) with
      | (Raise e, t) => (Raise e, t)
      | (Ok (scores, model), t) =>
          (match np_mean scores with
           | Raise e => Raise e
           | Ok mean =>
               match model with
               | None => Raise UnboundLocalError
               | Some model => Ok (mean, model)
               end
           end, t)
      end
  end.

(** the pair the loop of [SelectorCV.select] ends with, or what it raises *)
Definition cv_search_result (s : Selector) : candidate_result :=
  track_all cv_better
    (map (fun n => fst (cv_run s n))
       (range (min_n_components s) (max_n_components s + 1)))
    (infinity, None).

Definition cv_search_trace (s : Selector) : list Event :=
  trace_until (fun n => fst (cv_run s n)) (fun n => snd (cv_run s n))
    (range (min_n_components s) (max_n_components s + 1)).

(** one step of keeping the best under a strict comparison *)
Definition keep_step (better : float -> float -> bool)
    (best v : float * option Model) : float * option Model :=
  if better (fst v) (fst best) then v else best.

(** the loop without exceptions *)
Definition keep (better : float -> float -> bool)
    (vs : list (float * option Model)) (best : float * option Model)
  : float * option Model :=
  fold_left (keep_step better) vs best.

(** the values of the candidates of a range that have one, in order *)
Definition values (res : Z -> candidate_result) (lo hi : Z)
  : list (float * option Model) :=
  flat_map (fun n => kept (res n)) (range lo (hi + 1)).

(** BIC: the candidate [n] trains to [m] and scores [sc]. *)
Definition bic_scored (s : Selector) (n : Z) (sc : float) (m : Model) : Prop :=
  GaussianHMM_fit n (random_state s) (X s) (lengths s) = Ok m /\
  exists ll ln p,
    Model_score m (X s) (lengths s) = Ok ll
    /\ np_log (sum (lengths s)) = Ok ln
    /\ float_of_int (SelectorBIC.calc_deg_lib n (sum (lengths s))) = Ok p
    /\ sc = ((-2) * ll + p * ln)%float.

(** the entries of the cross-word index for the other words *)
Definition other_words (s : Selector) : list (string * (list Frame * list Z)) :=
  filter (fun item => negb (String.eqb (fst item) (this_word s))) (hwords s).

(** DIC: the candidate [n] trains to [m], and its log-likelihood on this
    word minus the mean of its log-likelihoods on the other words is [d]. *)
Definition dic_scored (s : Selector) (n : Z) (d : float) (m : Model) : Prop :=
  GaussianHMM_fit n (random_state s) (X s) (lengths s) = Ok m /\
  exists own others mean,
    Model_score m (X s) (lengths s) = Ok own
    /\ map (fun item => Model_score m (fst (snd item)) (snd (snd item)))
         (other_words s) = map Ok others
    /\ np_mean others = Ok mean
    /\ d = (own - mean)%float.

(** CV: on one fold, the candidate retrained on the combined training
    sequences is [m], and scores [sc] on the combined held-out sequences. *)
Definition cv_fold_scored (s : Selector) (n : Z) (fold : list nat * list nat)
    (m : Model) (sc : float) : Prop :=
  exists x l x' l',
    combine_sequences (fst fold) (sequences s) = Ok (x, l)
    /\ GaussianHMM_fit n (random_state s) x l = Ok m
    /\ combine_sequences (snd fold) (sequences s) = Ok (x', l')
    /\ Model_score m x' l' = Ok sc.

(** CV: the two folds are scored and [avg] is the mean of the two scores;
    [m] is the model of the second fold. *)
Definition cv_scored (s : Selector) (n : Z) (avg : float) (m : Model) : Prop :=
  exists fold1 fold2 m1 sc1 sc2,
    KFold_split 2 (length (sequences s)) = Ok [fold1; fold2]
    /\ cv_fold_scored s n fold1 m1 sc1
    /\ cv_fold_scored s n fold2 m sc2
    /\ np_mean [sc1; sc2] = Ok avg.

(** the candidate [n] raises in [dic_score]: its training failed, or one of
    its scorings, or the mean *)
Definition dic_candidate_fails (s : Selector) (n : Z) : Prop :=
  exists e s' t, SelectorDIC.dic_score n s = (Raise e, s', t).

(** the candidate [n] raises in [cv_score] *)
Definition cv_candidate_fails (s : Selector) (n : Z) : Prop :=
  exists e s' t, SelectorCV.cv_score n s = (Raise e, s', t).

End Vocabulary.

(** ** A concrete set of libraries

    For the worked examples below: frames are integers, a fitted model
    records what it was fitted with, the trainer fails when asked for more
    states than there are frames (as the k-means initialisation of the real
    trainer does), and the scorer is a table supplied by the example. *)

Module Lab.

Record HMM : Type := mkHMM {
  n_components : Z;
  seed : Z;
  fit_X : list Z;
  fit_lengths : list Z
}.

Definition fit (n seed : Z) (x : list Z) (l : list Z) : result HMM :=
  if (0 <? n) && (n <=? Z.of_nat (length x))
  then Ok (mkHMM n seed x l)
  else Raise ValueError.

(** the nearest float to an integer *)
Definition Z2float (z : Z) : float :=
  SF2Prim (binary_normalize prec emax z 0 false).

(** [np.mean] of a short list: the sum from the left over the count *)
Definition mean (l : list float) : result float :=
  Ok (fold_left PrimFloat.add l 0%float / Z2float (Z.of_nat (length l)))%float.

(** [np.log] on the integers the examples use, rounded to nearest *)
Definition log (n : Z) : result float :=
  if n <? 0 then Ok nan
  else if n =? 0 then Ok neg_infinity
  else if n =? 1 then Ok 0%float
  else if n =? 2 then Ok 0x1.62e42fefa39efp-1%float
  else if n =? 3 then Ok 0x1.193ea7aad030bp+0%float
  else if n =? 4 then Ok 0x1.62e42fefa39efp+0%float
  else if n =? 5 then Ok 0x1.9c041f7ed8d33p+0%float
  else if n =? 6 then Ok 0x1.cab0bfa2a2002p+0%float
  else if n =? 50 then Ok 0x1.f4bd2b7ac1bafp+1%float
  else Raise (LibraryError n).

(** [KFold(n_splits).split] without shuffling: consecutive test folds, the
    first [n_samples mod n_splits] of them one longer; the training indices
    are the others, in order. *)
Definition fold_sizes (n_splits n_samples : nat) : list nat :=
  map (fun i => (n_samples / n_splits
                 + if (i <? n_samples mod n_splits)%nat then 1 else 0)%nat)
    (seq 0 n_splits).

Fixpoint test_folds (sizes : list nat) (current : nat) : list (list nat) :=
  match sizes with
  | [] => []
  | size :: sizes' => seq current size :: test_folds sizes' (current + size)
  end.

Definition split (n_splits n_samples : nat) : result (list (list nat * list nat)) :=
  if (n_splits <? 2)%nat then Raise ValueError
  else if (n_samples <? n_splits)%nat then Raise ValueError
  else Ok (map (fun test =>
                  (filter (fun i => negb (existsb (Nat.eqb i) test))
                     (seq 0 n_samples), test))
             (test_folds (fold_sizes n_splits n_samples) 0)).

(** [[sequences[idx] for idx in split_index_list]] *)
Fixpoint choose {A} (idx : list nat) (seqs : list A) : result (list A) :=
  match idx with
  | [] => Ok []
  | i :: idx' =>
      match nth_error seqs i with
      | None => Raise IndexError
      | Some x =>
          match choose idx' seqs with
          | Ok r => Ok (x :: r)
          | Raise e => Raise e
          end
      end
  end.

(** Modelled from the spec: [combine_sequences] of [asl_utils], which is not
    among the sources; the sequence combiner of section 6,
    [combine(indices, sequences) -> (observations_matrix, length_markers)],
    merges the chosen sequences into one aggregate: they are concatenated,
    and the length of each is recorded. *)
Definition combine {A} (idx : list nat) (seqs : list (list A))
  : result (list A * list Z) :=
  match choose idx seqs with
  | Raise e => Raise e
  | Ok chosen => Ok (concat chosen, map (fun sub => Z.of_nat (length sub)) chosen)
  end.

Lemma test_folds_length sizes current :
  length (test_folds sizes current) = length sizes.
Proof.
  revert current. induction sizes as [|sz sizes IH]; intros current; simpl; auto.
Qed.

Lemma split_n_splits n_splits n_samples folds :
  split n_splits n_samples = Ok folds -> length folds = n_splits.
Proof.
  unfold split.
  destruct (n_splits <? 2)%nat; [discriminate|].
  destruct (n_samples <? n_splits)%nat; [discriminate|].
  intros H. injection H as <-.
  rewrite length_map, test_folds_length. unfold fold_sizes.
  rewrite length_map, length_seq. reflexivity.
Qed.

(** the libraries, for a table of log-likelihoods *)
Definition libs (score : HMM -> list Z -> list Z -> result float) : Externals :=
  {| Frame := Z;
     Model := HMM;
     GaussianHMM_fit := fit;
     Model_score := score;
     np_log := log;
     np_mean := mean;
     float_of_int := fun z => Ok (Z2float z);
     KFold_split := split;
     combine_sequences := combine;
     KFold_n_splits := split_n_splits |}.

End Lab.

(** ** The data of the worked examples

    A vocabulary of two words; the word under selection has two sequences of
    three frames. *)

Module Worked.
Import Lab.

Definition book_sequences : list (list Z) := [[1; 2; 3]; [4; 5; 6]].
Definition john_sequences : list (list Z) := [[7; 8]; [9]].

Definition all_sequences : dict (list (list Z)) :=
  [("BOOK"%string, book_sequences); ("JOHN"%string, john_sequences)].

Definition all_Xlengths : dict (list Z * list Z) :=
  [("BOOK"%string, ([1; 2; 3; 4; 5; 6], [3; 3]));
   ("JOHN"%string, ([7; 8; 9], [2; 1]))].

(** a log-likelihood that falls with the number of states and of frames *)
Definition size_score (m : HMM) (x : list Z) (l : list Z) : result float :=
  Ok (Z2float (- (n_components m * Z.of_nat (length x)))).

(** the same log-likelihood for every model and every data *)
Definition flat_score (m : HMM) (x : list Z) (l : list Z) : result float :=
  Ok (-10)%float.

(** the selector for BOOK, as [__init__] builds it *)
Definition book (score : HMM -> list Z -> list Z -> result float)
    (n_constant lo hi : Z) : @Selector (libs score) :=
  @mkSelector (libs score) all_sequences all_Xlengths book_sequences
    [1; 2; 3; 4; 5; 6] [3; 3] "BOOK" n_constant lo hi 14 false.

(** the selector for BOOK when the vocabulary holds no other word *)
Definition alone (lo hi : Z) : @Selector (libs size_score) :=
  @mkSelector (libs size_score)
    [("BOOK"%string, book_sequences)]
    [("BOOK"%string, ([1; 2; 3; 4; 5; 6], [3; 3]))]
    book_sequences [1; 2; 3; 4; 5; 6] [3; 3] "BOOK" 3 lo hi 14 false.

Definition book_2_3 : @Selector (libs size_score) := book size_score 3 2 3.
Definition book_2_7 : @Selector (libs size_score) := book size_score 3 2 7.
Definition book_7_8 : @Selector (libs size_score) := book size_score 3 7 8.
Definition flat_2_3 : @Selector (libs flat_score) := book flat_score 3 2 3.

End Worked.

(** ** More vocabulary and data *)

Section MoreVocabulary.
Context {E : Externals}.

(** the messages printed in a trace, in order *)
Fixpoint prints (t : list Event) : list Event :=
  match t with
  | [] => []
  | EPrintCreated w n :: t' => EPrintCreated w n :: prints t'
  | EPrintFailure w n :: t' => EPrintFailure w n :: prints t'
  | _ :: t' => prints t'
  end.

(** the message [base_model] prints after a training call, when [verbose] *)
Definition report (w : string) (c : Z * Z * list Frame * list Z) : Event :=
  let '(n, seed, x, l) := c in
  match GaussianHMM_fit n seed x l with
  | Ok _ => EPrintCreated w n
  | Raise _ => EPrintFailure w n
  end.

(** the messages of a trace are those of its training calls, if any are
    printed at all *)
Definition reports (v : bool) (w : string) (t : list Event) : Prop :=
  prints t = if v then map (report w) (fits t) else [].

(** the scoring calls of one candidate of [SelectorCV]: the model trained
    on a fold's training data is scored on that fold's held-out data *)
Definition held_out_scorings (s : Selector) (n : Z)
    (x1 : list Frame) (l1 : list Z) (x2 : list Frame) (l2 : list Z)
    (y1 : list Frame) (k1 : list Z) (y2 : list Frame) (k2 : list Z)
  : list (Model * list Frame * list Z) :=
  match GaussianHMM_fit n (random_state s) x1 l1,
        GaussianHMM_fit n (random_state s) x2 l2 with
  | Ok m1, Ok m2 => [(m1, y1, k1); (m2, y2, k2)]
  | _, _ => []
  end.

End MoreVocabulary.

Module MoreWorked.
Import Lab Worked.

(** a scorer that returns NaN for models of two states *)
Definition nan_score (m : HMM) (x : list Z) (l : list Z) : result float :=
  if n_components m =? 2 then Ok nan
  else Ok (Z2float (- (n_components m * Z.of_nat (length x)))).

(** BOOK with the NaN scorer *)
Definition nan_2_3 : @Selector (libs nan_score) := book nan_score 3 2 3.

(** BOOK with an empty range of state counts *)
Definition book_5_4 : @Selector (libs size_score) := book size_score 3 5 4.

(** a word with a single sequence: [KFold(n_splits=2)] cannot split it *)
Definition solo : @Selector (libs size_score) :=
  @mkSelector (libs size_score)
    [("SOLO"%string, [[1; 2; 3]])]
    [("SOLO"%string, ([1; 2; 3], [3]))]
    [[1; 2; 3]] [1; 2; 3] [3] "SOLO" 3 2 3 14 false.

(** a scorer that returns NaN for models of three states *)
Definition nan_last_score (m : HMM) (x : list Z) (l : list Z) : result float :=
  if n_components m =? 3 then Ok nan
  else Ok (Z2float (- (n_components m * Z.of_nat (length x)))).

(** BOOK with the NaN at the last candidate *)
Definition nan_last_2_3 : @Selector (libs nan_last_score) :=
  book nan_last_score 3 2 3.

(** the log-likelihood at which the BIC of [n] states on BOOK's six data
    points is 0: half of [p * ln 6] *)
Definition zero_bic_ll (n : Z) : float :=
  (Z2float (SelectorBIC.calc_deg_lib n 6) * 0x1.cab0bfa2a2002p+0 / 2)%float.

(** a scorer under which the BIC is 21.5 at one state and 0 from two states
    on *)
Definition bic_tie_score (m : HMM) (x : list Z) (l : list Z) : result float :=
  if n_components m =? 1 then Ok 0%float else Ok (zero_bic_ll (n_components m)).


Definition bic_tie_1_3 : @Selector (libs bic_tie_score) := book bic_tie_score 3 1 3.

(** a log-likelihood that rises with the number of frames, and with the
    number of states up to two: the DIC of BOOK is 3 at one state and 6 from
    two states on *)
Definition plateau_score (m : HMM) (x : list Z) (l : list Z) : result float :=
  Ok (Z2float (Z.min (n_components m) 2 * Z.of_nat (length x))).

Definition plateau_1_3 : @Selector (libs plateau_score) := book plateau_score 3 1 3.

(** the opposite log-likelihood: the average over BOOK's two folds is -3 at
    one state and -6 from two states on *)
Definition valley_score (m : HMM) (x : list Z) (l : list Z) : result float :=
  Ok (Z2float (- (Z.min (n_components m) 2 * Z.of_nat (length x)))).

Definition valley_1_3 : @Selector (libs valley_score) := book valley_score 3 1 3.

(** a scorer for which BOOK's own six frames are impossible under every
    model: their log-likelihood is minus infinity *)
Definition impossible_score (m : HMM) (x : list Z) (l : list Z) : result float :=
  if Z.of_nat (length x) =? 6 then Ok neg_infinity
  else Ok (Z2float (- (n_components m * Z.of_nat (length x)))).

Definition impossible_2_3 : @Selector (libs impossible_score) :=
  book impossible_score 3 2 3.

End MoreWorked.

(** * Lemmas *)

(** ** The order of IEEE floats

    [<] on floats is the comparison of the program; what the selection loops
    need from it follows from the specification of the primitive
    operations. *)

Module FloatOrder.

Lemma lex_Lt e1 e2 m1 m2 :
  lex e1 e2 m1 m2 = Lt <-> e1 < e2 \/ (e1 = e2 /\ (m1 < m2)%positive).
Proof.
  unfold lex. change (Pos.compare_cont Eq m1 m2) with (m1 ?= m2)%positive.
  destruct (Z.compare_spec e1 e2); [rewrite Pos.compare_lt_iff | |];
    split; intros; try discriminate; try lia; auto.
Qed.

Lemma lex_Eq e1 e2 m1 m2 :
  lex e1 e2 m1 m2 = Eq <-> e1 = e2 /\ m1 = m2.
Proof.
  unfold lex. change (Pos.compare_cont Eq m1 m2) with (m1 ?= m2)%positive.
  destruct (Z.compare_spec e1 e2); [rewrite Pos.compare_eq_iff | |];
    split; intros; try discriminate; try lia; intuition congruence.
Qed.

Lemma lex_opp_Lt e1 e2 m1 m2 :
  lex_opp e1 e2 m1 m2 = Lt <-> e2 < e1 \/ (e1 = e2 /\ (m2 < m1)%positive).
Proof.
  unfold lex_opp. change (Pos.compare_cont Eq m1 m2) with (m1 ?= m2)%positive.
  destruct (Z.compare_spec e1 e2).
  - destruct (Pos.compare_spec m1 m2); simpl; split; intros;
      try discriminate; try lia; auto.
  - split; intros; try discriminate; lia.
  - split; intros; auto; lia.
Qed.

Lemma lex_opp_Eq e1 e2 m1 m2 :
  lex_opp e1 e2 m1 m2 = Eq <-> e1 = e2 /\ m1 = m2.
Proof.
  unfold lex_opp. change (Pos.compare_cont Eq m1 m2) with (m1 ?= m2)%positive.
  destruct (Z.compare_spec e1 e2).
  - destruct (Pos.compare_spec m1 m2); simpl; split; intros;
      try discriminate; try lia; intuition congruence.
  - split; intros; try discriminate; lia.
  - split; intros; try discriminate; lia.
Qed.

Lemma SFcompare_Lt_trans x y z :
  SFcompare x y = Some Lt -> SFcompare y z = Some Lt -> SFcompare x z = Some Lt.
Proof.
  destruct x as [sx|sx| |sx mx ex], y as [sy|sy| |sy my ey], z as [sz|sz| |sz mz ez];
    simpl; try congruence;
    repeat match goal with b : bool |- _ => destruct b end; try congruence;
    intros H1 H2; injection H1 as H1; injection H2 as H2; f_equal.
  - change (lex_opp ex ez mx mz = Lt).
    change (lex_opp ex ey mx my = Lt) in H1. change (lex_opp ey ez my mz = Lt) in H2.
    apply lex_opp_Lt in H1, H2. apply lex_opp_Lt. lia.
  - change (lex ex ez mx mz = Lt).
    change (lex ex ey mx my = Lt) in H1. change (lex ey ez my mz = Lt) in H2.
    apply lex_Lt in H1, H2. apply lex_Lt. lia.
Qed.

Lemma SFcompare_Eq_Lt x y z :
  SFcompare x y = Some Eq -> SFcompare y z = Some Lt -> SFcompare x z = Some Lt.
Proof.
  destruct x as [sx|sx| |sx mx ex], y as [sy|sy| |sy my ey], z as [sz|sz| |sz mz ez];
    simpl; try congruence;
    repeat match goal with b : bool |- _ => destruct b end; try congruence;
    intros H1 H2; injection H1 as H1; injection H2 as H2; f_equal.
  - change (lex_opp ex ez mx mz = Lt).
    change (lex_opp ex ey mx my = Eq) in H1. change (lex_opp ey ez my mz = Lt) in H2.
    apply lex_opp_Eq in H1. apply lex_opp_Lt in H2. apply lex_opp_Lt. lia.
  - change (lex ex ez mx mz = Lt).
    change (lex ex ey mx my = Eq) in H1. change (lex ey ez my mz = Lt) in H2.
    apply lex_Eq in H1. apply lex_Lt in H2. apply lex_Lt. lia.
Qed.

Lemma SFcompare_Lt_Eq x y z :
  SFcompare z y = Some Lt -> SFcompare x y = Some Eq -> SFcompare z x = Some Lt.
Proof.
  destruct x as [sx|sx| |sx mx ex], y as [sy|sy| |sy my ey], z as [sz|sz| |sz mz ez];
    simpl; try congruence;
    repeat match goal with b : bool |- _ => destruct b end; try congruence;
    intros H1 H2; injection H1 as H1; injection H2 as H2; f_equal.
  - change (lex_opp ez ex mz mx = Lt).
    change (lex_opp ez ey mz my = Lt) in H1. change (lex_opp ex ey mx my = Eq) in H2.
    apply lex_opp_Eq in H2. apply lex_opp_Lt in H1. apply lex_opp_Lt. lia.
  - change (lex ez ex mz mx = Lt).
    change (lex ez ey mz my = Lt) in H1. change (lex ex ey mx my = Eq) in H2.
    apply lex_Eq in H2. apply lex_Lt in H1. apply lex_Lt. lia.
Qed.

Lemma SFcompare_refl_not_Lt x : SFcompare x x <> Some Lt.
Proof.
  destruct x as [s|s| |s m e]; simpl; try congruence; destruct s; try congruence.
  - intros H. injection H as H. change (lex_opp e e m m = Lt) in H.
    apply lex_opp_Lt in H. lia.
  - intros H. injection H as H. change (lex e e m m = Lt) in H.
    apply lex_Lt in H. lia.
Qed.

Lemma ltb_irrefl (x : float) : (x <? x)%float = false.
Proof.
  rewrite ltb_spec. unfold SFltb.
  pose proof (SFcompare_refl_not_Lt (Prim2SF x)).
  destruct (SFcompare (Prim2SF x) (Prim2SF x)) as [[]|]; congruence.
Qed.

Lemma ltb_trans (x y z : float) :
  (x <? y)%float = true -> (y <? z)%float = true -> (x <? z)%float = true.
Proof.
  rewrite !ltb_spec. unfold SFltb. intros H1 H2.
  rewrite (SFcompare_Lt_trans (Prim2SF x) (Prim2SF y) (Prim2SF z)); auto.
  - destruct (SFcompare (Prim2SF x) (Prim2SF y)) as [[]|]; congruence.
  - destruct (SFcompare (Prim2SF y) (Prim2SF z)) as [[]|]; congruence.
Qed.

(** Numerically equal floats ([==], which holds of [+0.] and [-0.] and of no
    NaN) stand in the same relation to every third float. *)
Lemma eqb_ltb_trans (x y z : float) :
  (x =? y)%float = true -> (y <? z)%float = true -> (x <? z)%float = true.
Proof.
  rewrite eqb_spec, !ltb_spec. unfold SFeqb, SFltb. intros H1 H2.
  rewrite (SFcompare_Eq_Lt (Prim2SF x) (Prim2SF y) (Prim2SF z)); auto.
  - destruct (SFcompare (Prim2SF x) (Prim2SF y)) as [[]|]; congruence.
  - destruct (SFcompare (Prim2SF y) (Prim2SF z)) as [[]|]; congruence.
Qed.

Lemma ltb_eqb_trans (x y z : float) :
  (z <? y)%float = true -> (x =? y)%float = true -> (z <? x)%float = true.
Proof.
  rewrite eqb_spec, !ltb_spec. unfold SFeqb, SFltb. intros H1 H2.
  rewrite (SFcompare_Lt_Eq (Prim2SF x) (Prim2SF y) (Prim2SF z)); auto.
  - destruct (SFcompare (Prim2SF z) (Prim2SF y)) as [[]|]; congruence.
  - destruct (SFcompare (Prim2SF x) (Prim2SF y)) as [[]|]; congruence.
Qed.

Lemma eqb_not_ltb (x y : float) : (x =? y)%float = true -> (x <? y)%float = false.
Proof.
  rewrite eqb_spec, ltb_spec. unfold SFeqb, SFltb.
  destruct (SFcompare (Prim2SF x) (Prim2SF y)) as [[]|]; congruence.
Qed.

Lemma eqb_not_gtb (x y : float) : (x =? y)%float = true -> (y <? x)%float = false.
Proof.
  intros H. destruct (y <? x)%float eqn:L; auto.
  pose proof (eqb_ltb_trans _ _ _ H L) as C.
  rewrite ltb_irrefl in C. discriminate.
Qed.

End FloatOrder.

(** ** Reading a trace *)

Section Traces.
Context {E : Externals}.

Lemma fits_app t1 t2 : fits (t1 ++ t2) = fits t1 ++ fits t2.
Proof.
  induction t1 as [|e t1 IH]; simpl; auto.
  destruct e; simpl; rewrite ?IH; reflexivity.
Qed.

Lemma scorings_app t1 t2 : scorings (t1 ++ t2) = scorings t1 ++ scorings t2.
Proof.
  induction t1 as [|e t1 IH]; simpl; auto.
  destruct e; simpl; rewrite ?IH; reflexivity.
Qed.

Lemma stores_app t1 t2 : stores (t1 ++ t2) = stores t1 ++ stores t2.
Proof.
  induction t1 as [|e t1 IH]; simpl; auto.
  destruct e; simpl; rewrite ?IH; reflexivity.
Qed.

Lemma replay_app t1 t2 s : replay (t1 ++ t2) s = replay t2 (replay t1 s).
Proof. unfold replay. rewrite stores_app, fold_left_app. reflexivity. Qed.

Lemma replay_stores_eq t1 t2 s : stores t1 = stores t2 -> replay t1 s = replay t2 s.
Proof. unfold replay. intros ->. reflexivity. Qed.

Lemma replay_no_store t s : stores t = [] -> replay t s = s.
Proof. unfold replay. intros ->. reflexivity. Qed.

Lemma with_data_self s : with_data s (X s) (lengths s) = s.
Proof. destruct s; reflexivity. Qed.

Lemma same_config_refl s : same_config s s.
Proof. unfold same_config. symmetry. apply with_data_self. Qed.

Lemma same_config_with_data s s' x l :
  same_config s s' -> same_config s (with_data s' x l).
Proof. unfold same_config. intros ->. reflexivity. Qed.

Lemma same_config_replay t s s' :
  same_config s s' -> same_config s (replay t s').
Proof.
  unfold replay. revert s'.
  induction (stores t) as [|xl st IH]; simpl; intros s' H; auto.
  apply IH. apply same_config_with_data. exact H.
Qed.

(** After at least one store the instance holds the last one stored. *)
Lemma replay_last t s x l :
  last (map Some (stores t)) None = Some (x, l) ->
  replay t s = with_data s x l.
Proof.
  unfold replay. revert s.
  induction (stores t) as [|xl st IH]; simpl; intros s H; [discriminate|].
  destruct st as [|xl' st'].
  - simpl in *. injection H as ->. reflexivity.
  - rewrite IH by exact H. reflexivity.
Qed.

End Traces.

(** ** Running the base class *)

Section BaseRuns.
Context {E : Externals}.

Lemma base_model_run (n : Z) (s : Selector) :
  ModelSelector.base_model n s = (Ok (trained s n), s, base_model_trace s n).
Proof.
  unfold ModelSelector.base_model, base_model_trace, trained,
    bind, try_except, attr, emit, lift, ret.
  destruct (GaussianHMM_fit n (random_state s) (X s) (lengths s));
    destruct (verbose s); reflexivity.
Qed.

Lemma base_model_fits s n :
  fits (base_model_trace s n) = [(n, random_state s, X s, lengths s)].
Proof.
  unfold base_model_trace. simpl.
  destruct (verbose s); [destruct (trained s n)|]; reflexivity.
Qed.

Lemma base_model_scorings s n : scorings (base_model_trace s n) = [].
Proof.
  unfold base_model_trace. simpl.
  destruct (verbose s); [destruct (trained s n)|]; reflexivity.
Qed.

Lemma base_model_stores s n : stores (base_model_trace s n) = [].
Proof.
  unfold base_model_trace. simpl.
  destruct (verbose s); [destruct (trained s n)|]; reflexivity.
Qed.

Lemma constant_run (s : Selector) :
  SelectorConstant.select s
  = (Ok (trained s (n_constant s)), s, base_model_trace s (n_constant s)).
Proof.
  unfold SelectorConstant.select, bind, attr.
  rewrite base_model_run. reflexivity.
Qed.

End BaseRuns.

(** ** Running a loop

    A loop whose body behaves, on the instances of a class [I], as a
    function [g] of the element and the locals runs as the scan of [g] over
    the list: it stops at the first exception. *)

Section LoopRuns.
Context {E : Externals}.

Lemma for_loop_scan {A L} (I : Selector -> Prop)
    (body : A -> L -> M L) (g : A -> L -> result L * list Event) :
  (forall x locals s, I s ->
     body x locals s
     = (fst (g x locals), replay (snd (g x locals)) s, snd (g x locals))
     /\ I (replay (snd (g x locals)) s)) ->
  forall xs locals s, I s ->
    for_loop xs body locals s
    = (fst (scan g xs locals), replay (snd (scan g xs locals)) s,
       snd (scan g xs locals)).
Proof.
  intros Hbody xs. induction xs as [|x xs IH]; intros locals s Hs.
  - reflexivity.
  - simpl. unfold bind. destruct (Hbody x locals s Hs) as [Hrun HI].
    rewrite Hrun. destruct (g x locals) as [[locals'|e] t]; simpl in *.
    + rewrite (IH locals' _ HI).
      destruct (scan g xs locals') as [r t']; simpl.
      rewrite replay_app. reflexivity.
    + reflexivity.
Qed.

End LoopRuns.

(** ** Running [SelectorBIC] *)

Section BICRuns.
Context {E : Externals}.

Lemma bic_candidate_run (n : Z) (s : Selector) :
  SelectorBIC.candidate n s = (bic_result s n, s, bic_trace s n).
Proof.
  unfold SelectorBIC.candidate, bind. rewrite base_model_run.
  unfold bic_result, bic_trace, method_score, SelectorBIC.calc_score,
    attr, bind, raise, emit, lift, ret.
  destruct (trained s n) as [m|]; simpl.
  - destruct (Model_score m (X s) (lengths s)); simpl;
      [|rewrite ?app_nil_r; reflexivity].
    destruct (np_log (sum (lengths s))); simpl;
      [|rewrite ?app_nil_r; reflexivity].
    destruct (float_of_int _); simpl; rewrite ?app_nil_r; reflexivity.
  - rewrite ?app_nil_r. reflexivity.
Qed.

Lemma bic_trace_stores s n : stores (bic_trace s n) = [].
Proof.
  unfold bic_trace. rewrite stores_app, base_model_stores.
  destruct (trained s n); reflexivity.
Qed.

Lemma bic_trace_fits s n :
  fits (bic_trace s n) = [(n, random_state s, X s, lengths s)].
Proof.
  unfold bic_trace. rewrite fits_app, base_model_fits.
  destruct (trained s n); reflexivity.
Qed.

Lemma scan_bic (s : Selector) (xs : list Z) (acc : list (float * option Model)) :
  scan (fun n acc => (Ok (acc ++ kept (bic_result s n)), bic_trace s n)) xs acc
  = (Ok (acc ++ flat_map (fun n => kept (bic_result s n)) xs),
     flat_map (bic_trace s) xs).
Proof.
  revert acc. induction xs as [|n xs IH]; intros acc; simpl.
  - rewrite app_nil_r. reflexivity.
  - rewrite IH, app_assoc. reflexivity.
Qed.

Lemma flat_map_no_store {A} (f : A -> list Event) (xs : list A) :
  (forall x, stores (f x) = []) -> stores (flat_map f xs) = [].
Proof.
  intros H. induction xs as [|x xs IH]; simpl; auto.
  rewrite stores_app, H, IH. reflexivity.
Qed.

Lemma bic_search_run (s : Selector) :
  SelectorBIC.search s = (Ok (bic_entries s), s, bic_search_trace s).
Proof.
  unfold SelectorBIC.search, bind, attr. simpl.
  erewrite (for_loop_scan (eq s) _
              (fun n acc => (Ok (acc ++ kept (bic_result s n)), bic_trace s n)));
    [ | | reflexivity].
  - rewrite scan_bic. simpl.
    rewrite replay_no_store by (apply flat_map_no_store, bic_trace_stores).
    reflexivity.
  - intros n acc s' <-. simpl.
    rewrite replay_no_store by apply bic_trace_stores.
    split; [|reflexivity].
    unfold SelectorBIC.step, try_except, bind. rewrite bic_candidate_run.
    destruct (bic_result s n) as [e|e]; simpl; rewrite ?app_nil_r; reflexivity.
Qed.

Lemma bic_select_run (s : Selector) :
  SelectorBIC.select s
  = (Ok (bic_pick (bic_entries s)), s, EFilterWarnings :: bic_search_trace s).
Proof.
  unfold SelectorBIC.select, bind, emit. rewrite bic_search_run.
  unfold bic_pick, SelectorBIC.calc_best_score_bic.
  destruct (bic_entries s) as [|e rest]; simpl; rewrite ?app_nil_r; reflexivity.
Qed.

End BICRuns.

(** ** The running best of [SelectorDIC] and [SelectorCV] *)

Section Tracking.
Context {E : Externals}.

Lemma scan_track {A} (better : float -> float -> bool)
    (res : A -> candidate_result) (tr : A -> list Event)
    (xs : list A) (best : float * option Model) :
  scan (fun x best => (track better (res x) best, tr x)) xs best
  = (track_all better (map res xs) best, trace_until res tr xs).
Proof.
  revert best. induction xs as [|x xs IH]; intros best; simpl; auto.
  destruct (res x) as [[score model]|e]; simpl; auto.
  rewrite IH. reflexivity.
Qed.

Lemma trace_until_no_store {A} (res : A -> candidate_result)
    (tr : A -> list Event) (xs : list A) :
  (forall x, stores (tr x) = []) -> stores (trace_until res tr xs) = [].
Proof.
  intros H. induction xs as [|x xs IH]; simpl; auto.
  destruct (res x); auto. rewrite stores_app, H, IH. reflexivity.
Qed.

End Tracking.

(** ** Running [SelectorDIC] *)

Section DICRuns.
Context {E : Externals}.

Lemma dic_other_step_stores s model item scores :
  stores (snd (dic_other_step s model item scores)) = [].
Proof.
  destruct item as [word [X' l']]. unfold dic_other_step.
  destruct (negb _); [destruct model|]; reflexivity.
Qed.

Lemma scan_no_store {A L} (g : A -> L -> result L * list Event) xs locals :
  (forall x l, stores (snd (g x l)) = []) -> stores (snd (scan g xs locals)) = [].
Proof.
  intros H. revert locals. induction xs as [|x xs IH]; intros locals; simpl; auto.
  specialize (H x locals). destruct (g x locals) as [[l'|e] t]; simpl in *; auto.
  specialize (IH l'). destruct (scan g xs l') as [r t']; simpl in *.
  rewrite stores_app, H, IH. reflexivity.
Qed.

Lemma dic_run_stores s n : stores (snd (dic_run s n)) = [].
Proof.
  unfold dic_run.
  pose proof (scan_no_store (dic_other_step s (trained s n)) (hwords s) []
                (dic_other_step_stores s (trained s n))) as H.
  destruct (scan _ _ _) as [[scores|e] t]; cbn [snd] in *.
  - destruct (trained s n); cbn [snd];
      rewrite !stores_app, base_model_stores, H; reflexivity.
  - rewrite stores_app, base_model_stores, H. reflexivity.
Qed.

Lemma dic_score_run (n : Z) (s : Selector) :
  SelectorDIC.dic_score n s = (fst (dic_run s n), s, snd (dic_run s n)).
Proof.
  unfold SelectorDIC.dic_score, bind. rewrite base_model_run.
  unfold attr at 1.
  erewrite (for_loop_scan (eq s) _ (dic_other_step s (trained s n)));
    [ | | reflexivity].
  - unfold dic_run.
    pose proof (scan_no_store (dic_other_step s (trained s n)) (hwords s) []
                  (dic_other_step_stores s (trained s n))) as H.
    destruct (scan _ _ _) as [[scores|e] t]; simpl in *.
    + rewrite replay_no_store by exact H.
      unfold method_score, attr, bind, raise, emit, lift, ret.
      destruct (trained s n) as [m|]; simpl; [|rewrite ?app_nil_r; reflexivity].
      destruct (Model_score m (X s) (lengths s)); simpl;
        [|rewrite ?app_nil_r; reflexivity].
      destruct (np_mean scores); simpl; rewrite ?app_nil_r; reflexivity.
    + rewrite replay_no_store by exact H. reflexivity.
  - intros [word [X' l']] scores s' <-.
    rewrite replay_no_store by apply dic_other_step_stores.
    split; [|reflexivity].
    unfold dic_other_step, method_score, attr, bind, raise, emit, lift, ret.
    destruct (negb _); [|reflexivity].
    destruct (trained s n) as [m|]; [|reflexivity].
    destruct (Model_score m X' l'); reflexivity.
Qed.

Lemma dic_search_run (s : Selector) :
  SelectorDIC.search s
  = (match dic_search_result s with
     | Ok best => Ok (snd best)
     | Raise e => Raise e
     end, s, dic_search_trace s).
Proof.
  unfold SelectorDIC.search, bind, attr. simpl.
  erewrite (for_loop_scan (eq s) _
              (fun n best => (track dic_better (fst (dic_run s n)) best,
                              snd (dic_run s n))));
    [ | | reflexivity].
  - rewrite scan_track. simpl.
    rewrite replay_no_store by (apply trace_until_no_store, dic_run_stores).
    fold (dic_search_result s). fold (dic_search_trace s).
    destruct (dic_search_result s); simpl; rewrite ?app_nil_r; reflexivity.
  - intros n [best_score best_model] s' <-. simpl.
    rewrite replay_no_store by apply dic_run_stores.
    split; [|reflexivity].
    unfold SelectorDIC.step, bind. rewrite dic_score_run.
    destruct (fst (dic_run s n)) as [[score model]|e]; simpl; [|reflexivity].
    unfold dic_better.
    destruct (best_score <? score)%float; simpl; rewrite ?app_nil_r; reflexivity.
Qed.

Lemma dic_select_run (s : Selector) :
  SelectorDIC.select s
  = match dic_search_result s with
    | Ok best => (Ok (snd best), s, EFilterWarnings :: dic_search_trace s)
    | Raise _ =>
        (Ok (trained s (n_constant s)), s,
         EFilterWarnings :: dic_search_trace s
           ++ base_model_trace s (n_constant s))
    end.
Proof.
  unfold SelectorDIC.select, bind, try_except, emit.
  rewrite dic_search_run.
  destruct (dic_search_result s); simpl; [reflexivity|].
  unfold attr. rewrite base_model_run. simpl. reflexivity.
Qed.

End DICRuns.

(** ** Running [SelectorCV] *)

Section CVRuns.
Context {E : Externals}.

Lemma with_data_same_config s s' x l :
  same_config s s' -> with_data s' x l = with_data s x l.
Proof. unfold same_config. intros ->. reflexivity. Qed.

Lemma cv_fold_step_run s n fold locals s' :
  same_config s s' ->
  (let '(train_idx, test_idx) := fold in
   let '(scores, _) := locals in
   seqs <- attr sequences ;;
   train <- lift (combine_sequences train_idx seqs) ;;
   store_X_lengths train ;;
   model <- ModelSelector.base_model n ;;
   seqs <- attr sequences ;;
   '(X', l) <- lift (combine_sequences test_idx seqs) ;;
   sc <- method_score model X' l ;;
   ret (scores ++ [sc], Some model)) s'
  = (fst (cv_fold_step s n fold locals),
     replay (snd (cv_fold_step s n fold locals)) s',
     snd (cv_fold_step s n fold locals)).
Proof.
  intros Hs. destruct fold as [train_idx test_idx], locals as [scores mv].
  assert (Hseq : sequences s' = sequences s) by (rewrite Hs; reflexivity).
  unfold cv_fold_step, bind, attr, lift, store_X_lengths. rewrite Hseq.
  destruct (combine_sequences train_idx (sequences s)) as [[x l]|e]; [|reflexivity].
  cbn [fst snd]. rewrite base_model_run.
  rewrite (with_data_same_config s s' x l Hs).
  assert (Hrep : forall t, stores t = [] ->
            replay ((EStore x l :: base_model_trace (with_data s x l) n) ++ t) s'
            = with_data s x l).
  { intros t Ht. unfold replay. rewrite stores_app. cbn [stores].
    rewrite base_model_stores, Ht. cbn.
    apply with_data_same_config, Hs. }
  pose proof (Hrep [] eq_refl) as Hrep0. rewrite app_nil_r in Hrep0.
  cbn [sequences with_data].
  destruct (combine_sequences test_idx (sequences s)) as [[x' l']|e].
  - unfold method_score, bind, emit, lift, ret, raise.
    destruct (trained (with_data s x l) n) as [m|]; cbn [fst snd].
    + rewrite (Hrep [EScore m x' l']) by reflexivity.
      destruct (Model_score m x' l'); cbn [fst snd app];
        rewrite ?app_nil_r; reflexivity.
    + rewrite Hrep0. cbn [app]. rewrite ?app_nil_r. reflexivity.
  - cbn [fst snd]. rewrite Hrep0. cbn [app]. rewrite ?app_nil_r. reflexivity.
Qed.

Lemma cv_score_run (n : Z) (s s' : Selector) :
  same_config s s' ->
  SelectorCV.cv_score n s'
  = (fst (cv_run s n), replay (snd (cv_run s n)) s', snd (cv_run s n)).
Proof.
  intros Hs.
  assert (Hseq : sequences s' = sequences s) by (rewrite Hs; reflexivity).
  unfold SelectorCV.cv_score, cv_run, bind, attr, lift. rewrite Hseq.
  destruct (KFold_split 2 (length (sequences s))) as [folds|e]; [|reflexivity].
  cbn [fst snd].
  erewrite (for_loop_scan (same_config s) _ (cv_fold_step s n));
    [ | | exact Hs].
  - destruct (scan (cv_fold_step s n) folds ([], None)) as [[[scores mv]|e] t];
      cbn [fst snd]; [|reflexivity].
    unfold raise, ret.
    destruct (np_mean scores); cbn [fst snd]; [|rewrite ?app_nil_r; reflexivity].
    destruct mv; cbn [fst snd]; rewrite ?app_nil_r; reflexivity.
  - intros fold locals s2 Hs2. split.
    + apply (cv_fold_step_run s n fold locals s2 Hs2).
    + apply same_config_replay, Hs2.
Qed.

Lemma cv_search_run (s : Selector) :
  SelectorCV.search s
  = (match cv_search_result s with
     | Ok best => Ok (snd best)
     | Raise e => Raise e
     end, replay (cv_search_trace s) s, cv_search_trace s).
Proof.
  unfold SelectorCV.search, bind, attr. cbn [fst snd].
  erewrite (for_loop_scan (same_config s) _
              (fun n best => (track cv_better (fst (cv_run s n)) best,
                              snd (cv_run s n))));
    [ | | apply same_config_refl].
  - rewrite scan_track. cbn [fst snd].
    fold (cv_search_result s). fold (cv_search_trace s).
    destruct (cv_search_result s); cbn; rewrite ?app_nil_r; reflexivity.
  - intros n [best_score best_model] s' Hs'. cbn [fst snd]. split.
    + unfold SelectorCV.step, bind. rewrite (cv_score_run n s s' Hs').
      destruct (fst (cv_run s n)) as [[score model]|e]; cbn [track fst snd];
        [|reflexivity].
      unfold cv_better.
      destruct (score <? best_score)%float; cbn; rewrite ?app_nil_r; reflexivity.
    + apply same_config_replay, Hs'.
Qed.

Lemma cv_select_run (s : Selector) :
  SelectorCV.select s
  = match cv_search_result s with
    | Ok best =>
        (Ok (snd best), replay (cv_search_trace s) s,
         EFilterWarnings :: cv_search_trace s)
    | Raise _ =>
        let s' := replay (cv_search_trace s) s in
        (Ok (trained s' (n_constant s)), s',
         EFilterWarnings :: cv_search_trace s
           ++ base_model_trace s' (n_constant s))
    end.
Proof.
  unfold SelectorCV.select, bind, try_except, emit.
  rewrite cv_search_run.
  destruct (cv_search_result s); cbn [fst snd]; [reflexivity|].
  unfold attr. rewrite base_model_run.
  assert (H : n_constant (replay (cv_search_trace s) s) = n_constant s).
  { pose proof (same_config_replay (cv_search_trace s) s s (same_config_refl s)) as C.
    rewrite C. reflexivity. }
  rewrite H. reflexivity.
Qed.

End CVRuns.

(** ** Keeping the best of a list

    The three searches keep an incumbent and replace it by a candidate that
    is strictly [better].  What follows holds of any strict comparison that
    respects numerical equality of floats, NaN included. *)

Section Keeping.
Context {E : Externals}.
Variable better : float -> float -> bool.
Hypothesis better_irrefl : forall x, better x x = false.
Hypothesis better_trans :
  forall x y z, better x y = true -> better y z = true -> better x z = true.
Hypothesis better_eq_l :
  forall x y z, (x =? y)%float = true -> better y z = true -> better x z = true.
Hypothesis better_eq_no :
  forall x y, (x =? y)%float = true -> better y x = false.

Lemma track_all_Ok vs best :
  track_all better (map Ok vs) best = Ok (keep better vs best).
Proof.
  revert best.
  induction vs as [|[score model] vs IH]; intros best; [reflexivity | apply IH].
Qed.

Lemma track_all_Raise rs best :
  Exists (fun r => is_Ok r = false) rs ->
  exists e, track_all better rs best = Raise e.
Proof.
  intros H. revert best. induction H as [r rs Hr|r rs _ IH]; intros best; simpl.
  - destruct r as [v|e]; [discriminate|]. exists e. reflexivity.
  - destruct r as [[score model]|e]; simpl; [apply IH|].
    exists e. reflexivity.
Qed.

Lemma track_all_Ok_inv rs best out :
  track_all better rs best = Ok out -> exists vs, rs = map Ok vs.
Proof.
  revert best. induction rs as [|r rs IH]; intros best H.
  - exists []. reflexivity.
  - simpl in H. destruct r as [[score model]|e]; simpl in H; [|discriminate].
    destruct (IH _ H) as [vs ->]. exists ((score, model) :: vs). reflexivity.
Qed.

(** The kept pair is the incumbent, or it is the first item of the list with
    its score and strictly better than the incumbent. *)
Lemma keep_first vs best :
  keep better vs best = best \/
  exists pre post,
    vs = pre ++ keep better vs best :: post
    /\ (forall u, In u pre -> (fst u =? fst (keep better vs best))%float = false)
    /\ better (fst (keep better vs best)) (fst best) = true.
Proof.
  revert best. induction vs as [|v vs IH]; intros best; [left; reflexivity|].
  change (keep better (v :: vs) best) with (keep better vs (keep_step better best v)).
  specialize (IH (keep_step better best v)). unfold keep_step in *.
  destruct (better (fst v) (fst best)) eqn:Hb.
  - right. destruct IH as [IH | (pre & post & Hvs & Hpre & Hbet)].
    + exists [], vs. rewrite IH. repeat split; auto. intros u [].
    + exists (v :: pre), post. repeat split.
      * simpl. f_equal. exact Hvs.
      * intros u [<- | Hu]; [|apply Hpre, Hu].
        destruct (fst v =? fst (keep better vs v))%float eqn:Heq; auto.
        rewrite (better_eq_no _ _ Heq) in Hbet. discriminate.
      * eapply better_trans; eauto.
  - destruct IH as [IH | (pre & post & Hvs & Hpre & Hbet)]; [left; exact IH|].
    right. exists (v :: pre), post. repeat split; auto.
    + simpl. f_equal. exact Hvs.
    + intros u [<- | Hu]; [|apply Hpre, Hu].
      destruct (fst v =? fst (keep better vs best))%float eqn:Heq; auto.
      rewrite (better_eq_l _ _ _ Heq Hbet) in Hb. discriminate.
Qed.

Lemma keep_origin vs best :
  keep better vs best = best \/
  (In (keep better vs best) vs /\ better (fst (keep better vs best)) (fst best) = true).
Proof.
  destruct (keep_first vs best) as [H | (pre & post & Hvs & _ & Hbet)]; auto.
  right. split; auto. rewrite Hvs at 2. apply in_elt.
Qed.

(** No item of the list is strictly better than the kept pair. *)
Lemma keep_optimal vs best :
  forall v, In v vs -> better (fst v) (fst (keep better vs best)) = false.
Proof.
  revert best. induction vs as [|v0 vs IH]; intros best v Hv; [destruct Hv|].
  change (keep better (v0 :: vs) best) with (keep better vs (keep_step better best v0)).
  destruct Hv as [<- | Hv]; [|apply IH, Hv].
  destruct (better (fst v0) (fst (keep better vs (keep_step better best v0)))) eqn:Hc; auto.
  exfalso.
  destruct (keep_origin vs (keep_step better best v0)) as [H | [_ H]];
    unfold keep_step in *; destruct (better (fst v0) (fst best)) eqn:Hb.
  - rewrite H, better_irrefl in Hc. discriminate.
  - rewrite H in Hc. congruence.
  - pose proof (better_trans _ _ _ Hc H) as C.
    rewrite better_irrefl in C. discriminate.
  - pose proof (better_trans _ _ _ Hc H) as C. congruence.
Qed.

(** Nor is the incumbent. *)
Lemma keep_incumbent vs best :
  better (fst best) (fst (keep better vs best)) = false.
Proof.
  destruct (keep_origin vs best) as [H | [_ H]].
  - rewrite H. apply better_irrefl.
  - destruct (better (fst best) (fst (keep better vs best))) eqn:Hc; auto.
    pose proof (better_trans _ _ _ Hc H) as C.
    rewrite better_irrefl in C. discriminate.
Qed.

(** The incumbent survives when no item is better than it. *)
Lemma keep_none_better vs best :
  (forall v, In v vs -> better (fst v) (fst best) = false) ->
  keep better vs best = best.
Proof.
  revert best. induction vs as [|v vs IH]; intros best H; auto.
  change (keep better (v :: vs) best) with (keep better vs (keep_step better best v)).
  unfold keep_step. rewrite (H v (or_introl eq_refl)).
  apply IH. intros u Hu. apply H. right. exact Hu.
Qed.

End Keeping.

Section Comparisons.
Context {E : Externals}.

Lemma cv_better_irrefl x : cv_better x x = false.
Proof. apply FloatOrder.ltb_irrefl. Qed.

Lemma cv_better_trans x y z :
  cv_better x y = true -> cv_better y z = true -> cv_better x z = true.
Proof. apply FloatOrder.ltb_trans. Qed.

Lemma cv_better_eq_l x y z :
  (x =? y)%float = true -> cv_better y z = true -> cv_better x z = true.
Proof. apply FloatOrder.eqb_ltb_trans. Qed.

Lemma cv_better_eq_no x y : (x =? y)%float = true -> cv_better y x = false.
Proof. apply FloatOrder.eqb_not_gtb. Qed.

Lemma dic_better_irrefl x : dic_better x x = false.
Proof. apply FloatOrder.ltb_irrefl. Qed.

Lemma dic_better_trans x y z :
  dic_better x y = true -> dic_better y z = true -> dic_better x z = true.
Proof. unfold dic_better. intros H1 H2. eapply FloatOrder.ltb_trans; eauto. Qed.

Lemma dic_better_eq_l x y z :
  (x =? y)%float = true -> dic_better y z = true -> dic_better x z = true.
Proof. unfold dic_better. intros H1 H2. eapply FloatOrder.ltb_eqb_trans; eauto. Qed.

Lemma dic_better_eq_no x y : (x =? y)%float = true -> dic_better y x = false.
Proof. apply FloatOrder.eqb_not_ltb. Qed.

(** [min(..., key=lambda x: x[0])] keeps the best under [<]. *)
Lemma min_from_keep (best : float * option Model) rest :
  min_from fst best rest = keep cv_better rest best.
Proof.
  revert best. induction rest as [|x rest IH]; intros best; simpl; auto.
Qed.

End Comparisons.

(** ** The state counts a search visits *)

Section Ranges.

Lemma range_In (start stop n : Z) :
  In n (range start stop) <-> start <= n < stop.
Proof.
  unfold range. rewrite in_map_iff. split.
  - intros (i & <- & Hi). apply in_seq in Hi. lia.
  - intros H. exists (Z.to_nat (n - start)). split; [lia|].
    apply in_seq. lia.
Qed.

Lemma range_closed (lo hi n : Z) :
  In n (range lo (hi + 1)) <-> lo <= n <= hi.
Proof. rewrite range_In. lia. Qed.

Lemma range_NoDup (start stop : Z) : NoDup (range start stop).
Proof.
  unfold range. apply NoDup_map_NoDup_ForallPairs.
  - intros i j _ _ H. lia.
  - apply seq_NoDup.
Qed.

Lemma range_nonempty (lo hi : Z) : lo <= hi -> range lo (hi + 1) <> [].
Proof.
  intros H C. assert (In lo (range lo (hi + 1))) by (apply range_closed; lia).
  rewrite C in *. contradiction.
Qed.

Lemma range_cons (lo stop : Z) :
  lo < stop -> range lo stop = lo :: range (lo + 1) stop.
Proof.
  intros H. unfold range.
  replace (Z.to_nat (stop - lo)) with (S (Z.to_nat (stop - (lo + 1)))) by lia.
  cbn [seq map]. f_equal; [lia|].
  rewrite <- seq_shift, map_map. apply map_ext. intros i. lia.
Qed.

(** An earlier item of a range is a smaller number. *)
Lemma range_split_lt (start stop : Z) pre n post :
  range start stop = pre ++ n :: post -> forall k, In k pre -> k < n.
Proof.
  unfold range.
  generalize (Z.to_nat (stop - start)) as len. intros len.
  generalize 0%nat as from.
  revert len. induction pre as [|p pre IH]; intros len from H k Hk; [destruct Hk|].
  destruct len as [|len]; [discriminate|].
  simpl in H. injection H as Hp Hrest.
  destruct Hk as [<- | Hk].
  - assert (Hn : In n (map (fun i => start + Z.of_nat i) (seq (S from) len))).
    { rewrite Hrest. apply in_elt. }
    apply in_map_iff in Hn. destruct Hn as (i & <- & Hi). apply in_seq in Hi. lia.
  - eapply IH; eauto.
Qed.

End Ranges.

(** ** A scored candidate is one whose iteration returns *)

Section Scored.
Context {E : Externals}.

Lemma trained_Some s n m :
  trained s n = Some m
  <-> GaussianHMM_fit n (random_state s) (X s) (lengths s) = Ok m.
Proof.
  unfold trained.
  destruct (GaussianHMM_fit n (random_state s) (X s) (lengths s));
    split; congruence.
Qed.

Lemma trained_None s n :
  trained s n = None
  <-> exists e, GaussianHMM_fit n (random_state s) (X s) (lengths s) = Raise e.
Proof.
  unfold trained.
  destruct (GaussianHMM_fit n (random_state s) (X s) (lengths s)) as [m|e]; split.
  - discriminate.
  - intros [e H]. discriminate.
  - eauto.
  - reflexivity.
Qed.

Lemma bic_result_scored s n sc om :
  bic_result s n = Ok (sc, om) <-> exists m, om = Some m /\ bic_scored s n sc m.
Proof.
  unfold bic_result, bic_scored. split.
  - destruct (trained s n) as [m|] eqn:Ht; [|discriminate].
    apply trained_Some in Ht.
    destruct (Model_score m (X s) (lengths s)) as [ll|] eqn:Hs; [|discriminate].
    destruct (np_log (sum (lengths s))) as [ln|] eqn:Hl; [|discriminate].
    destruct (float_of_int _) as [p|] eqn:Hp; [|discriminate].
    intros H. injection H as <- <-. exists m. split; auto. split; auto.
    exists ll, ln, p. auto.
  - intros (m & -> & Hfit & ll & ln & p & Hs & Hl & Hp & ->).
    apply trained_Some in Hfit. rewrite Hfit, Hs, Hl, Hp. reflexivity.
Qed.

End Scored.

Section ScoredRuns.
Context {E : Externals}.

Lemma scan_others s m hw acc :
  fst (scan (dic_other_step s (Some m)) hw acc)
  = match
      fold_right
        (fun item rest =>
           match Model_score m (fst (snd item)) (snd (snd item)), rest with
           | Ok sc, Ok scs => Ok (sc :: scs)
           | Raise e, _ => Raise e
           | Ok _, Raise e => Raise e
           end)
        (Ok [])
        (filter (fun item => negb (String.eqb (fst item) (this_word s))) hw)
    with
    | Ok scs => Ok (acc ++ scs)
    | Raise e => Raise e
    end.
Proof.
  revert acc. induction hw as [|[word [x l]] hw IH]; intros acc.
  - simpl. rewrite app_nil_r. reflexivity.
  - cbn [scan dic_other_step filter fst snd].
    destruct (negb (String.eqb word (this_word s))).
    + cbn [fold_right fst snd].
      destruct (Model_score m x l) as [sc|e]; [|reflexivity].
      specialize (IH (acc ++ [sc])).
      destruct (scan _ hw (acc ++ [sc])) as [r t]. cbn [fst] in *. rewrite IH.
      destruct (fold_right _ _ _); [rewrite <- app_assoc|]; reflexivity.
    + specialize (IH acc). destruct (scan _ hw acc) as [r t].
      cbn [fst] in *. exact IH.
Qed.

Lemma all_scored_iff {A} (f : A -> result float) (items : list A) scs :
  fold_right
    (fun item rest =>
       match f item, rest with
       | Ok sc, Ok scs => Ok (sc :: scs)
       | Raise e, _ => Raise e
       | Ok _, Raise e => Raise e
       end)
    (Ok []) items = Ok scs
  <-> map f items = map Ok scs.
Proof.
  revert scs. induction items as [|item items IH]; intros scs; simpl.
  - split.
    + intros H. injection H as <-. reflexivity.
    + destruct scs; [reflexivity | discriminate].
  - destruct (f item) as [sc|e].
    + destruct (fold_right _ _ items) as [scs'|e'].
      * split.
        -- intros H. injection H as <-. simpl. f_equal. apply IH. reflexivity.
        -- destruct scs as [|sc0 scs0]; [discriminate|]. simpl.
           intros H. injection H as -> H. apply IH in H. congruence.
      * split; [discriminate|].
        destruct scs as [|sc0 scs0]; [discriminate|]. simpl.
        intros H. injection H as -> H. apply IH in H. discriminate.
    + split; [discriminate|].
      destruct scs; simpl; discriminate.
Qed.

Lemma dic_run_scored s n d om :
  fst (dic_run s n) = Ok (d, om) <-> exists m, om = Some m /\ dic_scored s n d m.
Proof.
  unfold dic_run, dic_scored, other_words.
  destruct (trained s n) as [m|] eqn:Ht.
  - apply trained_Some in Ht. pose proof (scan_others s m (hwords s) []) as Hsc.
    destruct (scan (dic_other_step s (Some m)) (hwords s) []) as [[scores|e] t];
      cbn [fst snd] in *.
    + destruct (fold_right _ _ _) as [scs|] eqn:Hf; [|discriminate].
      apply all_scored_iff in Hf. injection Hsc as ->. cbn [app].
      split.
      * destruct (Model_score m (X s) (lengths s)) as [own|] eqn:Hown; [|discriminate].
        destruct (np_mean scs) as [mean|] eqn:Hmean; [|discriminate].
        intros H. injection H as <- <-. exists m. split; auto. split; auto.
        exists own, scs, mean. auto.
      * intros (m' & -> & Hfit & own & others & mean & Hown & Hoth & Hmean & ->).
        assert (m' = m) as -> by congruence.
        assert (others = scs) as ->.
        { rewrite Hf in Hoth. clear -Hoth. revert others Hoth.
          induction scs as [|a scs IH]; intros [|b others] H; try discriminate; auto.
          simpl in H. injection H as -> H. f_equal. auto. }
        rewrite Hown, Hmean. reflexivity.
    + split; [discriminate|].
      intros (m' & -> & Hfit & own & others & mean & Hown & Hoth & Hmean & ->).
      assert (m' = m) as -> by congruence.
      apply all_scored_iff in Hoth. rewrite Hoth in Hsc. discriminate.
  - split.
    + destruct (scan _ _ _) as [[scores|e] t]; discriminate.
    + intros (m & _ & Hfit & _). apply trained_Some in Hfit. congruence.
Qed.

Lemma trained_with_data s x l n :
  trained (with_data s x l) n
  = match GaussianHMM_fit n (random_state s) x l with
    | Ok m => Some m
    | Raise _ => None
    end.
Proof. reflexivity. Qed.

Lemma cv_fold_step_scored s n fold locals locals' :
  fst (cv_fold_step s n fold locals) = Ok locals'
  <-> exists m sc,
        cv_fold_scored s n fold m sc
        /\ locals' = (fst locals ++ [sc], Some (Some m)).
Proof.
  destruct fold as [tr te]. unfold cv_fold_step, cv_fold_scored. cbn [fst snd].
  destruct (combine_sequences tr (sequences s)) as [[x l]|e] eqn:Htr.
  - destruct (combine_sequences te (sequences s)) as [[x' l']|e] eqn:Hte.
    + rewrite trained_with_data.
      destruct (GaussianHMM_fit n (random_state s) x l) as [m|e] eqn:Hfit.
      * cbn [fst]. destruct (Model_score m x' l') as [sc|e] eqn:Hsc.
        -- split.
           ++ intros H. injection H as <-. exists m, sc. split; auto.
              exists x, l, x', l'. auto.
           ++ intros (m' & sc' & (x0 & l0 & x1 & l1 & H1 & H2 & H3 & H4) & ->).
              injection H1 as <- <-. injection H3 as <- <-.
              assert (m' = m) as -> by congruence.
              assert (sc' = sc) as -> by congruence. reflexivity.
        -- split; [discriminate|].
           intros (m' & sc' & (x0 & l0 & x1 & l1 & H1 & H2 & H3 & H4) & ->).
           injection H1 as <- <-. injection H3 as <- <-.
           assert (m' = m) as -> by congruence. congruence.
      * split; [discriminate|].
        intros (m' & sc' & (x0 & l0 & x1 & l1 & H1 & H2 & H3 & H4) & ->).
        injection H1 as <- <-. congruence.
    + split; [discriminate|].
      intros (m' & sc' & (x0 & l0 & x1 & l1 & H1 & H2 & H3 & H4) & ->).
      congruence.
  - split; [discriminate|].
    intros (m' & sc' & (x0 & l0 & x1 & l1 & H1 & H2 & H3 & H4) & ->).
    congruence.
Qed.

Lemma two_folds (s : Selector) folds :
  KFold_split 2 (length (sequences s)) = Ok folds ->
  exists fold1 fold2, folds = [fold1; fold2].
Proof.
  intros H. apply KFold_n_splits in H.
  destruct folds as [|f1 [|f2 [|f3 folds]]]; try discriminate. eauto.
Qed.

Lemma cv_fold_scored_fun s n fold m sc m' sc' :
  cv_fold_scored s n fold m sc -> cv_fold_scored s n fold m' sc' ->
  m = m' /\ sc = sc'.
Proof.
  intros (x & l & x' & l' & H1 & H2 & H3 & H4)
         (y & k & y' & k' & G1 & G2 & G3 & G4).
  rewrite H1 in G1. injection G1 as <- <-.
  rewrite H3 in G3. injection G3 as <- <-.
  rewrite H2 in G2. injection G2 as <-.
  rewrite H4 in G4. injection G4 as <-. auto.
Qed.

Lemma cv_run_scored s n avg om :
  fst (cv_run s n) = Ok (avg, om) <-> exists m, om = Some m /\ cv_scored s n avg m.
Proof.
  unfold cv_run, cv_scored.
  destruct (KFold_split 2 (length (sequences s))) as [folds|e] eqn:Hk.
  - destruct (two_folds s folds Hk) as (f1 & f2 & ->).
    cbn [scan].
    pose proof (cv_fold_step_scored s n f1 ([], None)) as H1.
    destruct (cv_fold_step s n f1 ([], None)) as [[loc1|e1] t1]; cbn [fst] in H1.
    + destruct (proj1 (H1 loc1) eq_refl) as (m1 & sc1 & Hs1 & ->).
      pose proof (cv_fold_step_scored s n f2 ([] ++ [sc1], Some (Some m1))) as H2.
      destruct (cv_fold_step s n f2 _) as [[loc2|e2] t2]; cbn [fst] in H2.
      * destruct (proj1 (H2 loc2) eq_refl) as (m2 & sc2 & Hs2 & ->).
        cbn [fst snd app].
        split.
        -- destruct (np_mean [sc1; sc2]) as [mean|] eqn:Hm; [|discriminate].
           intros H. injection H as <- <-. exists m2. split; auto.
           exists f1, f2, m1, sc1, sc2. auto.
        -- intros (m & -> & g1 & g2 & m1' & sc1' & sc2' & Hk' & Hg1 & Hg2 & Hm).
           injection Hk' as <- <-.
           destruct (cv_fold_scored_fun _ _ _ _ _ _ _ Hs1 Hg1) as [<- <-].
           destruct (cv_fold_scored_fun _ _ _ _ _ _ _ Hs2 Hg2) as [<- <-].
           rewrite Hm. reflexivity.
      * cbn [fst snd]. split; [discriminate|].
        intros (m & -> & g1 & g2 & m1' & sc1' & sc2' & Hk' & Hg1 & Hg2 & Hm).
        injection Hk' as <- <-.
        destruct (cv_fold_scored_fun _ _ _ _ _ _ _ Hs1 Hg1) as [<- <-].
        assert (C : Raise e2 = Ok (([] ++ [sc1]) ++ [sc2'], Some (Some m))).
        { apply (proj2 (H2 _)). eauto. }
        discriminate.
    + cbn [fst snd]. split; [discriminate|].
      intros (m & -> & g1 & g2 & m1' & sc1' & sc2' & Hk' & Hg1 & Hg2 & Hm).
      injection Hk' as <- <-.
      assert (C : Raise e1 = Ok (([] : list float) ++ [sc1'], Some (Some m1'))).
      { apply (proj2 (H1 _)). eauto. }
      discriminate.
  - cbn [fst]. split; [discriminate|].
    intros (m & -> & g1 & g2 & m1' & sc1' & sc2' & Hk' & _). discriminate.
Qed.

End ScoredRuns.

(** ** The best candidate of a range *)

Section RangeOrder.

Lemma range_split_gt (start stop : Z) pre n post :
  range start stop = pre ++ n :: post -> forall k, In k post -> n < k.
Proof.
  unfold range.
  generalize (Z.to_nat (stop - start)) as len. intros len.
  generalize 0%nat as from.
  revert len. induction pre as [|p pre IH]; intros len from H k Hk.
  - destruct len as [|len]; [discriminate|].
    simpl in H. injection H as <- <-.
    apply in_map_iff in Hk. destruct Hk as (i & <- & Hi).
    apply in_seq in Hi. lia.
  - destruct len as [|len]; [discriminate|].
    simpl in H. injection H as _ Hrest. eapply IH; eauto.
Qed.

Lemma flat_map_kept_split {A B} (f : A -> result B) (xs : list A) pre e post :
  flat_map (fun x => kept (f x)) xs = pre ++ e :: post ->
  exists xs1 x xs2,
    xs = xs1 ++ x :: xs2 /\ f x = Ok e
    /\ pre = flat_map (fun x => kept (f x)) xs1.
Proof.
  revert pre. induction xs as [|a xs IH]; intros pre H.
  - destruct pre; discriminate.
  - simpl in H. destruct (f a) as [b|err] eqn:Hfa; simpl in H.
    + destruct pre as [|b' pre'].
      * simpl in H. injection H as <- _.
        exists [], a, xs. auto.
      * simpl in H. injection H as <- H.
        destruct (IH pre' H) as (xs1 & x & xs2 & -> & Hx & ->).
        exists (a :: xs1), x, xs2. simpl. rewrite Hfa. auto.
    + destruct (IH pre H) as (xs1 & x & xs2 & -> & Hx & ->).
      exists (a :: xs1), x, xs2. simpl. rewrite Hfa. auto.
Qed.

Lemma in_flat_map_kept {A B} (f : A -> result B) (xs : list A) e :
  In e (flat_map (fun x => kept (f x)) xs) <-> exists x, In x xs /\ f x = Ok e.
Proof.
  rewrite in_flat_map. split; intros (x & Hx & H); exists x; split; auto.
  - destruct (f x); simpl in H; [destruct H as [<-|[]]; reflexivity | destruct H].
  - rewrite H. left. reflexivity.
Qed.

Lemma map_all_kept {A B} (f : A -> result B) (xs : list A) :
  (forall x, In x xs -> exists v, f x = Ok v) ->
  map f xs = map Ok (flat_map (fun x => kept (f x)) xs).
Proof.
  induction xs as [|a xs IH]; intros H; simpl; auto.
  destruct (H a (or_introl eq_refl)) as [v Hv]. rewrite Hv. simpl.
  f_equal. apply IH. intros x Hx. apply H. right. exact Hx.
Qed.

End RangeOrder.

Section BestOfRange.
Context {E : Externals}.
Variable better : float -> float -> bool.
Hypothesis better_irrefl : forall x, better x x = false.
Hypothesis better_trans :
  forall x y z, better x y = true -> better y z = true -> better x z = true.
Hypothesis better_eq_l :
  forall x y z, (x =? y)%float = true -> better y z = true -> better x z = true.
Hypothesis better_eq_no :
  forall x y, (x =? y)%float = true -> better y x = false.

Variable res : Z -> candidate_result.
Variables lo hi : Z.

(** No candidate of the range that has a value is better than the kept one. *)
Lemma best_of_range_optimal incumbent n v :
  lo <= n <= hi -> res n = Ok v ->
  better (fst v) (fst (keep better (values res lo hi) incumbent)) = false.
Proof.
  intros Hn Hv. apply keep_optimal; auto.
  apply in_flat_map_kept. exists n. split; auto. apply range_closed, Hn.
Qed.

(** A value before which no value has its score is the value of a state
    count below which no state count has a value with that score. *)
Lemma values_split_first pre out post :
  (values res lo hi) = pre ++ out :: post ->
  (forall u, In u pre -> (fst u =? fst out)%float = false) ->
  exists n,
    lo <= n <= hi
    /\ res n = Ok out
    /\ forall n' v', lo <= n' < n -> res n' = Ok v' ->
         (fst v' =? fst out)%float = false.
Proof.
  intros Hvs Hpre. unfold values in Hvs.
  destruct (flat_map_kept_split _ _ _ _ _ Hvs) as (xs1 & n & xs2 & Hxs & Hn & Hp).
  assert (Hnr : lo <= n <= hi).
  { apply range_closed. rewrite Hxs. apply in_elt. }
  exists n. split; [|split]; auto.
  intros n' v' Hn' Hv'. apply Hpre. rewrite Hp.
  apply in_flat_map_kept. exists n'. split; auto.
  assert (Hin : In n' (range lo (hi + 1))) by (apply range_closed; lia).
  rewrite Hxs in Hin. apply in_app_or in Hin.
  destruct Hin as [Hin | [-> | Hin]]; auto; [lia|].
  pose proof (range_split_gt _ _ _ _ _ Hxs _ Hin). lia.
Qed.

(** The kept pair is the incumbent, or the value of the smallest state count
    among those whose score equals it. *)
Lemma best_of_range_first incumbent :
  keep better (values res lo hi) incumbent = incumbent \/
  exists n,
    lo <= n <= hi
    /\ res n = Ok (keep better (values res lo hi) incumbent)
    /\ better (fst (keep better (values res lo hi) incumbent)) (fst incumbent) = true
    /\ forall n' v', lo <= n' < n -> res n' = Ok v' ->
         (fst v' =? fst (keep better (values res lo hi) incumbent))%float = false.
Proof.
  destruct (keep_first better better_trans better_eq_l better_eq_no
              (values res lo hi) incumbent)
    as [H | (pre & post & Hvs & Hpre & Hbet)]; [left; exact H|].
  right. destruct (values_split_first _ _ _ Hvs Hpre) as (n & Hn & Hr & Hf).
  exists n. auto.
Qed.

(** The same when the first value is the incumbent, as in [min]. *)
Lemma best_of_entries e rest :
  (values res lo hi) = e :: rest ->
  exists n,
    lo <= n <= hi
    /\ res n = Ok (keep better rest e)
    /\ (forall n' v', lo <= n' <= hi -> res n' = Ok v' ->
          better (fst v') (fst (keep better rest e)) = false)
    /\ (forall n' v', lo <= n' < n -> res n' = Ok v' ->
          (fst v' =? fst (keep better rest e))%float = false).
Proof.
  intros Hvs.
  assert (Hk : keep better rest e = keep better (values res lo hi) e).
  { rewrite Hvs. unfold keep at 2. simpl. unfold keep_step at 2.
    rewrite better_irrefl. reflexivity. }
  assert (Hsplit : exists pre post,
             (values res lo hi) = pre ++ keep better rest e :: post
             /\ forall u, In u pre -> (fst u =? fst (keep better rest e))%float = false).
  { destruct (keep_first better better_trans better_eq_l better_eq_no rest e)
      as [H | (pre & post & Hr & Hpre & Hbet)].
    - exists [], rest. rewrite H, Hvs. split; auto. intros u [].
    - exists (e :: pre), post. rewrite Hvs. split.
      + simpl. f_equal. exact Hr.
      + intros u [<- | Hu]; [|apply Hpre, Hu].
        destruct (fst e =? fst (keep better rest e))%float eqn:Heq; auto.
        rewrite (better_eq_no _ _ Heq) in Hbet. discriminate. }
  destruct Hsplit as (pre & post & Hsp & Hpre).
  destruct (values_split_first _ _ _ Hsp Hpre) as (n & Hn & Hr & Hf).
  exists n. split; [|split; [|split]]; auto.
  intros n' v' Hn' Hv'. rewrite Hk.
  apply (best_of_range_optimal e n' v' Hn' Hv').
Qed.

End BestOfRange.

Section BICSearch.
Context {E : Externals}.

Lemma bic_search_fits s xs :
  fits (flat_map (bic_trace s) xs)
  = map (fun n => (n, random_state s, X s, lengths s)) xs.
Proof.
  induction xs as [|n xs IH]; [reflexivity|]. cbn [flat_map map].
  rewrite fits_app, bic_trace_fits, IH. reflexivity.
Qed.

(** What [SelectorBIC.select()] does, in one statement: it returns, leaves
    the instance alone, trains each state count of the range once, and
    returns the model of the smallest state count among those of minimal
    score, or [None] when no candidate was scored. *)
Lemma bic_select_outcome (s : Selector) :
  let lo := min_n_components s in
  let hi := max_n_components s in
  exists best t,
    SelectorBIC.select s = (Ok best, s, t)
    /\ fits t = map (fun n => (n, random_state s, X s, lengths s))
                  (range lo (hi + 1))
    /\ (best = None <-> forall n sc m, lo <= n <= hi -> ~ bic_scored s n sc m)
    /\ forall m, best = Some m ->
         exists n sc,
           lo <= n <= hi
           /\ bic_scored s n sc m
           /\ (forall n' sc' m', lo <= n' <= hi -> bic_scored s n' sc' m' ->
                 (sc' <? sc)%float = false)
           /\ (forall n' sc' m', lo <= n' < n -> bic_scored s n' sc' m' ->
                 (sc' =? sc)%float = false).
Proof.
  intros lo hi. rewrite bic_select_run.
  exists (bic_pick (bic_entries s)), (EFilterWarnings :: bic_search_trace s).
  split; [reflexivity|]. split; [apply bic_search_fits|].
  destruct (bic_entries s) as [|e rest] eqn:He.
  - split; [|discriminate]. split; [|reflexivity].
    intros _ n sc m Hn Hsc.
    assert (Hin : In (sc, Some m) (bic_entries s)).
    { apply in_flat_map_kept. exists n. split; [apply range_closed, Hn|].
      apply bic_result_scored. eauto. }
    rewrite He in Hin. destruct Hin.
  - destruct (best_of_entries cv_better cv_better_irrefl cv_better_trans
                cv_better_eq_l cv_better_eq_no (bic_result s) lo hi e rest He)
      as (n & Hn & Hres & Hopt & Hfirst).
    unfold bic_pick. rewrite min_from_keep.
    destruct (keep cv_better rest e) as [sc om] eqn:Hk. cbn [fst snd] in *.
    apply bic_result_scored in Hres. destruct Hres as (m & -> & Hsc).
    split.
    + split; [discriminate|]. intros H. exfalso. apply (H n sc m Hn Hsc).
    + intros m' Hm'. injection Hm' as <-. exists n, sc.
      split; [exact Hn|]. split; [exact Hsc|]. split.
      * intros n' sc' m' Hn' Hsc'.
        apply (Hopt n' (sc', Some m') Hn').
        apply bic_result_scored. eauto.
      * intros n' sc' m' Hn' Hsc'.
        apply (Hfirst n' (sc', Some m') Hn').
        apply bic_result_scored. eauto.
Qed.

End BICSearch.

(** ** A search that starts from a sentinel score

    [SelectorDIC] starts from [(-inf, None)] and [SelectorCV] from
    [(+inf, None)]. *)

Section SentinelSearch.
Context {E : Externals}.
Variable better : float -> float -> bool.
Hypothesis better_irrefl : forall x, better x x = false.
Hypothesis better_trans :
  forall x y z, better x y = true -> better y z = true -> better x z = true.
Hypothesis better_eq_l :
  forall x y z, (x =? y)%float = true -> better y z = true -> better x z = true.
Hypothesis better_eq_no :
  forall x y, (x =? y)%float = true -> better y x = false.

Variable res : Z -> candidate_result.
Variables lo hi : Z.
Variable sentinel : float.
Hypothesis res_model :
  forall n score model, res n = Ok (score, model) -> model <> None.

Lemma sentinel_kept_iff :
  snd (keep better (values res lo hi) (sentinel, None)) = None
  <-> forall n v, lo <= n <= hi -> res n = Ok v -> better (fst v) sentinel = false.
Proof.
  split.
  - intros Hnone n v Hn Hv.
    destruct (best_of_range_first better better_trans better_eq_l better_eq_no
                res lo hi (sentinel, None)) as [H | (k & _ & Hk & _)].
    + pose proof (best_of_range_optimal better better_irrefl better_trans
                    better_eq_l better_eq_no res lo hi (sentinel, None)
                    n v Hn Hv) as Ho.
      rewrite H in Ho. exact Ho.
    + destruct (keep better (values res lo hi) (sentinel, None)) as [sc om].
      cbn [snd] in Hnone. subst om. apply res_model in Hk. contradiction.
  - intros H. rewrite keep_none_better; [reflexivity|].
    intros v Hv. apply in_flat_map_kept in Hv. destruct Hv as (n & Hn & Hv).
    apply range_closed in Hn. apply (H n v Hn Hv).
Qed.

Lemma sentinel_replaced m :
  snd (keep better (values res lo hi) (sentinel, None)) = Some m ->
  exists n,
    lo <= n <= hi
    /\ res n = Ok (keep better (values res lo hi) (sentinel, None))
    /\ better (fst (keep better (values res lo hi) (sentinel, None))) sentinel = true
    /\ (forall n' v', lo <= n' <= hi -> res n' = Ok v' ->
          better (fst v') (fst (keep better (values res lo hi) (sentinel, None))) = false)
    /\ (forall n' v', lo <= n' < n -> res n' = Ok v' ->
          (fst v' =? fst (keep better (values res lo hi) (sentinel, None)))%float = false).
Proof.
  intros Hm.
  destruct (best_of_range_first better better_trans better_eq_l better_eq_no
              res lo hi (sentinel, None)) as [H | (n & Hn & Hr & Hb & Hf)].
  - rewrite H in Hm. discriminate.
  - exists n. split; [|split; [|split; [|split]]]; auto.
    intros n' v' Hn' Hv'.
    apply (best_of_range_optimal better better_irrefl better_trans
             better_eq_l better_eq_no res lo hi (sentinel, None) n' v' Hn' Hv').
Qed.

End SentinelSearch.

(** ** Outcomes of [SelectorDIC.select()] *)

Section DICSearch.
Context {E : Externals}.

Lemma dic_candidate_fails_run s n :
  dic_candidate_fails s n <-> exists e, fst (dic_run s n) = Raise e.
Proof.
  unfold dic_candidate_fails. rewrite dic_score_run. split.
  - intros (e & s' & t & H). injection H as H _ _. eauto.
  - intros (e & H). rewrite H. eauto.
Qed.

Lemma dic_training_failure_fails s n e :
  GaussianHMM_fit n (random_state s) (X s) (lengths s) = Raise e ->
  dic_candidate_fails s n.
Proof.
  intros H. apply dic_candidate_fails_run.
  destruct (fst (dic_run s n)) as [[d om]|e'] eqn:Hr; [|eauto].
  apply dic_run_scored in Hr. destruct Hr as (m & _ & Hfit & _). congruence.
Qed.

Lemma dic_scoring_failure_fails s n m e :
  GaussianHMM_fit n (random_state s) (X s) (lengths s) = Ok m ->
  Model_score m (X s) (lengths s) = Raise e ->
  dic_candidate_fails s n.
Proof.
  intros Hfit H. apply dic_candidate_fails_run.
  destruct (fst (dic_run s n)) as [[d om]|e'] eqn:Hr; [|eauto].
  apply dic_run_scored in Hr.
  destruct Hr as (m' & _ & Hfit' & own & _ & _ & Hown & _). congruence.
Qed.

Lemma dic_other_scoring_failure_fails s n m word x l e :
  GaussianHMM_fit n (random_state s) (X s) (lengths s) = Ok m ->
  In (word, (x, l)) (other_words s) ->
  Model_score m x l = Raise e ->
  dic_candidate_fails s n.
Proof.
  intros Hfit Hin H. apply dic_candidate_fails_run.
  destruct (fst (dic_run s n)) as [[d om]|e'] eqn:Hr; [|eauto].
  apply dic_run_scored in Hr.
  destruct Hr as (m' & _ & Hfit' & own & others & mean & _ & Hoth & _).
  assert (m' = m) as -> by congruence.
  assert (Hi : In (Model_score m x l)
                 (map (fun item => Model_score m (fst (snd item)) (snd (snd item)))
                    (other_words s))).
  { apply in_map_iff. exists (word, (x, l)). auto. }
  rewrite Hoth, H in Hi. apply in_map_iff in Hi.
  destruct Hi as (sc & Hsc & _). discriminate.
Qed.

Lemma dic_select_failure (s : Selector) n :
  min_n_components s <= n <= max_n_components s ->
  dic_candidate_fails s n ->
  exists t,
    SelectorDIC.select s = (Ok (trained s (n_constant s)), s, t).
Proof.
  intros Hn Hf. apply dic_candidate_fails_run in Hf. destruct Hf as [e He].
  rewrite dic_select_run.
  destruct (track_all_Raise dic_better
              (map (fun n => fst (dic_run s n))
                 (range (min_n_components s) (max_n_components s + 1)))
              (neg_infinity, None)) as [e' He'].
  - apply Exists_exists. exists (Raise e). split; [|reflexivity].
    apply in_map_iff. exists n. split; auto. apply range_closed, Hn.
  - unfold dic_search_result. rewrite He'. eauto.
Qed.

Lemma dic_res_model s n score model :
  fst (dic_run s n) = Ok (score, model) -> model <> None.
Proof.
  intros H. apply dic_run_scored in H. destruct H as (m & -> & _). discriminate.
Qed.

Lemma dic_select_no_failure (s : Selector) :
  let lo := min_n_components s in
  let hi := max_n_components s in
  (forall n, lo <= n <= hi -> exists d m, dic_scored s n d m) ->
  exists best t,
    SelectorDIC.select s = (Ok best, s, t)
    /\ (best = None <->
        forall n d m, lo <= n <= hi -> dic_scored s n d m ->
          (neg_infinity <? d)%float = false)
    /\ forall m, best = Some m ->
         exists n d,
           lo <= n <= hi
           /\ dic_scored s n d m
           /\ (neg_infinity <? d)%float = true
           /\ (forall n' d' m', lo <= n' <= hi -> dic_scored s n' d' m' ->
                 (d <? d')%float = false)
           /\ (forall n' d' m', lo <= n' < n -> dic_scored s n' d' m' ->
                 (d' =? d)%float = false).
Proof.
  intros lo hi Hall. rewrite dic_select_run. unfold dic_search_result.
  rewrite (map_all_kept (fun n => fst (dic_run s n))).
  2:{ intros n Hn. apply range_closed in Hn.
      destruct (Hall n Hn) as (d & m & Hs). exists (d, Some m).
      apply dic_run_scored. eauto. }
  rewrite track_all_Ok.
  fold (values (fun n => fst (dic_run s n)) lo hi).
  set (out := keep dic_better (values (fun n => fst (dic_run s n)) lo hi)
                (neg_infinity, None)).
  exists (snd out), (EFilterWarnings :: dic_search_trace s).
  split; [reflexivity|]. split.
  - unfold out.
    rewrite (sentinel_kept_iff dic_better dic_better_irrefl dic_better_trans
               dic_better_eq_l dic_better_eq_no _ lo hi neg_infinity
               (dic_res_model s)).
    split.
    + intros H n d m Hn Hs. apply (H n (d, Some m) Hn).
      apply dic_run_scored. eauto.
    + intros H n [d om] Hn Hr. apply dic_run_scored in Hr.
      destruct Hr as (m & -> & Hs). apply (H n d m Hn Hs).
  - intros m Hm.
    destruct (sentinel_replaced dic_better dic_better_irrefl dic_better_trans
                dic_better_eq_l dic_better_eq_no _ lo hi neg_infinity m Hm)
      as (n & Hn & Hr & Hb & Hopt & Hfirst).
    fold out in Hr, Hb, Hopt, Hfirst.
    destruct out as [d om]. cbn [fst snd] in *. subst om.
    apply dic_run_scored in Hr. destruct Hr as (m' & Hm' & Hs).
    injection Hm' as <-.
    exists n, d. split; [exact Hn|]. split; [exact Hs|]. split; [exact Hb|]. split.
    + intros n' d' m' Hn' Hs'. apply (Hopt n' (d', Some m') Hn').
      apply dic_run_scored. eauto.
    + intros n' d' m' Hn' Hs'. apply (Hfirst n' (d', Some m') Hn').
      apply dic_run_scored. eauto.
Qed.

End DICSearch.

(** ** Outcomes of [SelectorCV.select()] *)

Section CVSearch.
Context {E : Externals}.

Lemma cv_candidate_fails_run s n :
  cv_candidate_fails s n <-> exists e, fst (cv_run s n) = Raise e.
Proof.
  unfold cv_candidate_fails.
  rewrite (cv_score_run n s s (same_config_refl s)). split.
  - intros (e & s' & t & H). injection H as H _ _. eauto.
  - intros (e & H). rewrite H. eauto.
Qed.

Lemma cv_res_model s n score model :
  fst (cv_run s n) = Ok (score, model) -> model <> None.
Proof.
  intros H. apply cv_run_scored in H. destruct H as (m & -> & _). discriminate.
Qed.

Lemma scan_stores_in {A L} (g : A -> L -> result L * list Event) xs locals st :
  In st (stores (snd (scan g xs locals))) ->
  exists x l, In x xs /\ In st (stores (snd (g x l))).
Proof.
  revert locals. induction xs as [|x xs IH]; intros locals H; [destruct H|].
  cbn [scan] in H.
  destruct (g x locals) as [[l'|e] t] eqn:Hg.
  - destruct (scan g xs l') as [r t'] eqn:Hs. cbn [snd] in H.
    rewrite stores_app in H. apply in_app_or in H. destruct H as [H | H].
    + exists x, locals. rewrite Hg. split; [left; reflexivity | exact H].
    + specialize (IH l'). rewrite Hs in IH. destruct (IH H) as (y & l & Hy & Hst).
      exists y, l. split; [right; exact Hy | exact Hst].
  - exists x, locals. rewrite Hg. split; [left; reflexivity | exact H].
Qed.

Lemma trace_until_stores_in {A} (res : A -> candidate_result)
    (tr : A -> list Event) xs st :
  In st (stores (trace_until res tr xs)) ->
  exists x, In x xs /\ In st (stores (tr x)).
Proof.
  induction xs as [|x xs IH]; intros H; [destruct H|].
  cbn [trace_until] in H. destruct (res x).
  - rewrite stores_app in H. apply in_app_or in H. destruct H as [H | H].
    + exists x. split; [left; reflexivity | exact H].
    + destruct (IH H) as (y & Hy & Hst). exists y. split; [right|]; auto.
  - exists x. split; [left; reflexivity | exact H].
Qed.

Lemma cv_fold_step_stores s n fold locals x l :
  In (x, l) (stores (snd (cv_fold_step s n fold locals))) ->
  combine_sequences (fst fold) (sequences s) = Ok (x, l).
Proof.
  destruct fold as [tr te]. unfold cv_fold_step. cbn [fst].
  destruct (combine_sequences tr (sequences s)) as [[x0 l0]|e]; [|intros []].
  assert (Hst : forall t, stores t = [] ->
            In (x, l) (stores ((EStore x0 l0
                                :: base_model_trace (with_data s x0 l0) n) ++ t)) ->
            Ok (x0, l0) = Ok (x, l)).
  { intros t Ht. rewrite stores_app. cbn [stores].
    rewrite base_model_stores, Ht. intros [H | []]. congruence. }
  destruct (combine_sequences te (sequences s)) as [[x' l']|e].
  - destruct (trained (with_data s x0 l0) n) as [m|]; cbn [snd].
    + apply Hst. reflexivity.
    + intros H. apply (Hst []); auto. rewrite app_nil_r. exact H.
  - cbn [snd]. intros H. apply (Hst []); auto. rewrite app_nil_r. exact H.
Qed.

(** Every store of a run of [cv_score] puts the combined training sequences
    of one of the folds into [self.X, self.lengths]. *)
Lemma cv_run_stores s n x l :
  In (x, l) (stores (snd (cv_run s n))) ->
  exists folds fold,
    KFold_split 2 (length (sequences s)) = Ok folds
    /\ In fold folds
    /\ combine_sequences (fst fold) (sequences s) = Ok (x, l).
Proof.
  unfold cv_run.
  destruct (KFold_split 2 (length (sequences s))) as [folds|e]; [|intros []].
  intros H. exists folds.
  assert (Hin : In (x, l) (stores (snd (scan (cv_fold_step s n) folds ([], None))))).
  { destruct (scan (cv_fold_step s n) folds ([], None)) as [[[scores mv]|e] t];
      exact H. }
  destruct (scan_stores_in _ _ _ _ Hin) as (fold & locals & Hf & Hst).
  exists fold. split; [reflexivity|]. split; [exact Hf|].
  eapply cv_fold_step_stores; eauto.
Qed.

Lemma cv_search_stores s x l :
  In (x, l) (stores (cv_search_trace s)) ->
  exists folds fold,
    KFold_split 2 (length (sequences s)) = Ok folds
    /\ In fold folds
    /\ combine_sequences (fst fold) (sequences s) = Ok (x, l).
Proof.
  intros H. apply trace_until_stores_in in H. destruct H as (n & _ & H).
  eapply cv_run_stores; eauto.
Qed.

(** What [SelectorCV.select()] leaves in the instance. *)
Lemma cv_select_state (s : Selector) :
  exists best t,
    SelectorCV.select s = (Ok best, replay t s, t)
    /\ stores t = stores (cv_search_trace s).
Proof.
  rewrite cv_select_run.
  destruct (cv_search_result s).
  - exists (snd a), (EFilterWarnings :: cv_search_trace s). split; reflexivity.
  - cbv zeta.
    exists (trained (replay (cv_search_trace s) s) (n_constant s)),
      (EFilterWarnings :: cv_search_trace s
         ++ base_model_trace (replay (cv_search_trace s) s) (n_constant s)).
    assert (Hst : stores (EFilterWarnings :: cv_search_trace s
                    ++ base_model_trace (replay (cv_search_trace s) s) (n_constant s))
                  = stores (cv_search_trace s)).
    { cbn [stores]. rewrite stores_app, base_model_stores, app_nil_r. reflexivity. }
    split; [|exact Hst].
    f_equal. f_equal. apply replay_stores_eq. symmetry. exact Hst.
Qed.

Lemma cv_select_failure (s : Selector) n :
  min_n_components s <= n <= max_n_components s ->
  cv_candidate_fails s n ->
  exists t,
    let s' := replay (cv_search_trace s) s in
    SelectorCV.select s = (Ok (trained s' (n_constant s)), s', t).
Proof.
  intros Hn Hf. apply cv_candidate_fails_run in Hf. destruct Hf as [e He].
  rewrite cv_select_run.
  destruct (track_all_Raise cv_better
              (map (fun n => fst (cv_run s n))
                 (range (min_n_components s) (max_n_components s + 1)))
              (infinity, None)) as [e' He'].
  - apply Exists_exists. exists (Raise e). split; [|reflexivity].
    apply in_map_iff. exists n. split; auto. apply range_closed, Hn.
  - unfold cv_search_result. rewrite He'. eauto.
Qed.

Lemma cv_select_no_failure (s : Selector) :
  let lo := min_n_components s in
  let hi := max_n_components s in
  (forall n, lo <= n <= hi -> exists avg m, cv_scored s n avg m) ->
  exists best s' t,
    SelectorCV.select s = (Ok best, s', t)
    /\ (best = None <->
        forall n avg m, lo <= n <= hi -> cv_scored s n avg m ->
          (avg <? infinity)%float = false)
    /\ forall m, best = Some m ->
         exists n avg,
           lo <= n <= hi
           /\ cv_scored s n avg m
           /\ (avg <? infinity)%float = true
           /\ (forall n' avg' m', lo <= n' <= hi -> cv_scored s n' avg' m' ->
                 (avg' <? avg)%float = false)
           /\ (forall n' avg' m', lo <= n' < n -> cv_scored s n' avg' m' ->
                 (avg' =? avg)%float = false).
Proof.
  intros lo hi Hall. rewrite cv_select_run. unfold cv_search_result.
  rewrite (map_all_kept (fun n => fst (cv_run s n))).
  2:{ intros n Hn. apply range_closed in Hn.
      destruct (Hall n Hn) as (d & m & Hs). exists (d, Some m).
      apply cv_run_scored. eauto. }
  rewrite track_all_Ok.
  fold (values (fun n => fst (cv_run s n)) lo hi).
  set (out := keep cv_better (values (fun n => fst (cv_run s n)) lo hi)
                (infinity, None)).
  exists (snd out), (replay (cv_search_trace s) s),
    (EFilterWarnings :: cv_search_trace s).
  split; [reflexivity|]. split.
  - unfold out.
    rewrite (sentinel_kept_iff cv_better cv_better_irrefl cv_better_trans
               cv_better_eq_l cv_better_eq_no _ lo hi infinity
               (cv_res_model s)).
    split.
    + intros H n d m Hn Hs. apply (H n (d, Some m) Hn).
      apply cv_run_scored. eauto.
    + intros H n [d om] Hn Hr. apply cv_run_scored in Hr.
      destruct Hr as (m & -> & Hs). apply (H n d m Hn Hs).
  - intros m Hm.
    destruct (sentinel_replaced cv_better cv_better_irrefl cv_better_trans
                cv_better_eq_l cv_better_eq_no _ lo hi infinity m Hm)
      as (n & Hn & Hr & Hb & Hopt & Hfirst).
    fold out in Hr, Hb, Hopt, Hfirst.
    destruct out as [d om]. cbn [fst snd] in *. subst om.
    apply cv_run_scored in Hr. destruct Hr as (m' & Hm' & Hs).
    injection Hm' as <-.
    exists n, d. split; [exact Hn|]. split; [exact Hs|]. split; [exact Hb|]. split.
    + intros n' d' m' Hn' Hs'. apply (Hopt n' (d', Some m') Hn').
      apply cv_run_scored. eauto.
    + intros n' d' m' Hn' Hs'. apply (Hfirst n' (d', Some m') Hn').
      apply cv_run_scored. eauto.
Qed.

End CVSearch.

(** ** A search that aborts *)

Section Abort.
Context {E : Externals}.

Lemma range_single (lo : Z) : range lo (lo + 1) = [lo].
Proof.
  unfold range. replace (Z.to_nat (lo + 1 - lo)) with 1%nat by lia.
  simpl. f_equal. lia.
Qed.

(** The loop runs up to the first candidate that raises, and no further. *)
Lemma trace_until_first_failure (res : Z -> candidate_result)
    (tr : Z -> list Event) (stop n : Z) e :
  res n = Raise e ->
  forall lo, lo <= n < stop ->
    exists k,
      lo <= k <= n
      /\ (exists e', res k = Raise e')
      /\ (forall i, lo <= i < k -> exists v, res i = Ok v)
      /\ trace_until res tr (range lo stop) = flat_map tr (range lo (k + 1)).
Proof.
  intros Hn lo Hlo.
  remember (Z.to_nat (n - lo)) as d eqn:Hd. revert lo Hlo Hd.
  induction d as [|d IH]; intros lo Hlo Hd.
  - assert (lo = n) as -> by lia. exists n.
    split; [lia|]. split; [eauto|]. split; [intros i Hi; lia|].
    rewrite (range_cons n stop) by lia. cbn [trace_until]. rewrite Hn.
    rewrite range_single. simpl. rewrite app_nil_r. reflexivity.
  - rewrite (range_cons lo stop) by lia. cbn [trace_until].
    destruct (res lo) as [v|e0] eqn:Hres.
    + destruct (IH (lo + 1)) as (k & Hk & Hf & Hbefore & Htr); [lia | lia |].
      exists k. split; [lia|]. split; [exact Hf|]. split.
      * intros i Hi. destruct (Z.eq_dec i lo) as [-> | Hne]; [eauto|].
        apply Hbefore. lia.
      * rewrite Htr, (range_cons lo (k + 1)) by lia. reflexivity.
    + exists lo. split; [lia|]. split; [eauto|]. split; [intros i Hi; lia|].
      rewrite range_single. simpl. rewrite app_nil_r. reflexivity.
Qed.

Lemma scan_no_fit {A L} (g : A -> L -> result L * list Event) xs locals :
  (forall x l, fits (snd (g x l)) = []) -> fits (snd (scan g xs locals)) = [].
Proof.
  intros H. revert locals. induction xs as [|x xs IH]; intros locals; simpl; auto.
  specialize (H x locals). destruct (g x locals) as [[l'|e] t]; simpl in *; auto.
  specialize (IH l'). destruct (scan g xs l') as [r t']; simpl in *.
  rewrite fits_app, H, IH. reflexivity.
Qed.

Lemma dic_other_step_fits s model item scores :
  fits (snd (dic_other_step s model item scores)) = [].
Proof.
  destruct item as [word [X' l']]. unfold dic_other_step.
  destruct (negb _); [destruct model|]; reflexivity.
Qed.

Lemma dic_run_fits s n :
  fits (snd (dic_run s n)) = [(n, random_state s, X s, lengths s)].
Proof.
  unfold dic_run.
  pose proof (scan_no_fit (dic_other_step s (trained s n)) (hwords s) []
                (dic_other_step_fits s (trained s n))) as H.
  destruct (scan _ _ _) as [[scores|e] t]; cbn [snd] in *.
  - destruct (trained s n); cbn [snd];
      rewrite !fits_app, base_model_fits, H; reflexivity.
  - rewrite fits_app, base_model_fits, H. reflexivity.
Qed.

Lemma dic_trace_fits s xs :
  fits (flat_map (fun n => snd (dic_run s n)) xs)
  = map (fun n => (n, random_state s, X s, lengths s)) xs.
Proof.
  induction xs as [|n xs IH]; [reflexivity|]. cbn [flat_map map].
  rewrite fits_app, dic_run_fits, IH. reflexivity.
Qed.

(** When a candidate fails, [SelectorDIC.select()] has trained the state
    counts up to the first one that fails, then [n_constant], and returns
    the outcome of that last training. *)
Lemma dic_select_aborts (s : Selector) n :
  min_n_components s <= n <= max_n_components s ->
  dic_candidate_fails s n ->
  exists t k,
    SelectorDIC.select s = (Ok (trained s (n_constant s)), s, t)
    /\ min_n_components s <= k <= n
    /\ dic_candidate_fails s k
    /\ fits t
       = map (fun i => (i, random_state s, X s, lengths s))
           (range (min_n_components s) (k + 1))
         ++ [(n_constant s, random_state s, X s, lengths s)].
Proof.
  intros Hn Hf. apply dic_candidate_fails_run in Hf. destruct Hf as [e He].
  destruct (trace_until_first_failure (fun n => fst (dic_run s n))
              (fun n => snd (dic_run s n)) (max_n_components s + 1) n e He
              (min_n_components s)) as (k & Hk & (e' & Hfk) & _ & Htr); [lia|].
  rewrite dic_select_run.
  destruct (track_all_Raise dic_better
              (map (fun n => fst (dic_run s n))
                 (range (min_n_components s) (max_n_components s + 1)))
              (neg_infinity, None)) as [e2 He2].
  { apply Exists_exists. exists (Raise e). split; [|reflexivity].
    apply in_map_iff. exists n. split; auto. apply range_closed, Hn. }
  unfold dic_search_result. rewrite He2.
  eexists _, k. split; [reflexivity|]. split; [exact Hk|]. split.
  - apply dic_candidate_fails_run. eauto.
  - cbn [fits]. rewrite fits_app, base_model_fits.
    unfold dic_search_trace. rewrite Htr, dic_trace_fits. reflexivity.
Qed.

End Abort.

(** * Properties of [select()] *)

Section ConstantClaims.
Context {E : Externals}.

(** C8. [SelectorConstant.select()] makes exactly one training call, at
    [n_constant] states on the instance's data, and returns what the trainer
    yields: the fitted model, or [None] when training raises.  It makes no
    scoring call, leaves the instance as it was, and does the same whatever
    [min_n_components] and [max_n_components] are. *)
Theorem constant_select_trains_once (s : Selector) :
  exists t,
    SelectorConstant.select s
    = (Ok (match GaussianHMM_fit (n_constant s) (random_state s) (X s) (lengths s) with
           | Ok m => Some m
           | Raise _ => None
           end), s, t)
    /\ fits t = [(n_constant s, random_state s, X s, lengths s)]
    /\ scorings t = []
    /\ forall lo hi,
         SelectorConstant.select (with_range s lo hi)
         = (fst (fst (SelectorConstant.select s)), with_range s lo hi, t).
Proof.
  exists (base_model_trace s (n_constant s)).
  rewrite constant_run. repeat split.
  - apply base_model_fits.
  - apply base_model_scorings.
  - intros lo hi. rewrite constant_run. reflexivity.
Qed.

End ConstantClaims.

Section TotalityClaims.
Context {E : Externals}.

(** C2. Whatever the instance holds and whatever the libraries do (each may
    raise on any call), [select()] of each of the four strategies returns:
    its result is a value, a fitted model or [None], never an exception. *)
Theorem select_never_raises (s : Selector) :
  (exists v s' t, SelectorConstant.select s = (Ok v, s', t))
  /\ (exists v s' t, SelectorBIC.select s = (Ok v, s', t))
  /\ (exists v s' t, SelectorDIC.select s = (Ok v, s', t))
  /\ (exists v s' t, SelectorCV.select s = (Ok v, s', t)).
Proof.
  repeat split.
  - rewrite constant_run. eauto.
  - rewrite bic_select_run. eauto.
  - rewrite dic_select_run. destruct (dic_search_result s); eauto.
  - rewrite cv_select_run. destruct (cv_search_result s); eauto.
Qed.

End TotalityClaims.

Section BICClaims.
Context {E : Externals}.

(** C3. The free-parameter count is
    [num_states^2 + 2*num_states*num_data_points - 1], which is 308 for 3
    states and 50 data points; [calc_score] is
    [-2*log_likelihood + p*ln(num_data_points)] in float arithmetic; and
    the score [select()] records for a candidate is that formula at the
    model's log-likelihood on the word's data, with [num_data_points] the
    sum of the word's length markers. *)
Theorem bic_score_formula :
  (forall num_states num_data_points,
     SelectorBIC.calc_deg_lib num_states num_data_points
     = num_states * num_states + 2 * num_states * num_data_points - 1)
  /\ SelectorBIC.calc_deg_lib 3 50 = 308
  /\ (forall log_likelihood num_free_params num_data_points s ln p,
        np_log num_data_points = Ok ln ->
        float_of_int num_free_params = Ok p ->
        SelectorBIC.calc_score log_likelihood num_free_params num_data_points s
        = (Ok ((-2) * log_likelihood + p * ln)%float, s, []))
  /\ (forall s num_states score_bic hmm_model s' t,
        SelectorBIC.candidate num_states s = (Ok (score_bic, hmm_model), s', t) ->
        exists m log_likelihood ln p,
          hmm_model = Some m
          /\ Model_score m (X s) (lengths s) = Ok log_likelihood
          /\ np_log (fold_right Z.add 0 (lengths s)) = Ok ln
          /\ float_of_int
               (SelectorBIC.calc_deg_lib num_states
                  (fold_right Z.add 0 (lengths s))) = Ok p
          /\ score_bic = ((-2) * log_likelihood + p * ln)%float).
Proof.
  repeat split.
  - intros n N. unfold SelectorBIC.calc_deg_lib. lia.
  - intros ll p N s ln pf Hln Hp.
    unfold SelectorBIC.calc_score, bind, lift, ret. rewrite Hln, Hp. reflexivity.
  - intros s n sc om s' t H. rewrite bic_candidate_run in H.
    injection H as H _ _. apply bic_result_scored in H.
    destruct H as (m & -> & _ & ll & ln & p & Hs & Hl & Hp & ->).
    assert (Hsum : sum (lengths s) = fold_right Z.add 0 (lengths s)).
    { unfold sum. rewrite <- fold_left_rev_right.
      generalize (lengths s). intros l. induction l as [|a l IH]; simpl; auto.
      rewrite fold_right_app. simpl. rewrite <- IH.
      clear IH. generalize (rev l) as r. intros r. revert a.
      induction r as [|b r IHr]; intros a; simpl; [lia|].
      rewrite IHr. lia. }
    rewrite <- Hsum. exists m, ll, ln, p. auto.
Qed.

End BICClaims.

Section DICClaims.
Context {E : Externals}.

(** C6. If a candidate of the range fails in [SelectorDIC]'s search, because
    its training raised, or the scoring of this word or of another word
    raised, or for any other reason [dic_score] raised, then the search is
    abandoned at the first candidate that fails (no later state count is
    trained) and [select()] returns exactly what [SelectorConstant.select()]
    returns on the same instance: the model trained at [n_constant] states
    on the word's data, or [None] if that training fails too. *)
Theorem dic_select_falls_back (s : Selector) (n : Z) :
  min_n_components s <= n <= max_n_components s ->
  ((exists e, GaussianHMM_fit n (random_state s) (X s) (lengths s) = Raise e)
   \/ (exists m e,
         GaussianHMM_fit n (random_state s) (X s) (lengths s) = Ok m
         /\ Model_score m (X s) (lengths s) = Raise e)
   \/ (exists m word x l e,
         GaussianHMM_fit n (random_state s) (X s) (lengths s) = Ok m
         /\ In (word, (x, l)) (other_words s)
         /\ Model_score m x l = Raise e)
   \/ (exists e s' t, SelectorDIC.dic_score n s = (Raise e, s', t))) ->
  exists fallback t t0 k,
    SelectorDIC.select s = (Ok fallback, s, t)
    /\ SelectorConstant.select s = (Ok fallback, s, t0)
    /\ fallback
       = match GaussianHMM_fit (n_constant s) (random_state s) (X s) (lengths s) with
         | Ok m => Some m
         | Raise _ => None
         end
    /\ min_n_components s <= k <= n
    /\ fits t
       = map (fun i => (i, random_state s, X s, lengths s))
           (range (min_n_components s) (k + 1))
         ++ [(n_constant s, random_state s, X s, lengths s)].
Proof.
  intros Hn Hfail.
  assert (Hf : dic_candidate_fails s n).
  { destruct Hfail as [(e & H) | [(m & e & Hm & H) | [(m & w & x & l & e & Hm & Hi & H) | H]]].
    - eapply dic_training_failure_fails; eauto.
    - eapply dic_scoring_failure_fails; eauto.
    - eapply dic_other_scoring_failure_fails; eauto.
    - exact H. }
  destruct (dic_select_aborts s n Hn Hf) as (t & k & Hrun & Hk & _ & Hfits).
  exists (trained s (n_constant s)), t, (base_model_trace s (n_constant s)), k.
  split; [exact Hrun|]. split; [apply constant_run|].
  split; [reflexivity|]. split; [exact Hk | exact Hfits].
Qed.

End DICClaims.

Section CVClaims.
Context {E : Externals}.

Lemma cv_fold_step_trace s n fold locals x l y k m sc :
  combine_sequences (fst fold) (sequences s) = Ok (x, l) ->
  GaussianHMM_fit n (random_state s) x l = Ok m ->
  combine_sequences (snd fold) (sequences s) = Ok (y, k) ->
  Model_score m y k = Ok sc ->
  cv_fold_step s n fold locals
  = (Ok (fst locals ++ [sc], Some (Some m)),
     (EStore x l :: base_model_trace (with_data s x l) n) ++ [EScore m y k]).
Proof.
  destruct fold as [tr te]. cbn [fst snd]. intros H1 H2 H3 H4.
  unfold cv_fold_step. rewrite H1, H3, trained_with_data, H2, H4. reflexivity.
Qed.

Lemma candidates_map (s : Selector) (res : Z -> candidate_result)
    (P : Z -> float * option Model -> Prop) xs cands :
  (forall n c, P n c -> res n = Ok c) ->
  Forall2 P xs cands -> map res xs = map Ok cands.
Proof.
  intros HP H. induction H as [|n c xs cands Hnc _ IH]; simpl; auto.
  rewrite (HP n c Hnc), IH. reflexivity.
Qed.

(** C7. [KFold(n_splits=2)] gives [cv_score] exactly two folds.  When
    [cv_score] returns for a candidate, the candidate was retrained once per
    fold on that fold's combined training sequences, the combined held-out
    sequences of each fold were scored with the model trained on that fold,
    and the score returned is the mean of the two fold scores.  [select()]
    starts from [best_score = +inf] and no model, and a candidate replaces
    the incumbent exactly when its average is strictly lower: when no
    candidate fails, the result is that running minimum over the range, a
    model whose average no candidate's average is strictly below, or [None]
    when no average is below plus infinity. *)
Theorem cv_select_lowest_average (s : Selector) :
  let lo := min_n_components s in
  let hi := max_n_components s in
  (forall folds,
     KFold_split 2 (length (sequences s)) = Ok folds -> length folds = 2%nat)
  /\ (forall n avg model s' t,
        SelectorCV.cv_score n s = (Ok (avg, model), s', t) ->
        exists fold1 fold2 x1 l1 y1 k1 m1 sc1 x2 l2 y2 k2 m2 sc2,
          KFold_split 2 (length (sequences s)) = Ok [fold1; fold2]
          /\ combine_sequences (fst fold1) (sequences s) = Ok (x1, l1)
          /\ GaussianHMM_fit n (random_state s) x1 l1 = Ok m1
          /\ combine_sequences (snd fold1) (sequences s) = Ok (y1, k1)
          /\ Model_score m1 y1 k1 = Ok sc1
          /\ combine_sequences (fst fold2) (sequences s) = Ok (x2, l2)
          /\ GaussianHMM_fit n (random_state s) x2 l2 = Ok m2
          /\ combine_sequences (snd fold2) (sequences s) = Ok (y2, k2)
          /\ Model_score m2 y2 k2 = Ok sc2
          /\ np_mean [sc1; sc2] = Ok avg
          /\ model = Some m2
          /\ fits t = [(n, random_state s, x1, l1); (n, random_state s, x2, l2)]
          /\ scorings t = [(m1, y1, k1); (m2, y2, k2)])
  /\ (forall cands,
        Forall2 (fun n c => exists m, c = (fst c, Some m) /\ cv_scored s n (fst c) m)
          (range lo (hi + 1)) cands ->
        exists s' t,
          SelectorCV.select s
          = (Ok (snd (fold_left
                        (fun best c =>
                           if (fst c <? fst best)%float then c else best)
                        cands (infinity, None))), s', t))
  /\ ((forall n, lo <= n <= hi -> exists avg m, cv_scored s n avg m) ->
      exists best s' t,
        SelectorCV.select s = (Ok best, s', t)
        /\ (best = None <->
            forall n avg m, lo <= n <= hi -> cv_scored s n avg m ->
              (avg <? infinity)%float = false)
        /\ forall m, best = Some m ->
             exists n avg,
               lo <= n <= hi
               /\ cv_scored s n avg m
               /\ (avg <? infinity)%float = true
               /\ forall n' avg' m', lo <= n' <= hi -> cv_scored s n' avg' m' ->
                    (avg' <? avg)%float = false).
Proof.
  intros lo hi. split; [|split; [|split]].
  - intros folds H. apply (KFold_n_splits _ _ _ H).
  - intros n avg model s' t H.
    rewrite (cv_score_run n s s (same_config_refl s)) in H.
    injection H as Hr _ Ht.
    apply cv_run_scored in Hr.
    destruct Hr as (m2 & -> & f1 & f2 & m1 & sc1 & sc2 & Hk & Hf1 & Hf2 & Hm).
    destruct Hf1 as (x1 & l1 & y1 & k1 & A1 & A2 & A3 & A4).
    destruct Hf2 as (x2 & l2 & y2 & k2 & B1 & B2 & B3 & B4).
    exists f1, f2, x1, l1, y1, k1, m1, sc1, x2, l2, y2, k2, m2, sc2.
    repeat (split; [assumption || reflexivity|]).
    assert (Htr : snd (cv_run s n)
                  = ((EStore x1 l1 :: base_model_trace (with_data s x1 l1) n)
                       ++ [EScore m1 y1 k1])
                    ++ ((EStore x2 l2 :: base_model_trace (with_data s x2 l2) n)
                          ++ [EScore m2 y2 k2]) ++ []).
    { unfold cv_run. rewrite Hk. cbn [scan].
      rewrite (cv_fold_step_trace s n f1 _ x1 l1 y1 k1 m1 sc1 A1 A2 A3 A4).
      rewrite (cv_fold_step_trace s n f2 _ x2 l2 y2 k2 m2 sc2 B1 B2 B3 B4).
      reflexivity. }
    rewrite <- Ht, Htr. split.
    + rewrite !fits_app. cbn [fits]. rewrite !base_model_fits. reflexivity.
    + rewrite !scorings_app. cbn [scorings]. rewrite !base_model_scorings.
      reflexivity.
  - intros cands HF. subst lo hi.
    rewrite cv_select_run. unfold cv_search_result.
    rewrite (candidates_map s (fun n => fst (cv_run s n)) _ _ cands) with (2 := HF).
    + rewrite track_all_Ok. eexists _, _. reflexivity.
    + intros n c (m & Hc & Hs). cbn beta. rewrite Hc.
      apply cv_run_scored. eauto.
  - intros Hall.
    destruct (cv_select_no_failure s Hall) as (best & s' & t & Hrun & Hnone & Hsome).
    exists best, s', t. split; [exact Hrun|]. split; [exact Hnone|].
    intros m Hm. destruct (Hsome m Hm) as (n & avg & Hn & Hs & Hb & Hopt & _).
    exists n, avg. auto.
Qed.

End CVClaims.

Section FrameClaims.
Context {E : Externals}.

Lemma cv_fold_step_first_store s n fold locals x l :
  combine_sequences (fst fold) (sequences s) = Ok (x, l) ->
  stores (snd (cv_fold_step s n fold locals)) = [(x, l)].
Proof.
  destruct fold as [tr te]. cbn [fst]. intros H. unfold cv_fold_step. rewrite H.
  destruct (combine_sequences te (sequences s)) as [[y k]|e].
  - destruct (trained (with_data s x l) n); cbn [snd];
      rewrite ?stores_app; cbn [stores]; rewrite base_model_stores; reflexivity.
  - cbn [snd stores]. rewrite base_model_stores. reflexivity.
Qed.

(** The first fold of the first candidate already stores. *)
Lemma cv_search_stores_nonempty s fold folds x l :
  min_n_components s <= max_n_components s ->
  KFold_split 2 (length (sequences s)) = Ok (fold :: folds) ->
  combine_sequences (fst fold) (sequences s) = Ok (x, l) ->
  exists rest, stores (cv_search_trace s) = (x, l) :: rest.
Proof.
  intros Hr Hk Hc. unfold cv_search_trace.
  rewrite range_cons by lia. cbn [trace_until].
  assert (H : exists rest, stores (snd (cv_run s (min_n_components s)))
                           = (x, l) :: rest).
  { unfold cv_run. rewrite Hk. cbn [scan].
    pose proof (cv_fold_step_first_store s (min_n_components s) fold
                  ([], None) x l Hc) as Hst.
    destruct (cv_fold_step s (min_n_components s) fold ([], None))
      as [[loc|e] t]; cbn [snd] in Hst.
    - destruct (scan _ folds loc) as [[[scores mv]|e] t']; cbn [snd];
        rewrite stores_app, Hst; eexists; reflexivity.
    - cbn [snd]. rewrite Hst. eexists; reflexivity. }
  destruct H as [rest H].
  destruct (fst (cv_run s (min_n_components s))).
  - rewrite stores_app, H. eexists; reflexivity.
  - rewrite H. eexists; reflexivity.
Qed.

(** C9. [select()] of the Constant, BIC and DIC selectors leaves every
    attribute of the instance as it was.  [SelectorCV.select()] leaves all
    attributes but [X] and [lengths] as they were; every value it stores
    there is the combined training data of a fold; if it stored at all,
    which it does as soon as the range is not empty and the first fold's
    training sequences combine, [X] and [lengths] end as the last pair
    stored, the training data of the most recent fold, and not as the pair
    set at construction; if it never stored, they are unchanged. *)
Theorem select_frame (s : Selector) :
  (exists r t, SelectorConstant.select s = (r, s, t))
  /\ (exists r t, SelectorBIC.select s = (r, s, t))
  /\ (exists r t, SelectorDIC.select s = (r, s, t))
  /\ (exists r s' t,
        SelectorCV.select s = (r, s', t)
        /\ s' = with_data s (X s') (lengths s')
        /\ (stores t = [] -> s' = s)
        /\ (forall x l,
              last (map Some (stores t)) None = Some (x, l) ->
              X s' = x /\ lengths s' = l)
        /\ (forall x l,
              In (x, l) (stores t) ->
              exists folds fold,
                KFold_split 2 (length (sequences s)) = Ok folds
                /\ In fold folds
                /\ combine_sequences (fst fold) (sequences s) = Ok (x, l))
        /\ (forall fold folds x l,
              min_n_components s <= max_n_components s ->
              KFold_split 2 (length (sequences s)) = Ok (fold :: folds) ->
              combine_sequences (fst fold) (sequences s) = Ok (x, l) ->
              stores t <> [])).
Proof.
  split; [|split; [|split]].
  - rewrite constant_run. eauto.
  - rewrite bic_select_run. eauto.
  - rewrite dic_select_run. destruct (dic_search_result s); eauto.
  - destruct (cv_select_state s) as (best & t & Hrun & Hst).
    exists (Ok best), (replay t s), t. split; [exact Hrun|].
    split; [apply same_config_replay, same_config_refl|].
    split; [intros H; apply replay_no_store, H|].
    split; [|split].
    + intros x l H. rewrite (replay_last t s x l H). auto.
    + intros x l H. rewrite Hst in H. apply cv_search_stores, H.
    + intros fold folds x l Hr Hk Hc. rewrite Hst.
      destruct (cv_search_stores_nonempty s fold folds x l Hr Hk Hc) as [rest ->].
      discriminate.
Qed.

End FrameClaims.

Section CVFallback.
Context {E : Externals}.

(** When the first candidate cannot be trained on the first fold, the
    [except] branch of [SelectorCV.select] trains at [n_constant] states on
    what [self.X, self.lengths] then hold: the first fold's training data. *)
Lemma cv_fallback_on_first_fold (s : Selector) fold folds x l e :
  min_n_components s <= max_n_components s ->
  KFold_split 2 (length (sequences s)) = Ok (fold :: folds) ->
  combine_sequences (fst fold) (sequences s) = Ok (x, l) ->
  GaussianHMM_fit (min_n_components s) (random_state s) x l = Raise e ->
  exists t,
    SelectorCV.select s
    = (Ok (match GaussianHMM_fit (n_constant s) (random_state s) x l with
           | Ok m => Some m
           | Raise _ => None
           end), with_data s x l, t).
Proof.
  intros Hr Hk Hc Hfit.
  assert (Hrun : exists e',
             cv_run s (min_n_components s)
             = (Raise e',
                EStore x l
                :: base_model_trace (with_data s x l) (min_n_components s))).
  { unfold cv_run. rewrite Hk. cbn [scan].
    destruct fold as [tr te]. cbn [fst] in Hc. unfold cv_fold_step.
    rewrite Hc, trained_with_data, Hfit.
    destruct (combine_sequences te (sequences s)) as [[y k]|e2]; eauto. }
  destruct Hrun as [e' Hrun].
  rewrite cv_select_run. unfold cv_search_result, cv_search_trace.
  rewrite range_cons by lia. cbn [map track_all trace_until].
  rewrite Hrun. cbn [fst snd track].
  assert (Hrep : replay
                   (EStore x l
                    :: base_model_trace (with_data s x l) (min_n_components s)) s
                 = with_data s x l).
  { unfold replay. cbn [stores]. rewrite base_model_stores. reflexivity. }
  cbv zeta. rewrite Hrep, trained_with_data. eauto.
Qed.

End CVFallback.

(** ** Computing that a candidate is scored *)

Section ComputeScored.
Context {E : Externals}.

(** a run, from its value and the instance it leaves *)
Lemma run_eq {A} (r : result A * Selector * list Event) a s :
  fst (fst r) = a -> snd (fst r) = s -> r = (a, s, snd r).
Proof. destruct r as [[a' s'] t]. simpl. intros -> ->. reflexivity. Qed.

Lemma bic_candidate_frame n s : snd (fst (SelectorBIC.candidate n s)) = s.
Proof. rewrite bic_candidate_run. reflexivity. Qed.

Lemma dic_select_frame s : snd (fst (SelectorDIC.select s)) = s.
Proof. rewrite dic_select_run. destruct (dic_search_result s); reflexivity. Qed.

Lemma bic_scored_compute s n sc m :
  bic_result s n = Ok (sc, Some m) -> bic_scored s n sc m.
Proof.
  intros H. apply bic_result_scored in H. destruct H as (m' & Hm & Hs).
  injection Hm as <-. exact Hs.
Qed.

Lemma dic_scored_compute s n d m :
  fst (dic_run s n) = Ok (d, Some m) -> dic_scored s n d m.
Proof.
  intros H. apply dic_run_scored in H. destruct H as (m' & Hm & Hs).
  injection Hm as <-. exact Hs.
Qed.

Lemma cv_scored_compute s n avg m :
  fst (cv_run s n) = Ok (avg, Some m) -> cv_scored s n avg m.
Proof.
  intros H. apply cv_run_scored in H. destruct H as (m' & Hm & Hs).
  injection Hm as <-. exact Hs.
Qed.

End ComputeScored.

(** * Further properties of the code *)

(** ** NaN *)

Module FloatNaN.

Lemma SFeqb_refl_false (x : spec_float) : SFeqb x x = false -> x = S754_nan.
Proof.
  unfold SFeqb. destruct x as [s|s| |s m e]; simpl; auto;
    destruct s; try discriminate.
  - change (match lex_opp e e m m with Eq => true | _ => false end = false
            -> S754_finite true m e = S754_nan).
    assert (H : lex_opp e e m m = Eq) by (apply FloatOrder.lex_opp_Eq; auto).
    rewrite H. discriminate.
  - change (match lex e e m m with Eq => true | _ => false end = false
            -> S754_finite false m e = S754_nan).
    assert (H : lex e e m m = Eq) by (apply FloatOrder.lex_Eq; auto).
    rewrite H. discriminate.
Qed.

Lemma is_nan_spec (x : float) : is_nan x = true <-> Prim2SF x = S754_nan.
Proof.
  unfold is_nan. rewrite eqb_spec, negb_true_iff. split.
  - apply SFeqb_refl_false.
  - intros ->. reflexivity.
Qed.

(** nothing is below a NaN, and a NaN is below nothing *)
Lemma ltb_nan_r (x y : float) : is_nan x = true -> (y <? x)%float = false.
Proof.
  intros H. apply is_nan_spec in H. rewrite ltb_spec, H.
  unfold SFltb. destruct (Prim2SF y); reflexivity.
Qed.

Lemma ltb_nan_l (x y : float) : is_nan x = true -> (x <? y)%float = false.
Proof.
  intros H. apply is_nan_spec in H. rewrite ltb_spec, H. reflexivity.
Qed.

Lemma ltb_not_nan_l (x y : float) : (x <? y)%float = true -> is_nan x = false.
Proof.
  intros H. destruct (is_nan x) eqn:N; auto.
  rewrite (ltb_nan_l x y N) in H. discriminate.
Qed.

Lemma ltb_not_nan_r (x y : float) : (x <? y)%float = true -> is_nan y = false.
Proof.
  intros H. destruct (is_nan y) eqn:N; auto.
  rewrite (ltb_nan_r y x N) in H. discriminate.
Qed.

Lemma mul_nan_r (x y : float) : is_nan y = true -> is_nan (x * y) = true.
Proof.
  intros H. apply is_nan_spec in H. apply is_nan_spec.
  rewrite mul_spec, H. unfold SF64mul. destruct (Prim2SF x); reflexivity.
Qed.

Lemma add_nan_l (x y : float) : is_nan x = true -> is_nan (x + y) = true.
Proof.
  intros H. apply is_nan_spec in H. apply is_nan_spec.
  rewrite add_spec, H. reflexivity.
Qed.

Lemma sub_nan_r (x y : float) : is_nan y = true -> is_nan (x - y) = true.
Proof.
  intros H. apply is_nan_spec in H. apply is_nan_spec.
  rewrite sub_spec, H. unfold SF64sub. destruct (Prim2SF x); reflexivity.
Qed.

Lemma is_nan_false (x : float) : is_nan x = false <-> Prim2SF x <> S754_nan.
Proof.
  rewrite <- is_nan_spec. destruct (is_nan x); split; congruence.
Qed.

(** the order of two floats that are not NaN is decided, and reverses when
    they are exchanged *)
Lemma lex_antisym e1 e2 m1 m2 : lex e2 e1 m2 m1 = CompOpp (lex e1 e2 m1 m2).
Proof.
  unfold lex. change (Pos.compare_cont Eq m1 m2) with (m1 ?= m2)%positive.
  change (Pos.compare_cont Eq m2 m1) with (m2 ?= m1)%positive.
  rewrite (Z.compare_antisym e1 e2), (Pos.compare_antisym m1 m2).
  destruct (e1 ?= e2); reflexivity.
Qed.

Lemma lex_opp_antisym e1 e2 m1 m2 :
  lex_opp e2 e1 m2 m1 = CompOpp (lex_opp e1 e2 m1 m2).
Proof.
  unfold lex_opp. change (Pos.compare_cont Eq m1 m2) with (m1 ?= m2)%positive.
  change (Pos.compare_cont Eq m2 m1) with (m2 ?= m1)%positive.
  rewrite (Z.compare_antisym e1 e2), (Pos.compare_antisym m1 m2).
  destruct (e1 ?= e2); reflexivity.
Qed.

Lemma SFcompare_antisym (x y : spec_float) :
  SFcompare y x = option_map CompOpp (SFcompare x y).
Proof.
  destruct x as [sx|sx| |sx mx ex], y as [sy|sy| |sy my ey]; simpl;
    try reflexivity;
    repeat match goal with b : bool |- _ => destruct b end; try reflexivity;
    f_equal.
  - apply (lex_opp_antisym ex ey mx my).
  - apply (lex_antisym ex ey mx my).
Qed.

Lemma SFcompare_total (x y : spec_float) :
  x <> S754_nan -> y <> S754_nan -> exists c, SFcompare x y = Some c.
Proof.
  destruct x as [sx|sx| |sx mx ex], y as [sy|sy| |sy my ey]; simpl;
    intros Hx Hy; try congruence; eauto.
Qed.

(** of two floats that are not NaN, the one the other is not strictly below
    is below or equal to it *)
Lemma leb_of_not_ltb (x y : float) :
  is_nan x = false -> is_nan y = false ->
  (y <? x)%float = false -> (x <=? y)%float = true.
Proof.
  rewrite !is_nan_false, ltb_spec, leb_spec. unfold SFltb, SFleb.
  intros Hx Hy. destruct (SFcompare_total _ _ Hx Hy) as [c Hc].
  rewrite (SFcompare_antisym (Prim2SF x) (Prim2SF y)), Hc.
  destruct c; simpl; congruence.
Qed.

Lemma ltb_of_leb_neq (x y : float) :
  (x <=? y)%float = true -> (y =? x)%float = false -> (x <? y)%float = true.
Proof.
  rewrite eqb_spec, ltb_spec, leb_spec. unfold SFeqb, SFltb, SFleb.
  rewrite (SFcompare_antisym (Prim2SF x) (Prim2SF y)).
  destruct (SFcompare (Prim2SF x) (Prim2SF y)) as [[]|]; simpl; congruence.
Qed.

End FloatNaN.

(** ** The constructor *)

Section InitProps.
Context {E : Externals}.

Lemma dict_get_Ok {V} (d : dict V) (k : string) (v : V) :
  dict_get d k = Ok v -> In (k, v) d.
Proof.
  induction d as [|[k' v'] d IH]; simpl; [discriminate|].
  destruct (String.eqb k' k) eqn:Hk.
  - apply String.eqb_eq in Hk. intros H. injection H as <-. subst. auto.
  - intros H. right. apply IH, H.
Qed.

Lemma dict_get_Raise {V} (d : dict V) (k : string) (e : exn) :
  dict_get d k = Raise e -> e = KeyError /\ forall v, ~ In (k, v) d.
Proof.
  induction d as [|[k' v'] d IH]; simpl.
  - intros H. injection H as <-. split; auto.
  - destruct (String.eqb k' k) eqn:Hk; [discriminate|].
    apply String.eqb_neq in Hk. intros H. destruct (IH H) as [-> Hno].
    split; auto. intros v [Heq | Hin]; [congruence | exact (Hno v Hin)].
Qed.

Lemma dict_get_total {V} (d : dict V) (k : string) :
  (exists v, dict_get d k = Ok v) \/ dict_get d k = Raise KeyError.
Proof.
  destruct (dict_get d k) as [v|e] eqn:H; [eauto|].
  right. apply dict_get_Raise in H. destruct H as [-> _]. reflexivity.
Qed.

(** X1. [__init__] fails exactly when [this_word] is not a key of one of the
    two dictionaries, and then with [KeyError].  When it succeeds, the
    instance holds the word's sequences and its (X, lengths) pair as the
    dictionaries give them, the two dictionaries themselves, and the
    configuration passed in. *)
Theorem init_looks_up_the_word
    (all_word_sequences : dict (list (list Frame)))
    (all_word_Xlengths : dict (list Frame * list Z)) (word : string)
    (n_const lo hi seed : Z) (verb : bool) :
  let made :=
    ModelSelector.init all_word_sequences all_word_Xlengths word
      n_const lo hi seed verb in
  (forall e, made = Raise e ->
     e = KeyError
     /\ ((forall seqs, ~ In (word, seqs) all_word_sequences)
         \/ (forall xl, ~ In (word, xl) all_word_Xlengths)))
  /\ (forall s, made = Ok s ->
        In (word, sequences s) all_word_sequences
        /\ In (word, (X s, lengths s)) all_word_Xlengths
        /\ dict_get all_word_sequences word = Ok (sequences s)
        /\ dict_get all_word_Xlengths word = Ok (X s, lengths s)
        /\ words s = all_word_sequences
        /\ hwords s = all_word_Xlengths
        /\ this_word s = word
        /\ n_constant s = n_const
        /\ min_n_components s = lo
        /\ max_n_components s = hi
        /\ random_state s = seed
        /\ verbose s = verb)
  /\ ((exists seqs, dict_get all_word_sequences word = Ok seqs) ->
      (exists xl, dict_get all_word_Xlengths word = Ok xl) ->
      exists s, made = Ok s).
Proof.
  intros made. subst made. unfold ModelSelector.init.
  split; [|split].
  - intros e H.
    destruct (dict_get all_word_sequences word) as [seqs|e1] eqn:H1.
    + destruct (dict_get all_word_Xlengths word) as [[x l]|e2] eqn:H2;
        [discriminate|].
      injection H as <-. apply dict_get_Raise in H2. destruct H2 as [-> Hno].
      auto.
    + injection H as <-. apply dict_get_Raise in H1. destruct H1 as [-> Hno].
      auto.
  - intros s H.
    destruct (dict_get all_word_sequences word) as [seqs|e1] eqn:H1;
      [|discriminate].
    destruct (dict_get all_word_Xlengths word) as [[x l]|e2] eqn:H2;
      [|discriminate].
    injection H as <-. cbn.
    repeat split; auto using dict_get_Ok.
  - intros [seqs H1] [[x l] H2]. rewrite H1, H2. eauto.
Qed.

End InitProps.

(** ** [base_model] *)

Section BaseModelProps.
Context {E : Externals}.

Lemma prints_app t1 t2 : prints (t1 ++ t2) = prints t1 ++ prints t2.
Proof.
  induction t1 as [|e t1 IH]; simpl; auto.
  destruct e; simpl; rewrite ?IH; reflexivity.
Qed.

(** X2. [base_model] never raises, whatever the trainer raises, and leaves
    the instance as it was.  It calls the trainer once, with [random_state]
    and the instance's current [X] and [lengths], and never the scorer.  It
    returns the fitted model, or [None] exactly when the trainer raised.
    With [verbose] it prints one message, of success or of failure
    accordingly, naming the word and the state count; without, none. *)
Theorem base_model_contract (num_states : Z) (s : Selector) :
  exists hmm_model t,
    ModelSelector.base_model num_states s = (Ok hmm_model, s, t)
    /\ (forall m,
          hmm_model = Some m
          <-> GaussianHMM_fit num_states (random_state s) (X s) (lengths s) = Ok m)
    /\ (hmm_model = None
        <-> exists e,
              GaussianHMM_fit num_states (random_state s) (X s) (lengths s)
              = Raise e)
    /\ fits t = [(num_states, random_state s, X s, lengths s)]
    /\ scorings t = []
    /\ stores t = []
    /\ prints t
       = if verbose s
         then [match hmm_model with
               | Some _ => EPrintCreated (this_word s) num_states
               | None => EPrintFailure (this_word s) num_states
               end]
         else [].
Proof.
  exists (trained s num_states), (base_model_trace s num_states).
  split; [apply base_model_run|].
  split; [intros m; apply trained_Some|].
  split; [apply trained_None|].
  split; [apply base_model_fits|].
  split; [apply base_model_scorings|].
  split; [apply base_model_stores|].
  unfold base_model_trace. cbn [prints].
  destruct (verbose s); [|reflexivity].
  destruct (trained s num_states); reflexivity.
Qed.

End BaseModelProps.

(** ** The BIC helpers *)

Section BICHelperProps.
Context {E : Externals}.

(** X3. The free-parameter count grows strictly with the number of states
    (for non-negative states and data points) and with the number of data
    points (for at least one state); it is non-negative from one state on,
    and it is -1 at zero states whatever the data. *)
Theorem calc_deg_lib_grows :
  (forall n1 n2 N, 0 <= n1 < n2 -> 0 <= N ->
     SelectorBIC.calc_deg_lib n1 N < SelectorBIC.calc_deg_lib n2 N)
  /\ (forall n N1 N2, 1 <= n -> N1 < N2 ->
        SelectorBIC.calc_deg_lib n N1 < SelectorBIC.calc_deg_lib n N2)
  /\ (forall n N, 1 <= n -> 0 <= N -> 0 <= SelectorBIC.calc_deg_lib n N)
  /\ (forall N, SelectorBIC.calc_deg_lib 0 N = -1).
Proof.
  unfold SelectorBIC.calc_deg_lib. repeat split; intros; try nia.
Qed.

(** X4. [calc_best_score_bic] raises [ValueError] on an empty list.  On a
    list that is not empty it returns one of its items: one whose score no
    item's score is strictly below, and the first of the list with that
    score. *)
Theorem calc_best_score_bic_first_minimum
    (score_bics : list (float * option Model)) :
  (score_bics = [] ->
   SelectorBIC.calc_best_score_bic score_bics = Raise ValueError)
  /\ (score_bics <> [] ->
      exists best pre post,
        SelectorBIC.calc_best_score_bic score_bics = Ok best
        /\ score_bics = pre ++ best :: post
        /\ (forall item, In item score_bics ->
              (fst item <? fst best)%float = false)
        /\ (forall item, In item pre ->
              (fst item =? fst best)%float = false)).
Proof.
  split; [intros ->; reflexivity|].
  destruct score_bics as [|e rest]; [congruence|]. intros _.
  unfold SelectorBIC.calc_best_score_bic, py_min. rewrite min_from_keep.
  exists (keep cv_better rest e).
  destruct (keep_first cv_better cv_better_trans cv_better_eq_l cv_better_eq_no
              rest e) as [H | (pre & post & Hr & Hpre & Hbet)].
  - exists [], rest. rewrite H. split; [reflexivity|]. split; [reflexivity|].
    split; [|intros item []].
    intros item [<- | Hin]; [apply FloatOrder.ltb_irrefl|].
    rewrite <- H.
    apply (keep_optimal cv_better cv_better_irrefl cv_better_trans
             cv_better_eq_l cv_better_eq_no rest e item Hin).
  - exists (e :: pre), post. split; [reflexivity|].
    split; [simpl; f_equal; exact Hr|]. split.
    + intros item [<- | Hin].
      * apply (keep_incumbent cv_better cv_better_irrefl cv_better_trans
                 cv_better_eq_l cv_better_eq_no rest e).
      * apply (keep_optimal cv_better cv_better_irrefl cv_better_trans
                 cv_better_eq_l cv_better_eq_no rest e item Hin).
    + intros item [<- | Hin]; [|apply Hpre, Hin].
      destruct (fst e =? fst (keep cv_better rest e))%float eqn:Heq; auto.
      rewrite (cv_better_eq_no _ _ Heq) in Hbet. discriminate.
Qed.

End BICHelperProps.

(** ** NaN scores *)

Section NaNProps.
Context {E : Externals}.

Lemma range_empty (lo stop : Z) : stop <= lo -> range lo stop = [].
Proof.
  intros H. unfold range. replace (Z.to_nat (stop - lo)) with 0%nat by lia.
  reflexivity.
Qed.

Lemma range_app (lo n stop : Z) :
  lo <= n <= stop -> range lo stop = range lo n ++ range n stop.
Proof.
  intros H. remember (Z.to_nat (n - lo)) as d eqn:Hd. revert lo H Hd.
  induction d as [|d IH]; intros lo H Hd.
  - assert (lo = n) as -> by lia. rewrite (range_empty n n) by lia. reflexivity.
  - rewrite (range_cons lo stop), (range_cons lo n) by lia.
    simpl. f_equal. apply IH; lia.
Qed.

Lemma min_from_nan (e : float * option Model) rest :
  is_nan (fst e) = true -> min_from fst e rest = e.
Proof.
  intros H. induction rest as [|x rest IH]; simpl; auto.
  rewrite (FloatNaN.ltb_nan_r (fst e) (fst x) H). exact IH.
Qed.

Lemma flat_map_kept_none {A B} (f : A -> result B) (xs : list A) :
  (forall x v, In x xs -> f x <> Ok v) ->
  flat_map (fun x => kept (f x)) xs = [].
Proof.
  induction xs as [|a xs IH]; intros H; simpl; auto.
  rewrite IH by (intros x v Hx; apply H; right; exact Hx).
  destruct (f a) as [v|e] eqn:Hfa; [|reflexivity].
  exfalso. apply (H a v); [left; reflexivity | exact Hfa].
Qed.

(** X5. A NaN log-likelihood makes the BIC score NaN, and [min] never
    replaces a NaN it holds.  So if the first candidate of the range that is
    scored at all has a NaN log-likelihood, [SelectorBIC.select()] returns
    that candidate's model, whatever the scores of the candidates after
    it. *)
Theorem bic_nan_score_wins (s : Selector) (n : Z) (m : Model)
    (log_likelihood ln p : float) :
  min_n_components s <= n <= max_n_components s ->
  (forall n' sc m', min_n_components s <= n' < n -> ~ bic_scored s n' sc m') ->
  GaussianHMM_fit n (random_state s) (X s) (lengths s) = Ok m ->
  Model_score m (X s) (lengths s) = Ok log_likelihood ->
  np_log (sum (lengths s)) = Ok ln ->
  float_of_int (SelectorBIC.calc_deg_lib n (sum (lengths s))) = Ok p ->
  is_nan log_likelihood = true ->
  exists score_bic t,
    bic_scored s n score_bic m
    /\ is_nan score_bic = true
    /\ SelectorBIC.select s = (Ok (Some m), s, t).
Proof.
  intros Hn Hbefore Hfit Hscore Hln Hp Hnan.
  set (sc := ((-2) * log_likelihood + p * ln)%float).
  assert (Hsc : bic_scored s n sc m).
  { split; [exact Hfit|]. exists log_likelihood, ln, p. auto. }
  exists sc, (EFilterWarnings :: bic_search_trace s).
  split; [exact Hsc|]. split.
  { apply FloatNaN.add_nan_l, FloatNaN.mul_nan_r, Hnan. }
  rewrite bic_select_run. f_equal. f_equal. f_equal.
  unfold bic_entries.
  rewrite (range_app (min_n_components s) n (max_n_components s + 1)) by lia.
  rewrite flat_map_app, flat_map_kept_none.
  - rewrite (range_cons n) by lia. cbn [flat_map app].
    assert (Hr : bic_result s n = Ok (sc, Some m)).
    { apply bic_result_scored. eauto. }
    rewrite Hr. cbn [kept app bic_pick].
    rewrite min_from_nan; [reflexivity|].
    apply FloatNaN.add_nan_l, FloatNaN.mul_nan_r, Hnan.
  - intros n' [sc' om] Hin Hr. apply range_In in Hin.
    apply bic_result_scored in Hr. destruct Hr as (m' & _ & Hs').
    apply (Hbefore n' sc' m'); [lia | exact Hs'].
Qed.

(** X6. [SelectorDIC] and [SelectorCV] never keep a candidate whose score is
    NaN: such a candidate leaves the incumbent in place, and the model a
    search without failure returns has a score that is not NaN and is
    strictly above minus infinity (DIC), strictly below plus infinity
    (CV). *)
Theorem dic_cv_never_keep_nan (s : Selector) :
  let lo := min_n_components s in
  let hi := max_n_components s in
  (forall n best score model s' t,
     SelectorDIC.dic_score n s = (Ok (score, model), s', t) ->
     is_nan score = true ->
     SelectorDIC.step n best s = (Ok best, s', t))
  /\ (forall n best score model s' t,
        SelectorCV.cv_score n s = (Ok (score, model), s', t) ->
        is_nan score = true ->
        SelectorCV.step n best s = (Ok best, s', t))
  /\ ((forall n, lo <= n <= hi -> exists d m, dic_scored s n d m) ->
      forall m t,
        SelectorDIC.select s = (Ok (Some m), s, t) ->
        exists n d,
          lo <= n <= hi /\ dic_scored s n d m
          /\ is_nan d = false /\ (neg_infinity <? d)%float = true)
  /\ ((forall n, lo <= n <= hi -> exists avg m, cv_scored s n avg m) ->
      forall m s' t,
        SelectorCV.select s = (Ok (Some m), s', t) ->
        exists n avg,
          lo <= n <= hi /\ cv_scored s n avg m
          /\ is_nan avg = false /\ (avg <? infinity)%float = true).
Proof.
  intros lo hi. split; [|split; [|split]].
  - intros n [best_score best_model] score model s' t H Hnan.
    unfold SelectorDIC.step, bind. rewrite H.
    rewrite (FloatNaN.ltb_nan_r score best_score Hnan). unfold ret.
    rewrite app_nil_r. reflexivity.
  - intros n [best_score best_model] score model s' t H Hnan.
    unfold SelectorCV.step, bind. rewrite H.
    rewrite (FloatNaN.ltb_nan_l score best_score Hnan). unfold ret.
    rewrite app_nil_r. reflexivity.
  - intros Hall m t H.
    destruct (dic_select_no_failure s Hall) as (best & t' & Hrun & _ & Hsome).
    rewrite Hrun in H. injection H as -> _.
    destruct (Hsome m eq_refl) as (n & d & Hn & Hs & Hb & _).
    exists n, d. split; [exact Hn|]. split; [exact Hs|].
    split; [apply (FloatNaN.ltb_not_nan_r _ _ Hb) | exact Hb].
  - intros Hall m s' t H.
    destruct (cv_select_no_failure s Hall) as (best & s2 & t' & Hrun & _ & Hsome).
    rewrite Hrun in H. injection H as -> _ _.
    destruct (Hsome m eq_refl) as (n & avg & Hn & Hs & Hb & _).
    exists n, avg. split; [exact Hn|]. split; [exact Hs|].
    split; [apply (FloatNaN.ltb_not_nan_l _ _ Hb) | exact Hb].
Qed.

End NaNProps.

(** ** Edges of the search *)

Section EdgeProps.
Context {E : Externals}.

(** X7. With [max_n_components] below [min_n_components] the range is empty:
    the BIC, DIC and CV selectors return [None] without calling the trainer
    or the scorer and leave the instance as it was; DIC and CV do not fall
    back to [n_constant], since nothing failed. *)
Theorem empty_range_selects_nothing (s : Selector) :
  max_n_components s < min_n_components s ->
  SelectorBIC.select s = (Ok None, s, [EFilterWarnings])
  /\ SelectorDIC.select s = (Ok None, s, [EFilterWarnings])
  /\ SelectorCV.select s = (Ok None, s, [EFilterWarnings]).
Proof.
  intros H.
  assert (Hr : range (min_n_components s) (max_n_components s + 1) = [])
    by (apply range_empty; lia).
  split; [|split].
  - rewrite bic_select_run. unfold bic_entries, bic_search_trace.
    rewrite Hr. reflexivity.
  - rewrite dic_select_run. unfold dic_search_result, dic_search_trace.
    rewrite Hr. reflexivity.
  - rewrite cv_select_run. unfold cv_search_result, cv_search_trace.
    rewrite Hr. reflexivity.
Qed.

(** X8. When the splitter itself raises, as [KFold(n_splits=2)] does on
    fewer than two sequences, and the range is not empty,
    [SelectorCV.select()] has stored nothing: it leaves the instance as it
    was, its only training call is the one at [n_constant] on the word's own
    data, and it returns what [SelectorConstant.select()] returns. *)
Theorem cv_split_failure_is_constant (s : Selector) (e : exn) :
  min_n_components s <= max_n_components s ->
  KFold_split 2 (length (sequences s)) = Raise e ->
  exists fallback t t0,
    SelectorCV.select s = (Ok fallback, s, t)
    /\ SelectorConstant.select s = (Ok fallback, s, t0)
    /\ fits t = [(n_constant s, random_state s, X s, lengths s)]
    /\ scorings t = []
    /\ stores t = [].
Proof.
  intros Hr Hk.
  assert (Hrun : forall n, cv_run s n = (Raise e, [])).
  { intros n. unfold cv_run. rewrite Hk. reflexivity. }
  exists (trained s (n_constant s)),
    (EFilterWarnings :: base_model_trace s (n_constant s)),
    (base_model_trace s (n_constant s)).
  split; [|split; [apply constant_run|]].
  - rewrite cv_select_run. unfold cv_search_result, cv_search_trace.
    rewrite range_cons by lia. cbn [map track_all trace_until].
    rewrite Hrun. reflexivity.
  - cbn [fits scorings stores].
    rewrite base_model_fits, base_model_scorings, base_model_stores. auto.
Qed.

Lemma bic_trace_scorings s n :
  scorings (bic_trace s n)
  = match GaussianHMM_fit n (random_state s) (X s) (lengths s) with
    | Ok m => [(m, X s, lengths s)]
    | Raise _ => []
    end.
Proof.
  unfold bic_trace. rewrite scorings_app, base_model_scorings. unfold trained.
  destruct (GaussianHMM_fit n (random_state s) (X s) (lengths s)); reflexivity.
Qed.

(** X9. [SelectorBIC.select()] trains every state count of the range once,
    in increasing order, on the word's own [X] and [lengths], whether or not
    an earlier candidate failed, and scores each candidate that trained
    exactly once, on the same data; a candidate that did not train is not
    scored; and it never stores to [self.X] or [self.lengths]. *)
Theorem bic_select_scoring_calls (s : Selector) :
  exists best t,
    SelectorBIC.select s = (Ok best, s, t)
    /\ fits t
       = map (fun n => (n, random_state s, X s, lengths s))
           (range (min_n_components s) (max_n_components s + 1))
    /\ scorings t
       = flat_map
           (fun n =>
              match GaussianHMM_fit n (random_state s) (X s) (lengths s) with
              | Ok m => [(m, X s, lengths s)]
              | Raise _ => []
              end)
           (range (min_n_components s) (max_n_components s + 1))
    /\ stores t = [].
Proof.
  rewrite bic_select_run. eexists _, _. split; [reflexivity|].
  cbn [fits scorings stores]. unfold bic_search_trace.
  split; [apply bic_search_fits|]. split.
  - induction (range (min_n_components s) (max_n_components s + 1))
      as [|n xs IH]; [reflexivity|].
    cbn [flat_map]. rewrite scorings_app, bic_trace_scorings, IH. reflexivity.
  - apply flat_map_no_store, bic_trace_stores.
Qed.

End EdgeProps.

(** ** The calls of a search without failure *)

Section CallProps.
Context {E : Externals}.

Lemma trace_until_all_ok {A} (res : A -> candidate_result)
    (tr : A -> list Event) (xs : list A) :
  (forall x, In x xs -> exists v, res x = Ok v) ->
  trace_until res tr xs = flat_map tr xs.
Proof.
  induction xs as [|a xs IH]; intros H; [reflexivity|].
  cbn [trace_until flat_map].
  destruct (H a (or_introl eq_refl)) as [v ->].
  rewrite IH; [reflexivity|]. intros x Hx. apply H. right. exact Hx.
Qed.

Lemma scan_others_scorings s m hw acc scores t :
  scan (dic_other_step s (Some m)) hw acc = (Ok scores, t) ->
  scorings t
  = map (fun item => (m, fst (snd item), snd (snd item)))
      (filter (fun item => negb (String.eqb (fst item) (this_word s))) hw).
Proof.
  revert acc scores t. induction hw as [|[word [x l]] hw IH]; intros acc scores t H.
  - simpl in H. injection H as _ <-. reflexivity.
  - cbn [scan dic_other_step filter fst snd] in *.
    destruct (negb (String.eqb word (this_word s))).
    + destruct (Model_score m x l) as [sc|e]; [|discriminate].
      destruct (scan _ hw (acc ++ [sc])) as [r t'] eqn:Hs.
      injection H as -> <-. cbn [map app scorings fst snd]. f_equal.
      eapply IH. exact Hs.
    + destruct (scan _ hw acc) as [r t'] eqn:Hs.
      injection H as -> <-. cbn [app]. eapply IH. exact Hs.
Qed.

Lemma dic_run_scorings s n d m :
  dic_scored s n d m ->
  scorings (snd (dic_run s n))
  = map (fun item => (m, fst (snd item), snd (snd item))) (other_words s)
    ++ [(m, X s, lengths s)].
Proof.
  intros Hs.
  assert (Hr : fst (dic_run s n) = Ok (d, Some m))
    by (apply dic_run_scored; eauto).
  destruct Hs as [Hfit _]. apply trained_Some in Hfit.
  unfold dic_run in *. rewrite Hfit in *.
  destruct (scan (dic_other_step s (Some m)) (hwords s) [])
    as [[scores|e] t] eqn:Hscan; cbn [fst snd] in *; [|discriminate].
  rewrite !scorings_app, base_model_scorings.
  rewrite (scan_others_scorings s m (hwords s) [] scores t Hscan).
  reflexivity.
Qed.

(** X10. When no candidate fails, [SelectorDIC.select()] trains each state
    count of the range once, in increasing order, on the word's own data,
    and scores each model on every other word of the index, in the order of
    the index, and then on this word; it stores nothing. *)
Theorem dic_select_calls (s : Selector) :
  (forall n, min_n_components s <= n <= max_n_components s ->
     exists d m, dic_scored s n d m) ->
  exists best t,
    SelectorDIC.select s = (Ok best, s, t)
    /\ fits t
       = map (fun n => (n, random_state s, X s, lengths s))
           (range (min_n_components s) (max_n_components s + 1))
    /\ scorings t
       = flat_map
           (fun n =>
              match GaussianHMM_fit n (random_state s) (X s) (lengths s) with
              | Ok m =>
                  map (fun item => (m, fst (snd item), snd (snd item)))
                    (other_words s)
                  ++ [(m, X s, lengths s)]
              | Raise _ => []
              end)
           (range (min_n_components s) (max_n_components s + 1))
    /\ stores t = [].
Proof.
  intros Hall.
  destruct (dic_select_no_failure s Hall) as (best & t & Hrun & _).
  exists best, t. split; [exact Hrun|].
  assert (Ht : t = EFilterWarnings :: dic_search_trace s).
  { rewrite dic_select_run in Hrun.
    destruct (dic_search_result s) eqn:Hres.
    - injection Hrun as _ <-. reflexivity.
    - exfalso. unfold dic_search_result in Hres.
      rewrite (map_all_kept (fun n => fst (dic_run s n))) in Hres.
      + rewrite track_all_Ok in Hres. discriminate.
      + intros n Hn. apply range_closed in Hn.
        destruct (Hall n Hn) as (d & m & Hs). exists (d, Some m).
        apply dic_run_scored. eauto. }
  assert (Htr : dic_search_trace s
                = flat_map (fun n => snd (dic_run s n))
                    (range (min_n_components s) (max_n_components s + 1))).
  { apply trace_until_all_ok. intros n Hn. apply range_closed in Hn.
    destruct (Hall n Hn) as (d & m & Hs). exists (d, Some m).
    apply dic_run_scored. eauto. }
  rewrite Ht, Htr. cbn [fits scorings stores].
  split; [apply dic_trace_fits|]. split.
  - assert (Hin : forall n,
              In n (range (min_n_components s) (max_n_components s + 1)) ->
              exists d m, dic_scored s n d m).
    { intros n Hn. apply Hall, range_closed, Hn. }
    clear Ht Htr Hrun.
    induction (range (min_n_components s) (max_n_components s + 1))
      as [|n xs IH]; [reflexivity|].
    cbn [flat_map]. rewrite scorings_app.
    destruct (Hin n (or_introl eq_refl)) as (d & m & Hs).
    rewrite (dic_run_scorings s n d m Hs).
    destruct Hs as [Hfit _]. rewrite Hfit.
    rewrite IH; [reflexivity|]. intros k Hk. apply Hin. right. exact Hk.
  - apply flat_map_no_store. intros n. apply dic_run_stores.
Qed.

Lemma cv_run_calls_scored s n avg m f1 f2 x1 l1 x2 l2 y1 k1 y2 k2 :
  cv_scored s n avg m ->
  KFold_split 2 (length (sequences s)) = Ok [f1; f2] ->
  combine_sequences (fst f1) (sequences s) = Ok (x1, l1) ->
  combine_sequences (fst f2) (sequences s) = Ok (x2, l2) ->
  combine_sequences (snd f1) (sequences s) = Ok (y1, k1) ->
  combine_sequences (snd f2) (sequences s) = Ok (y2, k2) ->
  fits (snd (cv_run s n))
  = [(n, random_state s, x1, l1); (n, random_state s, x2, l2)]
  /\ stores (snd (cv_run s n)) = [(x1, l1); (x2, l2)]
  /\ scorings (snd (cv_run s n)) = held_out_scorings s n x1 l1 x2 l2 y1 k1 y2 k2.
Proof.
  intros (g1 & g2 & m1 & sc1 & sc2 & Hk' & Hg1 & Hg2 & Hm) Hk H1 H2 H3 H4.
  rewrite Hk in Hk'. injection Hk' as <- <-.
  destruct Hg1 as (a1 & b1 & y1' & k1' & A1 & A2 & A3 & A4).
  destruct Hg2 as (a2 & b2 & y2' & k2' & B1 & B2 & B3 & B4).
  rewrite H1 in A1. injection A1 as <- <-.
  rewrite H2 in B1. injection B1 as <- <-.
  rewrite H3 in A3. injection A3 as <- <-.
  rewrite H4 in B3. injection B3 as <- <-.
  assert (Htr : snd (cv_run s n)
                = ((EStore x1 l1 :: base_model_trace (with_data s x1 l1) n)
                     ++ [EScore m1 y1 k1])
                  ++ ((EStore x2 l2 :: base_model_trace (with_data s x2 l2) n)
                        ++ [EScore m y2 k2]) ++ []).
  { unfold cv_run. rewrite Hk. cbn [scan].
    rewrite (cv_fold_step_trace s n f1 _ x1 l1 y1 k1 m1 sc1 H1 A2 H3 A4).
    rewrite (cv_fold_step_trace s n f2 _ x2 l2 y2 k2 m sc2 H2 B2 H4 B4).
    reflexivity. }
  rewrite Htr. split; [|split].
  - rewrite !fits_app. cbn [fits]. rewrite !base_model_fits. reflexivity.
  - rewrite !stores_app. cbn [stores]. rewrite !base_model_stores. reflexivity.
  - rewrite !scorings_app. cbn [scorings]. rewrite !base_model_scorings.
    unfold held_out_scorings. rewrite A2, B2. reflexivity.
Qed.

Lemma fold_stores_two (xs : list Z) (s0 : Selector) x1 l1 x2 l2 :
  xs <> [] ->
  fold_left (fun s' xl => with_data s' (fst xl) (snd xl))
    (flat_map (fun _ : Z => [(x1, l1); (x2, l2)]) xs) s0
  = with_data s0 x2 l2.
Proof.
  revert s0. induction xs as [|a xs IH]; intros s0 H; [congruence|].
  cbn [flat_map app fold_left fst snd].
  destruct xs as [|b xs]; [reflexivity|].
  rewrite IH by discriminate. reflexivity.
Qed.

(** X11. When no candidate fails and the range is not empty,
    [SelectorCV.select()] makes two training calls per state count, in
    increasing order: one on the combined training sequences of the first
    fold, one on those of the second, the same data for every state count;
    no training call of the search is on the word's own [X] and [lengths]
    unless a fold's training data equal them.  Each of the two models is
    scored once, on the combined held-out sequences of its own fold.  The
    second fold's training data are left in [self.X, self.lengths]. *)
Theorem cv_select_calls (s : Selector) f1 f2 x1 l1 x2 l2 y1 k1 y2 k2 :
  min_n_components s <= max_n_components s ->
  KFold_split 2 (length (sequences s)) = Ok [f1; f2] ->
  combine_sequences (fst f1) (sequences s) = Ok (x1, l1) ->
  combine_sequences (fst f2) (sequences s) = Ok (x2, l2) ->
  combine_sequences (snd f1) (sequences s) = Ok (y1, k1) ->
  combine_sequences (snd f2) (sequences s) = Ok (y2, k2) ->
  (forall n, min_n_components s <= n <= max_n_components s ->
     exists avg m, cv_scored s n avg m) ->
  exists best t,
    SelectorCV.select s = (Ok best, with_data s x2 l2, t)
    /\ fits t
       = flat_map
           (fun n => [(n, random_state s, x1, l1); (n, random_state s, x2, l2)])
           (range (min_n_components s) (max_n_components s + 1))
    /\ scorings t
       = flat_map (fun n => held_out_scorings s n x1 l1 x2 l2 y1 k1 y2 k2)
           (range (min_n_components s) (max_n_components s + 1))
    /\ stores t
       = flat_map (fun _ => [(x1, l1); (x2, l2)])
           (range (min_n_components s) (max_n_components s + 1)).
Proof.
  intros Hr Hk H1 H2 H3 H4 Hall.
  assert (Hok : forall n,
            In n (range (min_n_components s) (max_n_components s + 1)) ->
            exists v, fst (cv_run s n) = Ok v).
  { intros n Hn. apply range_closed in Hn.
    destruct (Hall n Hn) as (avg & m & Hs). exists (avg, Some m).
    apply cv_run_scored. eauto. }
  assert (Hcalls : forall n,
            In n (range (min_n_components s) (max_n_components s + 1)) ->
            fits (snd (cv_run s n))
            = [(n, random_state s, x1, l1); (n, random_state s, x2, l2)]
            /\ stores (snd (cv_run s n)) = [(x1, l1); (x2, l2)]
            /\ scorings (snd (cv_run s n))
               = held_out_scorings s n x1 l1 x2 l2 y1 k1 y2 k2).
  { intros n Hn. apply range_closed in Hn.
    destruct (Hall n Hn) as (avg & m & Hs).
    apply (cv_run_calls_scored s n avg m f1 f2 x1 l1 x2 l2 y1 k1 y2 k2
             Hs Hk H1 H2 H3 H4). }
  assert (Htr : cv_search_trace s
                = flat_map (fun n => snd (cv_run s n))
                    (range (min_n_components s) (max_n_components s + 1)))
    by (apply trace_until_all_ok, Hok).
  assert (Hfits : fits (cv_search_trace s)
                  = flat_map
                      (fun n => [(n, random_state s, x1, l1);
                                 (n, random_state s, x2, l2)])
                      (range (min_n_components s) (max_n_components s + 1))).
  { rewrite Htr. clear Htr Hok.
    induction (range (min_n_components s) (max_n_components s + 1))
      as [|n xs IH]; [reflexivity|].
    cbn [flat_map]. rewrite fits_app.
    rewrite (proj1 (Hcalls n (or_introl eq_refl))).
    rewrite IH; [reflexivity|]. intros k Hk'. apply Hcalls. right. exact Hk'. }
  assert (Hstores : stores (cv_search_trace s)
                    = flat_map (fun _ => [(x1, l1); (x2, l2)])
                        (range (min_n_components s) (max_n_components s + 1))).
  { rewrite Htr. clear Htr Hok Hfits.
    induction (range (min_n_components s) (max_n_components s + 1))
      as [|n xs IH]; [reflexivity|].
    cbn [flat_map]. rewrite stores_app.
    rewrite (proj1 (proj2 (Hcalls n (or_introl eq_refl)))).
    rewrite IH; [reflexivity|]. intros k Hk'. apply Hcalls. right. exact Hk'. }
  assert (Hscorings : scorings (cv_search_trace s)
                      = flat_map
                          (fun n => held_out_scorings s n x1 l1 x2 l2 y1 k1 y2 k2)
                          (range (min_n_components s) (max_n_components s + 1))).
  { rewrite Htr. clear Htr Hok Hfits Hstores.
    induction (range (min_n_components s) (max_n_components s + 1))
      as [|n xs IH]; [reflexivity|].
    cbn [flat_map]. rewrite scorings_app.
    rewrite (proj2 (proj2 (Hcalls n (or_introl eq_refl)))).
    rewrite IH; [reflexivity|]. intros k Hk'. apply Hcalls. right. exact Hk'. }
  assert (Hrep : replay (cv_search_trace s) s = with_data s x2 l2).
  { unfold replay. rewrite Hstores. apply fold_stores_two.
    apply range_nonempty, Hr. }
  rewrite cv_select_run. unfold cv_search_result.
  rewrite (map_all_kept (fun n => fst (cv_run s n))) by exact Hok.
  rewrite track_all_Ok, Hrep.
  eexists _, _. split; [reflexivity|].
  cbn [fits scorings stores]. auto.
Qed.

(** X16. When the index holds no other word, every DIC is the word's
    log-likelihood minus the mean of an empty list.  If that mean is NaN, as
    [np.mean] makes it, and every candidate of the range trains and is
    scored on the word, [SelectorDIC.select()] returns [None]: no candidate
    fails, so there is no fallback to [n_constant] either. *)
Theorem dic_single_word_selects_nothing (s : Selector) (mean : float) :
  other_words s = [] ->
  np_mean [] = Ok mean ->
  is_nan mean = true ->
  (forall n, min_n_components s <= n <= max_n_components s ->
     exists m own,
       GaussianHMM_fit n (random_state s) (X s) (lengths s) = Ok m
       /\ Model_score m (X s) (lengths s) = Ok own) ->
  exists t,
    SelectorDIC.select s = (Ok None, s, t)
    /\ fits t
       = map (fun n => (n, random_state s, X s, lengths s))
           (range (min_n_components s) (max_n_components s + 1)).
Proof.
  intros Hothers Hmean Hnan Hall.
  assert (Hscored : forall n,
            min_n_components s <= n <= max_n_components s ->
            exists d m, dic_scored s n d m).
  { intros n Hn. destruct (Hall n Hn) as (m & own & Hfit & Hown).
    exists (own - mean)%float, m. split; [exact Hfit|].
    exists own, [], mean. rewrite Hothers. auto. }
  assert (Hfail : forall n,
            In n (range (min_n_components s) (max_n_components s + 1)) ->
            exists v, fst (dic_run s n) = Ok v).
  { intros n Hn. apply range_closed in Hn.
    destruct (Hscored n Hn) as (d & m & Hs). exists (d, Some m).
    apply dic_run_scored. eauto. }
  destruct (dic_select_no_failure s Hscored) as (best & t & Hrun & Hnone & _).
  assert (Hbest : best = None).
  { apply Hnone. intros n d m _ (_ & own & others & mean' & _ & Hmap & Hm & ->).
    rewrite Hothers in Hmap. destruct others; [|discriminate].
    rewrite Hmean in Hm. injection Hm as <-.
    apply FloatNaN.ltb_nan_r, FloatNaN.sub_nan_r, Hnan. }
  subst best. exists t. split; [exact Hrun|].
  rewrite dic_select_run in Hrun. unfold dic_search_result in Hrun.
  rewrite (map_all_kept (fun n => fst (dic_run s n))) in Hrun by exact Hfail.
  rewrite track_all_Ok in Hrun. injection Hrun as _ <-.
  cbn [fits]. unfold dic_search_trace.
  rewrite trace_until_all_ok by exact Hfail. apply dic_trace_fits.
Qed.

End CallProps.

(** ** What [SelectorCV] reads *)

Section RepeatProps.
Context {E : Externals}.

Lemma cv_run_same_config s s' n : same_config s s' -> cv_run s' n = cv_run s n.
Proof. unfold same_config. intros ->. reflexivity. Qed.

Lemma cv_search_result_same_config s s' :
  same_config s s' -> cv_search_result s' = cv_search_result s.
Proof. unfold same_config. intros ->. reflexivity. Qed.

Lemma cv_search_trace_same_config s s' :
  same_config s s' -> cv_search_trace s' = cv_search_trace s.
Proof. unfold same_config. intros ->. reflexivity. Qed.

Lemma same_config_n_constant s s' :
  same_config s s' -> n_constant s' = n_constant s.
Proof. unfold same_config. intros ->. reflexivity. Qed.

Lemma replay_same_config t s s' :
  stores t <> [] -> same_config s s' -> replay t s' = replay t s.
Proof.
  intros Hne Hs.
  destruct (exists_last Hne) as (st & [x l] & Hst).
  assert (H : forall s0, same_config s s0 -> replay t s0 = with_data s x l).
  { intros s0 H0.
    assert (Hl : last (map Some (stores t)) None = Some (x, l)).
    { rewrite Hst, map_app. cbn [map]. apply last_last. }
    rewrite (replay_last t s0 x l Hl). apply with_data_same_config, H0. }
  rewrite (H s' Hs), (H s (same_config_refl s)). reflexivity.
Qed.

Lemma replay_idem t s : replay t (replay t s) = replay t s.
Proof.
  destruct (stores t) as [|xl st] eqn:Hst.
  - rewrite !replay_no_store by exact Hst. reflexivity.
  - apply replay_same_config; [rewrite Hst; discriminate|].
    apply same_config_replay, same_config_refl.
Qed.

Lemma cv_select_same_config s s' :
  same_config s s' ->
  replay (cv_search_trace s) s' = replay (cv_search_trace s) s ->
  SelectorCV.select s' = SelectorCV.select s.
Proof.
  intros Hs Hrep. rewrite !cv_select_run.
  rewrite (cv_search_result_same_config s s' Hs),
    (cv_search_trace_same_config s s' Hs),
    (same_config_n_constant s s' Hs), Hrep.
  reflexivity.
Qed.

Lemma cv_select_stores s :
  stores (snd (SelectorCV.select s)) = stores (cv_search_trace s).
Proof.
  rewrite cv_select_run. destruct (cv_search_result s); cbn [snd stores].
  - reflexivity.
  - rewrite stores_app, base_model_stores, app_nil_r. reflexivity.
Qed.

Lemma cv_select_final s :
  snd (fst (SelectorCV.select s)) = replay (cv_search_trace s) s.
Proof. rewrite cv_select_run. destruct (cv_search_result s); reflexivity. Qed.

(** X12. [SelectorCV.select()] can be called again on the instance it has
    modified: the second call returns the same model, makes the same calls
    and leaves the same instance.  And once the search has stored at least
    one fold, nothing of what it does depends on the [X] and [lengths] the
    instance held at the call, the fallback included: it reads
    [self.sequences] only. *)
Theorem cv_select_reads_sequences_only (s : Selector) :
  SelectorCV.select (snd (fst (SelectorCV.select s))) = SelectorCV.select s
  /\ forall x l,
       stores (snd (SelectorCV.select s)) <> [] ->
       SelectorCV.select (with_data s x l) = SelectorCV.select s.
Proof.
  split.
  - rewrite cv_select_final at 1. apply cv_select_same_config.
    + apply same_config_replay, same_config_refl.
    + apply replay_idem.
  - intros x l Hne. rewrite cv_select_stores in Hne.
    assert (Hs : same_config s (with_data s x l))
      by (apply same_config_with_data, same_config_refl).
    apply cv_select_same_config; [exact Hs|].
    apply replay_same_config; assumption.
Qed.

End RepeatProps.

(** ** Failures *)

Section FailureProps.
Context {E : Externals}.

Lemma scan_others_none s hw acc :
  scan (dic_other_step s None) hw acc = (Ok acc, [])
  \/ scan (dic_other_step s None) hw acc = (Raise AttributeError, []).
Proof.
  induction hw as [|[word [x l]] hw IH]; [left; reflexivity|].
  cbn [scan dic_other_step].
  destruct (negb (String.eqb word (this_word s))); [right; reflexivity|].
  destruct IH as [-> | ->]; auto.
Qed.

(** X13. The exception of the trainer is never the one a candidate fails
    with: [base_model] swallows it and returns [None], and the candidate
    fails at its first use of the model with [AttributeError], before any
    scoring call.  So it is for the [try] body of [SelectorBIC.select()],
    for [dic_score] and, with the data of the first fold, for [cv_score],
    which has by then stored that fold's training data. *)
Theorem training_failure_is_attribute_error (s : Selector) (n : Z) :
  (forall e,
     GaussianHMM_fit n (random_state s) (X s) (lengths s) = Raise e ->
     (exists t, SelectorBIC.candidate n s = (Raise AttributeError, s, t)
                /\ scorings t = [])
     /\ (exists t, SelectorDIC.dic_score n s = (Raise AttributeError, s, t)
                   /\ scorings t = []))
  /\ (forall fold folds x l y k e,
        KFold_split 2 (length (sequences s)) = Ok (fold :: folds) ->
        combine_sequences (fst fold) (sequences s) = Ok (x, l) ->
        combine_sequences (snd fold) (sequences s) = Ok (y, k) ->
        GaussianHMM_fit n (random_state s) x l = Raise e ->
        exists t,
          SelectorCV.cv_score n s = (Raise AttributeError, with_data s x l, t)
          /\ fits t = [(n, random_state s, x, l)]
          /\ scorings t = []).
Proof.
  split.
  - intros e Hfit.
    assert (Ht : trained s n = None) by (apply trained_None; eauto).
    split.
    + rewrite bic_candidate_run. unfold bic_result, bic_trace. rewrite Ht.
      eexists. split; [reflexivity|].
      rewrite scorings_app, base_model_scorings. reflexivity.
    + rewrite dic_score_run. unfold dic_run. rewrite Ht.
      destruct (scan_others_none s (hwords s) []) as [-> | ->];
        cbn [fst snd]; eexists; (split; [reflexivity|]);
        rewrite scorings_app, base_model_scorings; reflexivity.
  - intros [tr te] folds x l y k e Hk Hx Hy Hfit. cbn [fst snd] in *.
    rewrite (cv_score_run n s s (same_config_refl s)).
    assert (Hrun : cv_run s n
                   = (Raise AttributeError,
                      EStore x l :: base_model_trace (with_data s x l) n)).
    { unfold cv_run. rewrite Hk. cbn [scan]. unfold cv_fold_step.
      rewrite Hx, Hy, trained_with_data, Hfit. reflexivity. }
    rewrite Hrun. cbn [fst snd]. eexists. split; [|split].
    + f_equal. f_equal. unfold replay. cbn [stores].
      rewrite base_model_stores. reflexivity.
    + cbn [fits]. rewrite base_model_fits. reflexivity.
    + cbn [scorings]. apply base_model_scorings.
Qed.

(** X14. When a candidate of the range fails, [SelectorCV.select()] returns
    what the trainer gives at [n_constant] on the data the instance holds at
    that moment, and that is also its last training call.  These data are
    the last ones the search stored, the combined training sequences of one
    of the folds; they are the word's own only if the search stored
    nothing. *)
Theorem cv_fallback_uses_stored_data (s : Selector) (n : Z) :
  min_n_components s <= n <= max_n_components s ->
  cv_candidate_fails s n ->
  exists s' t,
    SelectorCV.select s
    = (Ok (match GaussianHMM_fit (n_constant s) (random_state s)
                   (X s') (lengths s') with
           | Ok m => Some m
           | Raise _ => None
           end), s', t)
    /\ same_config s s'
    /\ (exists calls,
          fits t
          = calls ++ [(n_constant s, random_state s, X s', lengths s')])
    /\ (stores t = [] -> s' = s)
    /\ (forall x l,
          last (map Some (stores t)) None = Some (x, l) ->
          X s' = x /\ lengths s' = l
          /\ exists folds fold,
               KFold_split 2 (length (sequences s)) = Ok folds
               /\ In fold folds
               /\ combine_sequences (fst fold) (sequences s) = Ok (x, l)).
Proof.
  intros Hn Hf. apply cv_candidate_fails_run in Hf. destruct Hf as [e He].
  destruct (track_all_Raise cv_better
              (map (fun n => fst (cv_run s n))
                 (range (min_n_components s) (max_n_components s + 1)))
              (infinity, None)) as [e' He'].
  { apply Exists_exists. exists (Raise e). split; [|reflexivity].
    apply in_map_iff. exists n. split; auto. apply range_closed, Hn. }
  set (s' := replay (cv_search_trace s) s).
  assert (Hs : same_config s s')
    by (apply same_config_replay, same_config_refl).
  assert (Hseed : random_state s' = random_state s)
    by (rewrite Hs; reflexivity).
  exists s',
    (EFilterWarnings :: cv_search_trace s ++ base_model_trace s' (n_constant s)).
  assert (Hst : stores (EFilterWarnings :: cv_search_trace s
                          ++ base_model_trace s' (n_constant s))
                = stores (cv_search_trace s)).
  { cbn [stores]. rewrite stores_app, base_model_stores, app_nil_r.
    reflexivity. }
  split; [|split; [exact Hs|split; [|split]]].
  - rewrite cv_select_run. unfold cv_search_result. rewrite He'.
    cbv zeta. fold s'. unfold trained. rewrite Hseed. reflexivity.
  - exists (fits (cv_search_trace s)). cbn [fits].
    rewrite fits_app, base_model_fits, Hseed. reflexivity.
  - rewrite Hst. intros H0. apply replay_no_store, H0.
  - rewrite Hst. intros x l Hl.
    assert (Hrep : s' = with_data s x l) by (apply replay_last, Hl).
    rewrite Hrep. split; [reflexivity|]. split; [reflexivity|].
    apply cv_search_stores.
    destruct (stores (cv_search_trace s)) as [|xl st] eqn:Hsts;
      [discriminate|].
    assert (Hne : xl :: st <> []) by discriminate.
    destruct (exists_last Hne) as (st' & xl' & Heq).
    rewrite Heq in Hl |- *. rewrite map_app in Hl. cbn [map] in Hl.
    rewrite last_last in Hl. injection Hl as ->.
    apply in_or_app. right. left. reflexivity.
Qed.

End FailureProps.

(** ** Messages *)

Section MessageProps.
Context {E : Externals}.

Lemma reports_nil v w : reports v w [].
Proof. unfold reports. destruct v; reflexivity. Qed.

Lemma reports_app v w t1 t2 :
  reports v w t1 -> reports v w t2 -> reports v w (t1 ++ t2).
Proof.
  unfold reports. intros H1 H2.
  rewrite prints_app, fits_app, map_app, H1, H2. destruct v; reflexivity.
Qed.

Lemma reports_base_model s n :
  reports (verbose s) (this_word s) (base_model_trace s n).
Proof.
  unfold reports, base_model_trace, trained, report.
  destruct (verbose s); cbn [prints fits map]; [|reflexivity].
  destruct (GaussianHMM_fit n (random_state s) (X s) (lengths s)); reflexivity.
Qed.

Lemma reports_score v w m x l : reports v w [EScore m x l].
Proof. unfold reports. destruct v; reflexivity. Qed.

Lemma reports_store v w x l t : reports v w t -> reports v w (EStore x l :: t).
Proof. unfold reports. cbn [prints fits]. auto. Qed.

Lemma reports_filter v w t : reports v w t -> reports v w (EFilterWarnings :: t).
Proof. unfold reports. cbn [prints fits]. auto. Qed.

Lemma reports_flat_map {A} v w (f : A -> list Event) xs :
  (forall x, reports v w (f x)) -> reports v w (flat_map f xs).
Proof.
  intros H. induction xs as [|x xs IH]; [apply reports_nil|].
  cbn [flat_map]. apply reports_app; auto.
Qed.

Lemma reports_trace_until {A} v w (res : A -> candidate_result)
    (tr : A -> list Event) xs :
  (forall x, reports v w (tr x)) -> reports v w (trace_until res tr xs).
Proof.
  intros H. induction xs as [|x xs IH]; [apply reports_nil|].
  cbn [trace_until]. destruct (res x); [apply reports_app|]; auto.
Qed.

Lemma reports_scan {A L} v w (g : A -> L -> result L * list Event) xs locals :
  (forall x l, reports v w (snd (g x l))) ->
  reports v w (snd (scan g xs locals)).
Proof.
  intros H. revert locals.
  induction xs as [|x xs IH]; intros locals; [apply reports_nil|].
  cbn [scan]. specialize (H x locals).
  destruct (g x locals) as [[l'|e] t]; cbn [snd] in *; [|exact H].
  specialize (IH l'). destruct (scan g xs l') as [r t']; cbn [snd] in *.
  apply reports_app; assumption.
Qed.

Lemma reports_bic_trace s n :
  reports (verbose s) (this_word s) (bic_trace s n).
Proof.
  unfold bic_trace. apply reports_app; [apply reports_base_model|].
  destruct (trained s n); [apply reports_score | apply reports_nil].
Qed.

Lemma reports_dic_run s n :
  reports (verbose s) (this_word s) (snd (dic_run s n)).
Proof.
  unfold dic_run.
  pose proof (reports_scan (verbose s) (this_word s)
                (dic_other_step s (trained s n)) (hwords s) []) as H.
  assert (Hstep : forall x l,
            reports (verbose s) (this_word s)
              (snd (dic_other_step s (trained s n) x l))).
  { intros [word [x l]] scores. unfold dic_other_step.
    destruct (negb (String.eqb word (this_word s))); [|apply reports_nil].
    destruct (trained s n); [apply reports_score | apply reports_nil]. }
  specialize (H Hstep).
  destruct (scan _ _ _) as [[scores|e] t]; cbn [snd] in *.
  - destruct (trained s n); cbn [snd];
      repeat apply reports_app;
      auto using reports_base_model, reports_score.
  - apply reports_app; auto using reports_base_model.
Qed.

Lemma reports_cv_fold_step s n fold locals :
  reports (verbose s) (this_word s) (snd (cv_fold_step s n fold locals)).
Proof.
  destruct fold as [tr te]. unfold cv_fold_step.
  destruct (combine_sequences tr (sequences s)) as [[x l]|e];
    [|apply reports_nil].
  assert (Hb : reports (verbose s) (this_word s)
                 (EStore x l :: base_model_trace (with_data s x l) n))
    by (apply reports_store, (reports_base_model (with_data s x l) n)).
  destruct (combine_sequences te (sequences s)) as [[y k]|e]; [|exact Hb].
  destruct (trained (with_data s x l) n); cbn [snd]; [|exact Hb].
  apply (reports_app _ _ _ [EScore m y k]); [exact Hb | apply reports_score].
Qed.

Lemma reports_cv_run s n :
  reports (verbose s) (this_word s) (snd (cv_run s n)).
Proof.
  unfold cv_run.
  destruct (KFold_split 2 (length (sequences s))) as [folds|e];
    [|apply reports_nil].
  pose proof (reports_scan (verbose s) (this_word s) (cv_fold_step s n) folds
                ([], None) (reports_cv_fold_step s n)) as H.
  destruct (scan _ _ _) as [[[scores mv]|e] t]; exact H.
Qed.

(** X15. Whatever the strategy, a [select()] prints after each of its
    training calls, and only then, when [verbose] is set: one message per
    call, in the order of the calls, naming the word and the state count,
    and saying that the model was created exactly when the trainer
    succeeded.  Without [verbose] it prints nothing. *)
Theorem select_reports_each_training (s : Selector) :
  reports (verbose s) (this_word s) (snd (SelectorConstant.select s))
  /\ reports (verbose s) (this_word s) (snd (SelectorBIC.select s))
  /\ reports (verbose s) (this_word s) (snd (SelectorDIC.select s))
  /\ reports (verbose s) (this_word s) (snd (SelectorCV.select s)).
Proof.
  split; [|split; [|split]].
  - rewrite constant_run. apply reports_base_model.
  - rewrite bic_select_run. cbn [snd]. apply reports_filter.
    apply reports_flat_map, reports_bic_trace.
  - rewrite dic_select_run.
    assert (Ht : reports (verbose s) (this_word s) (dic_search_trace s))
      by (apply reports_trace_until, reports_dic_run).
    destruct (dic_search_result s); cbn [snd]; apply reports_filter;
      [exact Ht|].
    apply reports_app; [exact Ht | apply reports_base_model].
  - rewrite cv_select_run.
    assert (Ht : reports (verbose s) (this_word s) (cv_search_trace s))
      by (apply reports_trace_until, reports_cv_run).
    destruct (cv_search_result s); cbn [snd]; apply reports_filter;
      [exact Ht|].
    apply reports_app; [exact Ht|].
    assert (Hs : same_config s (replay (cv_search_trace s) s))
      by (apply same_config_replay, same_config_refl).
    unfold same_config in Hs.
    assert (Hv : verbose (replay (cv_search_trace s) s) = verbose s)
      by (rewrite Hs; reflexivity).
    assert (Hw : this_word (replay (cv_search_trace s) s) = this_word s)
      by (rewrite Hs; reflexivity).
    rewrite <- Hv, <- Hw. apply reports_base_model.
Qed.

End MessageProps.

(** ** What the searches return *)

Section SelectionProps.
Context {E : Externals}.

Lemma sum_fold_right (l : list Z) : sum l = fold_right Z.add 0 l.
Proof.
  unfold sum.
  assert (H : forall a, fold_left Z.add l a = a + fold_right Z.add 0 l).
  { induction l as [|b l IH]; intros a; cbn [fold_left fold_right]; [lia|].
    rewrite IH. lia. }
  rewrite H. lia.
Qed.

(** X17. [SelectorBIC.select()] trains every state count of the closed range
    [min_n_components .. max_n_components] once, in increasing order, on the
    word's data, and no other (so also not [n_constant] as a fallback); a
    candidate that raises, in training or in scoring, leaves the list of
    entries as it was and the loop goes on, so that the entries are those of
    the scored candidates, each with the score
    [-2*logL + p*ln(N)], [p = n*n + 2*n*N - 1], [N] the sum of the word's
    length markers; [None] is returned exactly when no candidate was scored;
    the model returned is that of a scored candidate whose score no scored
    candidate is strictly below and no candidate with fewer states equals;
    and when no scored candidate has a NaN score, it is the candidate of
    minimum score: below or equal to every scored candidate's, and strictly
    below that of every candidate with fewer states. *)
Theorem bic_select_minimum (s : Selector) :
  let lo := min_n_components s in
  let hi := max_n_components s in
  exists best t,
    SelectorBIC.select s = (Ok best, s, t)
    /\ map (fun call => fst (fst (fst call))) (fits t) = range lo (hi + 1)
    /\ (forall n, In n (range lo (hi + 1)) <-> lo <= n <= hi)
    /\ NoDup (range lo (hi + 1))
    /\ (forall call, In call (fits t) ->
          snd (fst call) = X s /\ snd call = lengths s)
    /\ (forall n score_bics e s' t',
          SelectorBIC.candidate n s = (Raise e, s', t') ->
          SelectorBIC.step n score_bics s = (Ok score_bics, s', t'))
    /\ (exists score_bics t',
          SelectorBIC.search s = (Ok score_bics, s, t')
          /\ forall sc model,
               In (sc, model) score_bics
               <-> exists n m,
                     lo <= n <= hi /\ model = Some m /\ bic_scored s n sc m)
    /\ (forall n sc m,
          bic_scored s n sc m
          <-> GaussianHMM_fit n (random_state s) (X s) (lengths s) = Ok m
              /\ exists ll ln p,
                   Model_score m (X s) (lengths s) = Ok ll
                   /\ np_log (fold_right Z.add 0 (lengths s)) = Ok ln
                   /\ float_of_int
                        (n * n + 2 * n * fold_right Z.add 0 (lengths s) - 1)
                      = Ok p
                   /\ sc = ((-2) * ll + p * ln)%float)
    /\ (best = None <-> forall n sc m, lo <= n <= hi -> ~ bic_scored s n sc m)
    /\ (forall m, best = Some m ->
          exists n sc,
            lo <= n <= hi
            /\ bic_scored s n sc m
            /\ (forall n' sc' m', lo <= n' <= hi -> bic_scored s n' sc' m' ->
                  (sc' <? sc)%float = false)
            /\ (forall n' sc' m', lo <= n' < n -> bic_scored s n' sc' m' ->
                  (sc' =? sc)%float = false)
            /\ ((forall n' sc' m', lo <= n' <= hi -> bic_scored s n' sc' m' ->
                   is_nan sc' = false) ->
                (forall n' sc' m', lo <= n' <= hi -> bic_scored s n' sc' m' ->
                   (sc <=? sc')%float = true)
                /\ (forall n' sc' m', lo <= n' < n -> bic_scored s n' sc' m' ->
                      (sc <? sc')%float = true))).
Proof.
  intros lo hi.
  destruct (bic_select_outcome s) as (best & t & Hrun & Hfits & Hnone & Hsome).
  exists best, t. split; [exact Hrun|].
  split. { rewrite Hfits, map_map. simpl. apply map_id. }
  split. { intros n. apply range_closed. }
  split. { apply range_NoDup. }
  split. { intros call Hc. rewrite Hfits in Hc. apply in_map_iff in Hc.
           destruct Hc as (n & <- & _). auto. }
  split. { intros n acc e s' t' H. unfold SelectorBIC.step, try_except, bind.
           rewrite H. unfold ret. rewrite app_nil_r. reflexivity. }
  split. { exists (bic_entries s), (bic_search_trace s).
           split; [apply bic_search_run|]. intros sc model.
           unfold bic_entries. rewrite in_flat_map_kept. split.
           - intros (n & Hn & Hr). apply range_closed in Hn.
             apply bic_result_scored in Hr. destruct Hr as (m & -> & Hs).
             exists n, m. auto.
           - intros (n & m & Hn & -> & Hs). exists n.
             split; [apply range_closed, Hn|].
             apply bic_result_scored. eauto. }
  split. { intros n sc m. unfold bic_scored, SelectorBIC.calc_deg_lib.
           rewrite sum_fold_right, Z.pow_2_r. reflexivity. }
  split; [exact Hnone|].
  intros m Hm. destruct (Hsome m Hm) as (n & sc & Hn & Hsc & Hopt & Hfirst).
  exists n, sc. split; [exact Hn|]. split; [exact Hsc|].
  split; [exact Hopt|]. split; [exact Hfirst|].
  intros Hnum.
  assert (Hle : forall n' sc' m', lo <= n' <= hi -> bic_scored s n' sc' m' ->
                  (sc <=? sc')%float = true).
  { intros n' sc' m' Hn' Hs'. apply FloatNaN.leb_of_not_ltb.
    - apply (Hnum n sc m Hn Hsc).
    - apply (Hnum n' sc' m' Hn' Hs').
    - apply (Hopt n' sc' m' Hn' Hs'). }
  split; [exact Hle|].
  intros n' sc' m' Hn' Hs'. apply FloatNaN.ltb_of_leb_neq.
  - apply (Hle n' sc' m'); [unfold lo, hi in *; lia | exact Hs'].
  - apply (Hfirst n' sc' m' Hn' Hs').
Qed.

(** X18. [dic_score] returns for a candidate the log-likelihood of its model
    on this word's data minus the mean of its log-likelihoods on the other
    words of the cross-word index, all words but the current one.  When no
    candidate of the range fails and the DIC of at least one is greater than
    minus infinity, [SelectorDIC.select()] returns the model of a candidate
    whose DIC is greater than minus infinity (so not NaN), that no
    candidate's DIC is strictly above, that is above or equal to every DIC
    that is not NaN, and that no candidate with fewer states equals.  When
    no candidate fails and none has a DIC greater than minus infinity, it
    returns [None]. *)
Theorem dic_select_maximum (s : Selector) :
  let lo := min_n_components s in
  let hi := max_n_components s in
  (forall n d m,
     (exists t, SelectorDIC.dic_score n s = (Ok (d, Some m), s, t))
     <-> (GaussianHMM_fit n (random_state s) (X s) (lengths s) = Ok m
          /\ exists own others mean,
               Model_score m (X s) (lengths s) = Ok own
               /\ map (fun item => Model_score m (fst (snd item)) (snd (snd item)))
                    (filter (fun item =>
                               negb (String.eqb (fst item) (this_word s)))
                       (hwords s))
                  = map Ok others
               /\ np_mean others = Ok mean
               /\ d = (own - mean)%float))
  /\ ((forall n, lo <= n <= hi -> exists d m, dic_scored s n d m) ->
      (exists n d m,
         lo <= n <= hi /\ dic_scored s n d m /\ (neg_infinity <? d)%float = true) ->
      exists m n d t,
        SelectorDIC.select s = (Ok (Some m), s, t)
        /\ lo <= n <= hi
        /\ dic_scored s n d m
        /\ (neg_infinity <? d)%float = true
        /\ is_nan d = false
        /\ (forall n' d' m', lo <= n' <= hi -> dic_scored s n' d' m' ->
              (d <? d')%float = false)
        /\ (forall n' d' m', lo <= n' <= hi -> dic_scored s n' d' m' ->
              is_nan d' = false -> (d' <=? d)%float = true)
        /\ (forall n' d' m', lo <= n' < n -> dic_scored s n' d' m' ->
              (d' =? d)%float = false))
  /\ ((forall n, lo <= n <= hi -> exists d m, dic_scored s n d m) ->
      (forall n d m, lo <= n <= hi -> dic_scored s n d m ->
         (neg_infinity <? d)%float = false) ->
      exists t, SelectorDIC.select s = (Ok None, s, t)).
Proof.
  intros lo hi. split; [|split].
  - intros n d m. rewrite dic_score_run.
    change (GaussianHMM_fit n (random_state s) (X s) (lengths s) = Ok m /\
            (exists own others mean,
               Model_score m (X s) (lengths s) = Ok own
               /\ map (fun item => Model_score m (fst (snd item)) (snd (snd item)))
                    (other_words s) = map Ok others
               /\ np_mean others = Ok mean
               /\ d = (own - mean)%float))
      with (dic_scored s n d m).
    split.
    + intros (t & H). injection H as H _.
      apply dic_run_scored in H. destruct H as (m' & Hm & Hs).
      injection Hm as <-. exact Hs.
    + intros Hs. exists (snd (dic_run s n)).
      assert (H : fst (dic_run s n) = Ok (d, Some m))
        by (apply dic_run_scored; eauto).
      rewrite H. reflexivity.
  - intros Hall (n0 & d0 & m0 & Hn0 & Hs0 & Hb0).
    destruct (dic_select_no_failure s Hall) as (best & t & Hrun & Hnone & Hsome).
    destruct best as [m|].
    + destruct (Hsome m eq_refl) as (n & d & Hn & Hs & Hb & Hopt & Hfirst).
      assert (Hd : is_nan d = false) by apply (FloatNaN.ltb_not_nan_r _ _ Hb).
      exists m, n, d, t.
      split; [exact Hrun|]. split; [exact Hn|]. split; [exact Hs|].
      split; [exact Hb|]. split; [exact Hd|]. split; [exact Hopt|].
      split; [|exact Hfirst].
      intros n' d' m' Hn' Hs' Hd'. apply FloatNaN.leb_of_not_ltb; auto.
      apply (Hopt n' d' m' Hn' Hs').
    + pose proof (proj1 Hnone eq_refl n0 d0 m0 Hn0 Hs0) as C.
      fold lo hi in C. congruence.
  - intros Hall Hno.
    destruct (dic_select_no_failure s Hall) as (best & t & Hrun & Hnone & _).
    exists t. rewrite Hrun. f_equal. f_equal. f_equal. apply Hnone. exact Hno.
Qed.

(** X19. Among candidates of equal score the one visited first, with the
    fewest states, is returned.  When some candidate is scored,
    [SelectorBIC.select()] returns the model of a scored candidate that no
    scored candidate is strictly below, and every scored candidate with the
    same score has at least as many states.  In [SelectorDIC] and
    [SelectorCV] a candidate whose score equals [best_score] leaves the
    incumbent in place; and when no candidate fails and some candidate is
    beyond the initial [best_score], [select()] returns the model of a
    candidate that none is strictly better than, and every candidate with
    the same score has at least as many states. *)
Theorem ties_keep_earlier (s : Selector) :
  let lo := min_n_components s in
  let hi := max_n_components s in
  ((exists n sc m, lo <= n <= hi /\ bic_scored s n sc m) ->
   exists m n sc t,
     SelectorBIC.select s = (Ok (Some m), s, t)
     /\ lo <= n <= hi
     /\ bic_scored s n sc m
     /\ (forall n' sc' m', lo <= n' <= hi -> bic_scored s n' sc' m' ->
           (sc' <? sc)%float = false)
     /\ (forall n' sc' m', lo <= n' <= hi -> bic_scored s n' sc' m' ->
           (sc' =? sc)%float = true -> n <= n'))
  /\ (forall n best_score best_model score model s' t,
        SelectorDIC.dic_score n s = (Ok (score, model), s', t) ->
        (score =? best_score)%float = true ->
        SelectorDIC.step n (best_score, best_model) s
        = (Ok (best_score, best_model), s', t))
  /\ (forall n best_score best_model score model s' t,
        SelectorCV.cv_score n s = (Ok (score, model), s', t) ->
        (score =? best_score)%float = true ->
        SelectorCV.step n (best_score, best_model) s
        = (Ok (best_score, best_model), s', t))
  /\ ((forall n, lo <= n <= hi -> exists d m, dic_scored s n d m) ->
      (exists n d m,
         lo <= n <= hi /\ dic_scored s n d m /\ (neg_infinity <? d)%float = true) ->
      exists m n d t,
        SelectorDIC.select s = (Ok (Some m), s, t)
        /\ lo <= n <= hi
        /\ dic_scored s n d m
        /\ (forall n' d' m', lo <= n' <= hi -> dic_scored s n' d' m' ->
              (d <? d')%float = false)
        /\ (forall n' d' m', lo <= n' <= hi -> dic_scored s n' d' m' ->
              (d' =? d)%float = true -> n <= n'))
  /\ ((forall n, lo <= n <= hi -> exists avg m, cv_scored s n avg m) ->
      (exists n avg m,
         lo <= n <= hi /\ cv_scored s n avg m /\ (avg <? infinity)%float = true) ->
      exists m n avg s' t,
        SelectorCV.select s = (Ok (Some m), s', t)
        /\ lo <= n <= hi
        /\ cv_scored s n avg m
        /\ (forall n' avg' m', lo <= n' <= hi -> cv_scored s n' avg' m' ->
              (avg' <? avg)%float = false)
        /\ (forall n' avg' m', lo <= n' <= hi -> cv_scored s n' avg' m' ->
              (avg' =? avg)%float = true -> n <= n')).
Proof.
  intros lo hi. split; [|split; [|split; [|split]]].
  - intros (n0 & sc0 & m0 & Hn0 & Hs0).
    destruct (bic_select_outcome s) as (best & t & Hrun & _ & Hnone & Hsome).
    destruct best as [m|].
    + destruct (Hsome m eq_refl) as (n & sc & Hn & Hsc & Hopt & Hfirst).
      exists m, n, sc, t.
      split; [exact Hrun|]. split; [exact Hn|]. split; [exact Hsc|].
      split; [exact Hopt|].
      intros n' sc' m' Hn' Hs' Heq.
      destruct (Z_lt_le_dec n' n) as [Hlt|Hge]; [|exact Hge].
      rewrite (Hfirst n' sc' m') in Heq; [discriminate | | exact Hs'].
      unfold lo, hi in *. lia.
    + exfalso. apply (proj1 Hnone eq_refl n0 sc0 m0 Hn0 Hs0).
  - intros n best_score best_model score model s' t H Heq.
    unfold SelectorDIC.step, bind. rewrite H.
    rewrite (FloatOrder.eqb_not_gtb _ _ Heq). unfold ret.
    rewrite app_nil_r. reflexivity.
  - intros n best_score best_model score model s' t H Heq.
    unfold SelectorCV.step, bind. rewrite H.
    rewrite (FloatOrder.eqb_not_ltb _ _ Heq). unfold ret.
    rewrite app_nil_r. reflexivity.
  - intros Hall (n0 & d0 & m0 & Hn0 & Hs0 & Hb0).
    destruct (dic_select_no_failure s Hall) as (best & t & Hrun & Hnone & Hsome).
    destruct best as [m|].
    + destruct (Hsome m eq_refl) as (n & d & Hn & Hs & _ & Hopt & Hfirst).
      exists m, n, d, t.
      split; [exact Hrun|]. split; [exact Hn|]. split; [exact Hs|].
      split; [exact Hopt|].
      intros n' d' m' Hn' Hs' Heq.
      destruct (Z_lt_le_dec n' n) as [Hlt|Hge]; [|exact Hge].
      rewrite (Hfirst n' d' m') in Heq; [discriminate | | exact Hs'].
      unfold lo, hi in *. lia.
    + pose proof (proj1 Hnone eq_refl n0 d0 m0 Hn0 Hs0) as C.
      fold lo hi in C. congruence.
  - intros Hall (n0 & a0 & m0 & Hn0 & Hs0 & Hb0).
    destruct (cv_select_no_failure s Hall)
      as (best & s' & t & Hrun & Hnone & Hsome).
    destruct best as [m|].
    + destruct (Hsome m eq_refl) as (n & avg & Hn & Hs & _ & Hopt & Hfirst).
      exists m, n, avg, s', t.
      split; [exact Hrun|]. split; [exact Hn|]. split; [exact Hs|].
      split; [exact Hopt|].
      intros n' avg' m' Hn' Hs' Heq.
      destruct (Z_lt_le_dec n' n) as [Hlt|Hge]; [|exact Hge].
      rewrite (Hfirst n' avg' m') in Heq; [discriminate | | exact Hs'].
      unfold lo, hi in *. lia.
    + pose proof (proj1 Hnone eq_refl n0 a0 m0 Hn0 Hs0) as C.
      fold lo hi in C. congruence.
Qed.

End SelectionProps.

(** * Worked examples *)

Module Checks.
Import Lab Worked MoreWorked.

Example init_book :
  @ModelSelector.init (libs size_score) all_sequences all_Xlengths "BOOK"
    3 2 3 14 false
  = Ok (book size_score 3 2 3).
Proof. reflexivity. Qed.

Example init_missing_word :
  @ModelSelector.init (libs size_score) all_sequences all_Xlengths "MARY"
    3 2 3 14 false
  = Raise KeyError.
Proof. reflexivity. Qed.

Example folds_of_two : split 2 2 = Ok [([1%nat], [0%nat]); ([0%nat], [1%nat])].
Proof. reflexivity. Qed.

Example folds_of_five :
  split 2 5 = Ok [([3; 4], [0; 1; 2]); ([0; 1; 2], [3; 4])]%nat.
Proof. reflexivity. Qed.

Example folds_of_one : split 2 1 = Raise ValueError.
Proof. reflexivity. Qed.

(** the BIC selector keeps the lower score: 2 states, 72.4 against 114.8 *)
Example bic_book :
  fst (fst (SelectorBIC.select (book size_score 3 2 3)))
  = Ok (Some (mkHMM 2 14 [1; 2; 3; 4; 5; 6] [3; 3])).
Proof. vm_compute. reflexivity. Qed.

(** a candidate that cannot be trained (7 states, 6 frames) is passed over *)
Example bic_book_skips :
  fst (fst (SelectorBIC.select (book size_score 3 6 7)))
  = Ok (Some (mkHMM 6 14 [1; 2; 3; 4; 5; 6] [3; 3])).
Proof. vm_compute. reflexivity. Qed.

(** no candidate can be trained: BIC returns [None], without a fallback *)
Example bic_book_none :
  fst (fst (SelectorBIC.select (book size_score 3 7 8))) = Ok None.
Proof. vm_compute. reflexivity. Qed.

(** witness of C3 *)
Lemma bic_score_formula_witness :
  exists m ll ln p,
    Some (mkHMM 2 14 [1; 2; 3; 4; 5; 6] [3; 3]) = Some m
    /\ @Model_score (libs size_score) m (X book_2_3) (lengths book_2_3) = Ok ll
    /\ @np_log (libs size_score) (fold_right Z.add 0 (lengths book_2_3)) = Ok ln
    /\ @float_of_int (libs size_score)
         (SelectorBIC.calc_deg_lib 2 (fold_right Z.add 0 (lengths book_2_3)))
       = Ok p
    /\ ((-2) * (-12) + 27 * 0x1.cab0bfa2a2002p+0)%float
       = ((-2) * ll + p * ln)%float.
Proof.
  apply (proj2 (proj2 (proj2 (@bic_score_formula (libs size_score))))
           book_2_3 2 ((-2) * (-12) + 27 * 0x1.cab0bfa2a2002p+0)%float
           (Some (mkHMM 2 14 [1; 2; 3; 4; 5; 6] [3; 3])) book_2_3
           (snd (SelectorBIC.candidate 2 book_2_3))).
  apply run_eq; [vm_compute; reflexivity | apply bic_candidate_frame].
Defined.

Example dic_alone_is_nan :
  fst (@dic_run (libs size_score) (alone 2 3) 2)
  = Ok (nan, Some (mkHMM 2 14 [1; 2; 3; 4; 5; 6] [3; 3])).
Proof. vm_compute. reflexivity. Qed.

(** witness of C6: 7 states cannot be trained on 6 frames *)
Lemma dic_select_falls_back_witness :
  exists fallback t t0 k,
    SelectorDIC.select book_2_7 = (Ok fallback, book_2_7, t)
    /\ SelectorConstant.select book_2_7 = (Ok fallback, book_2_7, t0)
    /\ fallback = Some (mkHMM 3 14 [1; 2; 3; 4; 5; 6] [3; 3])
    /\ 2 <= k <= 7
    /\ fits t
       = map (fun i => (i, 14, [1; 2; 3; 4; 5; 6], [3; 3])) (range 2 (k + 1))
         ++ [(3, 14, [1; 2; 3; 4; 5; 6], [3; 3])].
Proof.
  apply (@dic_select_falls_back (libs size_score) book_2_7 7).
  - simpl. lia.
  - left. exists ValueError. reflexivity.
Defined.

(** witness of C7: the averages are -6 at 2 states and -9 at 3 *)
Lemma cv_select_lowest_average_witness :
  exists best s' t,
    SelectorCV.select book_2_3 = (Ok best, s', t)
    /\ (best = None <->
        forall n avg m, 2 <= n <= 3 -> cv_scored book_2_3 n avg m ->
          (avg <? infinity)%float = false)
    /\ forall m, best = Some m ->
         exists n avg,
           2 <= n <= 3
           /\ cv_scored book_2_3 n avg m
           /\ (avg <? infinity)%float = true
           /\ forall n' avg' m', 2 <= n' <= 3 -> cv_scored book_2_3 n' avg' m' ->
                (avg' <? avg)%float = false.
Proof.
  apply (proj2 (proj2 (proj2
           (@cv_select_lowest_average (libs size_score) book_2_3)))).
  intros n Hn. assert (Hc : n = 2 \/ n = 3) by (simpl in Hn; lia).
  destruct Hc as [-> | ->]; eexists _, _;
    apply cv_scored_compute; vm_compute; reflexivity.
Defined.

Example cv_book :
  fst (fst (SelectorCV.select (book size_score 3 2 3)))
  = Ok (Some (mkHMM 3 14 [1; 2; 3] [3])).
Proof. vm_compute. reflexivity. Qed.

(** witness of C9: after [select()] the instance holds the training data of
    the second fold *)
Lemma select_frame_witness :
  exists r s' t,
    SelectorCV.select book_2_3 = (r, s', t)
    /\ X s' = [1; 2; 3] /\ lengths s' = [3]
    /\ X book_2_3 = [1; 2; 3; 4; 5; 6] /\ lengths book_2_3 = [3; 3].
Proof.
  destruct (@select_frame (libs size_score) book_2_3)
    as (_ & _ & _ & r & s' & t & Hrun & _ & _ & Hlast & _).
  exists r, s', t. split; [exact Hrun|].
  assert (Ht : t = snd (SelectorCV.select book_2_3))
    by (rewrite Hrun; reflexivity).
  destruct (Hlast [1; 2; 3] [3]) as [HX Hl].
  - rewrite Ht. vm_compute. reflexivity.
  - repeat split; assumption || reflexivity.
Defined.

(** with a flat log-likelihood every DIC is 0: the two candidates tie *)
Example dic_tie :
  fst (@dic_run (libs flat_score) (book flat_score 3 2 3) 2)
  = Ok (0%float, Some (mkHMM 2 14 [1; 2; 3; 4; 5; 6] [3; 3]))
  /\ fst (@dic_run (libs flat_score) (book flat_score 3 2 3) 3)
     = Ok (0%float, Some (mkHMM 3 14 [1; 2; 3; 4; 5; 6] [3; 3])).
Proof. split; vm_compute; reflexivity. Qed.

(** C1. The claim fails on the code.  No candidate of the range 7..8 can be
    trained, on the word's six frames or on fewer.  [SelectorCV.select()]
    then returns a model trained at [n_constant = 3] states on the first
    fold's training data, the second sequence alone, where
    [SelectorConstant.select()] returns the model trained on the word's two
    sequences. *)
Theorem cv_fallback_trains_on_fold_data :
  (forall n (x l : list Z), 7 <= n -> (length x <= 6)%nat ->
     @GaussianHMM_fit (libs size_score) n 14 x l = Raise ValueError)
  /\ fst (fst (SelectorCV.select book_7_8))
     = Ok (Some (mkHMM 3 14 [4; 5; 6] [3]))
  /\ fst (fst (SelectorConstant.select book_7_8))
     = Ok (Some (mkHMM 3 14 [1; 2; 3; 4; 5; 6] [3; 3]))
  /\ fst (fst (SelectorCV.select book_7_8))
     <> fst (fst (SelectorConstant.select book_7_8)).
Proof.
  split; [|split; [|split]].
  - intros n x l Hn Hx. change (fit n 14 x l = Raise ValueError). unfold fit.
    assert (H : (n <=? Z.of_nat (length x)) = false) by (apply Z.leb_gt; lia).
    rewrite H, andb_false_r. reflexivity.
  - vm_compute. reflexivity.
  - vm_compute. reflexivity.
  - vm_compute. intros H. discriminate H.
Qed.

(** C4. The claim fails on the code.  With a scorer that returns NaN for the
    model of 2 states, both candidates of the range 2..3 are scored: the
    entries of the search are NaN for 2 states and 114.8 for 3 states.  The
    minimum BIC among the scored candidates is 114.8, that of 3 states, and
    [SelectorBIC.select()] returns the model of 2 states, whose score is not
    below or equal to 114.8.  With the NaN at 3 states instead it is passed
    over, and the model of 2 states, scored 72.4, is returned; and on the
    first input [SelectorDIC.select()], whose DIC at 2 states is NaN too,
    returns the model of 3 states. *)
Theorem bic_select_misses_minimum :
  fst (fst (SelectorBIC.search nan_2_3))
  = Ok [(nan, Some (mkHMM 2 14 [1; 2; 3; 4; 5; 6] [3; 3]));
        (0x1.cb5983bfcf601p+6%float,
         Some (mkHMM 3 14 [1; 2; 3; 4; 5; 6] [3; 3]))]
  /\ fst (fst (SelectorBIC.select nan_2_3))
     = Ok (Some (mkHMM 2 14 [1; 2; 3; 4; 5; 6] [3; 3]))
  /\ (nan <=? 0x1.cb5983bfcf601p+6)%float = false
  /\ fst (fst (SelectorBIC.select nan_2_3))
     <> Ok (Some (mkHMM 3 14 [1; 2; 3; 4; 5; 6] [3; 3]))
  /\ fst (fst (SelectorBIC.search nan_last_2_3))
     = Ok [(0x1.218290d89c581p+6%float,
            Some (mkHMM 2 14 [1; 2; 3; 4; 5; 6] [3; 3]));
           (nan, Some (mkHMM 3 14 [1; 2; 3; 4; 5; 6] [3; 3]))]
  /\ fst (fst (SelectorBIC.select nan_last_2_3))
     = Ok (Some (mkHMM 2 14 [1; 2; 3; 4; 5; 6] [3; 3]))
  /\ fst (fst (SelectorDIC.select nan_2_3))
     = Ok (Some (mkHMM 3 14 [1; 2; 3; 4; 5; 6] [3; 3])).
Proof.
  split; [|split; [|split; [|split; [|split; [|split]]]]].
  - vm_compute. reflexivity.
  - vm_compute. reflexivity.
  - reflexivity.
  - vm_compute. intros H. discriminate H.
  - vm_compute. reflexivity.
  - vm_compute. reflexivity.
  - vm_compute. reflexivity.
Qed.

(** C5. The claim fails on the code.  When BOOK is the only word of the
    index, each candidate of the range 2..3 trains and [dic_score] returns
    for it, with a DIC that is NaN, the mean of no scores: no failure occurs
    during the search, and [SelectorDIC.select()] returns [None], not the
    model of a candidate.  So it is in the two-word index when the
    log-likelihood of BOOK's own data is minus infinity under every model:
    every DIC is minus infinity and [None] is returned.  On both inputs
    [SelectorConstant.select()] returns the model of 3 states. *)
Theorem dic_select_returns_none_without_failure :
  fst (fst (SelectorDIC.dic_score 2 (alone 2 3)))
  = Ok (nan, Some (mkHMM 2 14 [1; 2; 3; 4; 5; 6] [3; 3]))
  /\ fst (fst (SelectorDIC.dic_score 3 (alone 2 3)))
     = Ok (nan, Some (mkHMM 3 14 [1; 2; 3; 4; 5; 6] [3; 3]))
  /\ fst (fst (SelectorDIC.select (alone 2 3))) = Ok None
  /\ fst (fst (SelectorConstant.select (alone 2 3)))
     = Ok (Some (mkHMM 3 14 [1; 2; 3; 4; 5; 6] [3; 3]))
  /\ fst (fst (SelectorDIC.dic_score 2 impossible_2_3))
     = Ok (neg_infinity, Some (mkHMM 2 14 [1; 2; 3; 4; 5; 6] [3; 3]))
  /\ fst (fst (SelectorDIC.dic_score 3 impossible_2_3))
     = Ok (neg_infinity, Some (mkHMM 3 14 [1; 2; 3; 4; 5; 6] [3; 3]))
  /\ fst (fst (SelectorDIC.select impossible_2_3)) = Ok None
  /\ fst (fst (SelectorConstant.select impossible_2_3))
     = Ok (Some (mkHMM 3 14 [1; 2; 3; 4; 5; 6] [3; 3])).
Proof.
  repeat split; vm_compute; reflexivity.
Qed.


End Checks.

(** * Worked examples of the further properties *)

Module ExtraChecks.
Import Lab Worked MoreWorked.

(** witness of X1: BOOK is a key of both dictionaries *)
Lemma init_looks_up_the_word_witness :
  exists s,
    @ModelSelector.init (libs size_score) all_sequences all_Xlengths "BOOK"
      3 2 3 14 false
    = Ok s.
Proof.
  pose proof (@init_looks_up_the_word (libs size_score) all_sequences
                all_Xlengths "BOOK"%string 3 2 3 14 false) as H.
  cbv zeta in H. destruct H as (_ & _ & H).
  apply H; eexists; reflexivity.
Defined.

(** witness of X3: 27 free parameters at 2 states, 44 at 3, on 6 frames *)
Lemma calc_deg_lib_grows_witness :
  SelectorBIC.calc_deg_lib 2 6 < SelectorBIC.calc_deg_lib 3 6.
Proof. apply (proj1 calc_deg_lib_grows 2 3 6); lia. Defined.

(** witness of X4: of two items with the lowest score the first is returned *)
Lemma calc_best_score_bic_first_minimum_witness :
  exists best pre post,
    @SelectorBIC.calc_best_score_bic (libs size_score)
      [(3%float, None); (1%float, Some (mkHMM 2 14 [] []));
       (1%float, Some (mkHMM 3 14 [] []))]
    = Ok best
    /\ [(3%float, None); (1%float, Some (mkHMM 2 14 [] []));
        (1%float, Some (mkHMM 3 14 [] []))]
       = pre ++ best :: post
    /\ (forall item,
          In item [(3%float, None); (1%float, Some (mkHMM 2 14 [] []));
                   (1%float, Some (mkHMM 3 14 [] []))] ->
          (fst item <? fst best)%float = false)
    /\ (forall item, In item pre -> (fst item =? fst best)%float = false).
Proof.
  apply (proj2 (@calc_best_score_bic_first_minimum (libs size_score)
                  [(3%float, None); (1%float, Some (mkHMM 2 14 [] []));
                   (1%float, Some (mkHMM 3 14 [] []))])).
  discriminate.
Defined.

Example calc_best_score_bic_first :
  @SelectorBIC.calc_best_score_bic (libs size_score)
    [(3%float, None); (1%float, Some (mkHMM 2 14 [] []));
     (1%float, Some (mkHMM 3 14 [] []))]
  = Ok (1%float, Some (mkHMM 2 14 [] [])).
Proof. vm_compute. reflexivity. Qed.

(** witness of X5: the model of 2 states scores NaN, the one of 3 states
    scores -18, and BIC returns the model of 2 states *)
Lemma bic_nan_score_wins_witness :
  exists score_bic t,
    bic_scored nan_2_3 2 score_bic (mkHMM 2 14 [1; 2; 3; 4; 5; 6] [3; 3])
    /\ is_nan score_bic = true
    /\ SelectorBIC.select nan_2_3
       = (Ok (Some (mkHMM 2 14 [1; 2; 3; 4; 5; 6] [3; 3])), nan_2_3, t).
Proof.
  apply (@bic_nan_score_wins (libs nan_score) nan_2_3 2
           (mkHMM 2 14 [1; 2; 3; 4; 5; 6] [3; 3]) nan
           0x1.cab0bfa2a2002p+0%float 27%float).
  - simpl. lia.
  - intros n' sc m' Hn'. simpl in Hn'. lia.
  - vm_compute. reflexivity.
  - vm_compute. reflexivity.
  - vm_compute. reflexivity.
  - vm_compute. reflexivity.
  - reflexivity.
Defined.

(** witness of X6: with the same scorer DIC, whose score at 2 states is NaN,
    returns the model of 3 states *)
Lemma dic_cv_never_keep_nan_witness :
  exists n d,
    2 <= n <= 3
    /\ dic_scored nan_2_3 n d (mkHMM 3 14 [1; 2; 3; 4; 5; 6] [3; 3])
    /\ is_nan d = false
    /\ (neg_infinity <? d)%float = true.
Proof.
  pose proof (@dic_cv_never_keep_nan (libs nan_score) nan_2_3) as H.
  cbv zeta in H. destruct H as (_ & _ & H & _).
  apply (H ltac:(intros n Hn;
                 assert (Hc : n = 2 \/ n = 3) by (simpl in Hn; lia);
                 destruct Hc as [-> | ->]; eexists _, _;
                 apply dic_scored_compute; vm_compute; reflexivity)
           (mkHMM 3 14 [1; 2; 3; 4; 5; 6] [3; 3])
           (snd (SelectorDIC.select nan_2_3))).
  apply run_eq; [vm_compute; reflexivity | apply dic_select_frame].
Defined.

Example dic_nan_at_two_states :
  match fst (@dic_run (libs nan_score) nan_2_3 2) with
  | Ok (d, _) => is_nan d
  | Raise _ => false
  end = true.
Proof. vm_compute. reflexivity. Qed.

(** witness of X7: the range 5..4 *)
Lemma empty_range_selects_nothing_witness :
  SelectorBIC.select book_5_4 = (Ok None, book_5_4, [EFilterWarnings])
  /\ SelectorDIC.select book_5_4 = (Ok None, book_5_4, [EFilterWarnings])
  /\ SelectorCV.select book_5_4 = (Ok None, book_5_4, [EFilterWarnings]).
Proof.
  apply (@empty_range_selects_nothing (libs size_score) book_5_4).
  simpl. lia.
Defined.

(** witness of X8: a word with one sequence *)
Lemma cv_split_failure_is_constant_witness :
  exists fallback t t0,
    SelectorCV.select solo = (Ok fallback, solo, t)
    /\ SelectorConstant.select solo = (Ok fallback, solo, t0)
    /\ fits t = [(n_constant solo, random_state solo, X solo, lengths solo)]
    /\ scorings t = []
    /\ stores t = [].
Proof.
  apply (@cv_split_failure_is_constant (libs size_score) solo ValueError).
  - simpl. lia.
  - reflexivity.
Defined.

(** witness of X10: BOOK with 2 and 3 states *)
Lemma dic_select_calls_witness :
  exists best t,
    SelectorDIC.select book_2_3 = (Ok best, book_2_3, t)
    /\ fits t
       = [(2, 14, [1; 2; 3; 4; 5; 6], [3; 3]);
          (3, 14, [1; 2; 3; 4; 5; 6], [3; 3])]
    /\ stores t = [].
Proof.
  destruct (@dic_select_calls (libs size_score) book_2_3)
    as (best & t & Hrun & Hfits & _ & Hstores).
  - intros n Hn. assert (Hc : n = 2 \/ n = 3) by (simpl in Hn; lia).
    destruct Hc as [-> | ->]; eexists _, _;
      apply dic_scored_compute; vm_compute; reflexivity.
  - exists best, t. split; [exact Hrun|].
    split; [rewrite Hfits; reflexivity | exact Hstores].
Defined.

(** witness of X11: BOOK has two sequences, so each fold trains on one *)
Lemma cv_select_calls_witness :
  exists best t,
    SelectorCV.select book_2_3
    = (Ok best, with_data book_2_3 [1; 2; 3] [3], t)
    /\ fits t
       = [(2, 14, [4; 5; 6], [3]); (2, 14, [1; 2; 3], [3]);
          (3, 14, [4; 5; 6], [3]); (3, 14, [1; 2; 3], [3])]
    /\ scorings t
       = [(mkHMM 2 14 [4; 5; 6] [3], [1; 2; 3], [3]);
          (mkHMM 2 14 [1; 2; 3] [3], [4; 5; 6], [3]);
          (mkHMM 3 14 [4; 5; 6] [3], [1; 2; 3], [3]);
          (mkHMM 3 14 [1; 2; 3] [3], [4; 5; 6], [3])]
    /\ stores t
       = [([4; 5; 6], [3]); ([1; 2; 3], [3]);
          ([4; 5; 6], [3]); ([1; 2; 3], [3])].
Proof.
  destruct (@cv_select_calls (libs size_score) book_2_3
              ([1%nat], [0%nat]) ([0%nat], [1%nat])
              [4; 5; 6] [3] [1; 2; 3] [3] [1; 2; 3] [3] [4; 5; 6] [3])
    as (best & t & Hrun & Hfits & Hscorings & Hstores).
  - simpl. lia.
  - reflexivity.
  - reflexivity.
  - reflexivity.
  - reflexivity.
  - reflexivity.
  - intros n Hn. assert (Hc : n = 2 \/ n = 3) by (simpl in Hn; lia).
    destruct Hc as [-> | ->]; eexists _, _;
      apply cv_scored_compute; vm_compute; reflexivity.
  - exists best, t. split; [exact Hrun|].
    split; [rewrite Hfits; reflexivity|].
    split; [rewrite Hscorings | rewrite Hstores]; reflexivity.
Defined.

(** witness of X12: BOOK with its data wiped is selected for as BOOK is *)
Lemma cv_select_reads_sequences_only_witness :
  SelectorCV.select (with_data book_2_3 [] []) = SelectorCV.select book_2_3.
Proof.
  apply (proj2 (@cv_select_reads_sequences_only (libs size_score) book_2_3)).
  vm_compute. discriminate.
Defined.

(** witness of X13: 7 states cannot be trained on 6 frames, nor on the 3 of
    a fold *)
Lemma training_failure_is_attribute_error_witness :
  ((exists t,
      SelectorBIC.candidate 7 book_2_7 = (Raise AttributeError, book_2_7, t)
      /\ scorings t = [])
   /\ (exists t,
         SelectorDIC.dic_score 7 book_2_7
         = (Raise AttributeError, book_2_7, t)
         /\ scorings t = []))
  /\ (exists t,
        SelectorCV.cv_score 7 book_2_7
        = (Raise AttributeError, with_data book_2_7 [4; 5; 6] [3], t)
        /\ fits t = [(7, random_state book_2_7, [4; 5; 6], [3])]
        /\ scorings t = []).
Proof.
  split.
  - apply (proj1 (@training_failure_is_attribute_error (libs size_score)
                    book_2_7 7) ValueError).
    reflexivity.
  - apply (proj2 (@training_failure_is_attribute_error (libs size_score)
                    book_2_7 7)
             ([1%nat], [0%nat]) [([0%nat], [1%nat])]
             [4; 5; 6] [3] [1; 2; 3] [3] ValueError);
      reflexivity.
Defined.

(** witness of X14: no candidate of 7..8 trains; the fallback is trained on
    the first fold's training data, the last stored *)
Lemma cv_fallback_uses_stored_data_witness :
  exists s' t,
    SelectorCV.select book_7_8
    = (Ok (match @GaussianHMM_fit (libs size_score) (n_constant book_7_8)
                   (random_state book_7_8) (X s') (lengths s') with
           | Ok m => Some m
           | Raise _ => None
           end), s', t)
    /\ X s' = [4; 5; 6] /\ lengths s' = [3].
Proof.
  destruct (@cv_fallback_uses_stored_data (libs size_score) book_7_8 7)
    as (s' & t & Hrun & _ & _ & _ & Hlast).
  - simpl. lia.
  - apply cv_candidate_fails_run. exists AttributeError.
    vm_compute. reflexivity.
  - exists s', t. split; [exact Hrun|].
    assert (Ht : t = snd (SelectorCV.select book_7_8))
      by (rewrite Hrun; reflexivity).
    destruct (Hlast [4; 5; 6] [3]) as (HX & Hl & _).
    + rewrite Ht. vm_compute. reflexivity.
    + split; assumption.
Defined.

(** witness of X16: BOOK alone in the index *)
Lemma dic_single_word_selects_nothing_witness :
  exists t,
    SelectorDIC.select (alone 2 3) = (Ok None, alone 2 3, t)
    /\ fits t
       = [(2, 14, [1; 2; 3; 4; 5; 6], [3; 3]);
          (3, 14, [1; 2; 3; 4; 5; 6], [3; 3])].
Proof.
  destruct (@dic_single_word_selects_nothing (libs size_score) (alone 2 3) nan)
    as (t & Hrun & Hfits).
  - reflexivity.
  - reflexivity.
  - reflexivity.
  - intros n Hn. assert (Hc : n = 2 \/ n = 3) by (simpl in Hn; lia).
    destruct Hc as [-> | ->]; eexists _, _; split; vm_compute; reflexivity.
  - exists t. split; [exact Hrun | rewrite Hfits; reflexivity].
Defined.

(** witness of X17: the two scores of BOOK, 72.4 and 114.8, are not NaN *)
Lemma bic_select_minimum_witness :
  exists n sc,
    2 <= n <= 3
    /\ bic_scored book_2_3 n sc (mkHMM 2 14 [1; 2; 3; 4; 5; 6] [3; 3])
    /\ (forall n' sc' m', 2 <= n' <= 3 -> bic_scored book_2_3 n' sc' m' ->
          (sc <=? sc')%float = true)
    /\ (forall n' sc' m', 2 <= n' < n -> bic_scored book_2_3 n' sc' m' ->
          (sc <? sc')%float = true).
Proof.
  destruct (@bic_select_minimum (libs size_score) book_2_3)
    as (best & t & Hrun & _ & _ & _ & _ & _ & _ & _ & _ & Hsome).
  destruct (Hsome (mkHMM 2 14 [1; 2; 3; 4; 5; 6] [3; 3]))
    as (n & sc & Hn & Hs & _ & _ & Hnum).
  - apply (f_equal (fun r => fst (fst r))) in Hrun. vm_compute in Hrun.
    injection Hrun as <-. reflexivity.
  - exists n, sc. split; [exact Hn|]. split; [exact Hs|]. apply Hnum.
    intros n' sc' m' Hn' Hs'.
    assert (Hr : bic_result book_2_3 n' = Ok (sc', Some m'))
      by (apply bic_result_scored; eauto).
    assert (Hc : n' = 2 \/ n' = 3) by (simpl in Hn'; lia).
    destruct Hc as [-> | ->]; vm_compute in Hr; injection Hr as <- _;
      reflexivity.
Defined.

(** witness of X18: the DIC of BOOK is -6 at 2 states and -9 at 3 *)
Lemma dic_select_maximum_witness :
  exists m n d t,
    SelectorDIC.select book_2_3 = (Ok (Some m), book_2_3, t)
    /\ 2 <= n <= 3
    /\ dic_scored book_2_3 n d m
    /\ (neg_infinity <? d)%float = true
    /\ is_nan d = false
    /\ (forall n' d' m', 2 <= n' <= 3 -> dic_scored book_2_3 n' d' m' ->
          (d <? d')%float = false)
    /\ (forall n' d' m', 2 <= n' <= 3 -> dic_scored book_2_3 n' d' m' ->
          is_nan d' = false -> (d' <=? d)%float = true)
    /\ (forall n' d' m', 2 <= n' < n -> dic_scored book_2_3 n' d' m' ->
          (d' =? d)%float = false).
Proof.
  apply (proj1 (proj2 (@dic_select_maximum (libs size_score) book_2_3))).
  - intros n Hn. assert (Hc : n = 2 \/ n = 3) by (simpl in Hn; lia).
    destruct Hc as [-> | ->]; eexists _, _;
      apply dic_scored_compute; vm_compute; reflexivity.
  - exists 2, (-6)%float, (mkHMM 2 14 [1; 2; 3; 4; 5; 6] [3; 3]).
    split; [simpl; lia|].
    split; [apply dic_scored_compute; vm_compute; reflexivity | reflexivity].
Defined.

Example dic_book :
  fst (fst (SelectorDIC.select book_2_3))
  = Ok (Some (mkHMM 2 14 [1; 2; 3; 4; 5; 6] [3; 3])).
Proof. vm_compute. reflexivity. Qed.

(** the scores of the three examples of ties: the candidate of 1 state is
    behind, those of 2 and 3 states are level *)
Example bic_tie_scores :
  map (bic_result bic_tie_1_3) [1; 2; 3]
  = [Ok (0x1.58048fb9f9802p+4%float,
         Some (mkHMM 1 14 [1; 2; 3; 4; 5; 6] [3; 3]));
     Ok (0%float, Some (mkHMM 2 14 [1; 2; 3; 4; 5; 6] [3; 3]));
     Ok (0%float, Some (mkHMM 3 14 [1; 2; 3; 4; 5; 6] [3; 3]))].
Proof. vm_compute. reflexivity. Qed.

Example dic_tie_scores :
  map (fun n => fst (dic_run plateau_1_3 n)) [1; 2; 3]
  = [Ok (3%float, Some (mkHMM 1 14 [1; 2; 3; 4; 5; 6] [3; 3]));
     Ok (6%float, Some (mkHMM 2 14 [1; 2; 3; 4; 5; 6] [3; 3]));
     Ok (6%float, Some (mkHMM 3 14 [1; 2; 3; 4; 5; 6] [3; 3]))].
Proof. vm_compute. reflexivity. Qed.

Example cv_tie_scores :
  map (fun n => fst (cv_run valley_1_3 n)) [1; 2; 3]
  = [Ok ((-3)%float, Some (mkHMM 1 14 [1; 2; 3] [3]));
     Ok ((-6)%float, Some (mkHMM 2 14 [1; 2; 3] [3]));
     Ok ((-6)%float, Some (mkHMM 3 14 [1; 2; 3] [3]))].
Proof. vm_compute. reflexivity. Qed.

(** in each the model of 2 states is returned *)
Example tie_results :
  fst (fst (SelectorBIC.select bic_tie_1_3))
  = Ok (Some (mkHMM 2 14 [1; 2; 3; 4; 5; 6] [3; 3]))
  /\ fst (fst (SelectorDIC.select plateau_1_3))
     = Ok (Some (mkHMM 2 14 [1; 2; 3; 4; 5; 6] [3; 3]))
  /\ fst (fst (SelectorCV.select valley_1_3))
     = Ok (Some (mkHMM 2 14 [1; 2; 3] [3])).
Proof. repeat split; vm_compute; reflexivity. Qed.

(** witness of X19: the three examples of ties *)
Lemma ties_keep_earlier_witness :
  (exists m n sc t,
     SelectorBIC.select bic_tie_1_3 = (Ok (Some m), bic_tie_1_3, t)
     /\ 1 <= n <= 3
     /\ bic_scored bic_tie_1_3 n sc m
     /\ (forall n' sc' m', 1 <= n' <= 3 -> bic_scored bic_tie_1_3 n' sc' m' ->
           (sc' <? sc)%float = false)
     /\ (forall n' sc' m', 1 <= n' <= 3 -> bic_scored bic_tie_1_3 n' sc' m' ->
           (sc' =? sc)%float = true -> n <= n'))
  /\ (exists m n d t,
        SelectorDIC.select plateau_1_3 = (Ok (Some m), plateau_1_3, t)
        /\ 1 <= n <= 3
        /\ dic_scored plateau_1_3 n d m
        /\ (forall n' d' m', 1 <= n' <= 3 -> dic_scored plateau_1_3 n' d' m' ->
              (d <? d')%float = false)
        /\ (forall n' d' m', 1 <= n' <= 3 -> dic_scored plateau_1_3 n' d' m' ->
              (d' =? d)%float = true -> n <= n'))
  /\ (exists m n avg s' t,
        SelectorCV.select valley_1_3 = (Ok (Some m), s', t)
        /\ 1 <= n <= 3
        /\ cv_scored valley_1_3 n avg m
        /\ (forall n' avg' m', 1 <= n' <= 3 -> cv_scored valley_1_3 n' avg' m' ->
              (avg' <? avg)%float = false)
        /\ (forall n' avg' m', 1 <= n' <= 3 -> cv_scored valley_1_3 n' avg' m' ->
              (avg' =? avg)%float = true -> n <= n')).
Proof.
  split; [|split].
  - apply (proj1 (@ties_keep_earlier (libs bic_tie_score) bic_tie_1_3)).
    exists 1, 0x1.58048fb9f9802p+4%float,
      (mkHMM 1 14 [1; 2; 3; 4; 5; 6] [3; 3]).
    split; [simpl; lia|].
    apply bic_scored_compute. vm_compute. reflexivity.
  - apply (proj1 (proj2 (proj2 (proj2
             (@ties_keep_earlier (libs plateau_score) plateau_1_3))))).
    + intros n Hn.
      assert (Hc : n = 1 \/ n = 2 \/ n = 3) by (simpl in Hn; lia).
      destruct Hc as [-> | [-> | ->]]; eexists _, _;
        apply dic_scored_compute; vm_compute; reflexivity.
    + exists 1, 3%float, (mkHMM 1 14 [1; 2; 3; 4; 5; 6] [3; 3]).
      split; [simpl; lia|].
      split; [apply dic_scored_compute; vm_compute; reflexivity | reflexivity].
  - apply (proj2 (proj2 (proj2 (proj2
             (@ties_keep_earlier (libs valley_score) valley_1_3))))).
    + intros n Hn.
      assert (Hc : n = 1 \/ n = 2 \/ n = 3) by (simpl in Hn; lia).
      destruct Hc as [-> | [-> | ->]]; eexists _, _;
        apply cv_scored_compute; vm_compute; reflexivity.
    + exists 1, (-3)%float, (mkHMM 1 14 [1; 2; 3] [3]).
      split; [simpl; lia|].
      split; [apply cv_scored_compute; vm_compute; reflexivity | reflexivity].
Defined.

End ExtraChecks.
